(** * shortcut_client.py: the Shortcut bootstrapper, embedded and verified

    The program reconciles a configuration document (projects, one
    milestone, epics, an optional iteration, stories with tasks) against
    the Shortcut REST API.  The embedding follows [shortcut_client.py]
    function by function.  Effects (the environment, the HTTP transport,
    the clock, sleeping, the two output streams, [sys.exit] and uncaught
    exceptions) are threaded through a state-and-error monad over an
    explicit [World]. *)

From stdpp Require Import gmap strings list fin_maps pretty.
From Stdlib Require Import ZArith Lia.

Local Open Scope string_scope.
Local Open Scope list_scope.
Set Warnings "-register-all,-clear-no-such-hyp".

(** ** Values *)

(** JSON values, as [requests] serialises them from Python objects. *)
Inductive json : Type :=
  | JNull
  | JBool (b : bool)
  | JInt (z : Z)
  | JStr (s : string)
  | JList (l : list json)
  | JDict (d : list (string * json)).

(** Python truthiness ([if v], [not v]). *)
Definition str_truthy (s : string) : bool :=
  match s with EmptyString => false | String _ _ => true end.

Definition truthy (v : json) : bool :=
  match v with
  | JNull => false
  | JBool b => b
  | JInt z => negb (z =? 0)%Z
  | JStr s => str_truthy s
  | JList l => match l with [] => false | _ :: _ => true end
  | JDict d => match d with [] => false | _ :: _ => true end
  end.

(** [o] holds the result of [d.get(k)]: [None] when the key is absent. *)
Definition opt_truthy (o : option string) : bool :=
  match o with Some s => str_truthy s | None => false end.

Definition opt_json (o : option string) : json :=
  match o with Some s => JStr s | None => JNull end.

(** A dict literal sent as a request body keeps its insertion order. *)
Abbreviation payload := (list (string * json)).

(** ** The configuration document

    [cfg] is the dict that [yaml.safe_load] returns.  Keys the program
    reads with [d[k]] are fields; keys it reads with [d.get(k, default)]
    are options ([None]: the key is absent).  List-valued keys read with
    [.get(k, [])] are lists (absent: the empty list).

    The records describe the documents of the expected shape, and the
    development is about these:
    - a key read with [d[k]] somewhere is present, also where only one
      mode reads it: ["external_id"] of the milestone and of an epic is
      read by the real run only (in [upsert_milestone] and
      [upsert_epic]), so a document without it, which the dry run
      accepts and on which the real run raises [KeyError], is not a
      value of these types (the [milestone] block itself is an option);
    - names, ids and dates are strings: a date written without quotes,
      which YAML loads as a date object, is not a value of
      [i_start_date] or [i_end_date]. *)

Record Project := {
  p_name : string;
  p_description : option string;
  p_external_id : string }.

Record Milestone := {
  m_name : string;
  m_description : option string;
  m_state : option string;
  m_external_id : string }.

Record Epic := {
  e_name : string;
  e_description : option string;
  e_labels : option (list json);
  e_external_id : string }.

(** Both the [iteration] block of the configuration and the dict
    [it_payload] that [bootstrap] hands to [upsert_iteration]. *)
Record Iteration := {
  i_name : string;
  i_start_date : option string;
  i_end_date : option string;
  i_external_id : string }.

Record Story := {
  s_name : string;
  s_description : option string;
  s_story_type : option string;
  s_project : string;
  s_epic : string;
  s_estimate : option Z;
  s_labels : option (list json);
  s_external_id : string;
  s_tasks : list string }.

(** The [org] block; an absent block reads as both keys absent. *)
Record Org := {
  timezone : option string;
  iteration_length_days : option Z }.

(** [milestone] is read with [cfg["milestone"]]: an absent key raises.
    [iteration] is read with [cfg.get("iteration", {})]: absent or empty
    is falsy. *)
Record Config := {
  org : Org;
  projects : list Project;
  milestone : option Milestone;
  epics : list Epic;
  iteration : option Iteration;
  stories : list Story }.

(** ** Remote records and HTTP messages *)

(** A record of the remote service as the program reads it: ["id"],
    ["name"] (absent on tasks and on the dry-run placeholder) and
    ["external_id"] (read with [.get]).  Such a dict has the key ["id"],
    so it is never empty and always truthy. *)
Record Remote := {
  r_id : Z;
  r_name : option string;
  r_external_id : option string }.

(** The body of a response: what [resp.json()] yields, or text that is
    not the JSON the program expects. *)
Inductive Body : Type :=
  | BList (l : list Remote)
  | BObj (r : Remote)
  | BText (t : string).

Record Response := {
  status_code : Z;
  body : Body }.

Record Request := {
  rq_method : string;
  rq_url : string;
  rq_headers : list (string * string);
  rq_json : option payload;
  rq_timeout : Z }.

(** Uncaught Python exceptions. *)
Inductive exn : Type :=
  | KeyError (key : string)
  | TypeError
  | UnboundLocalError.

(** What the program itself prints to [sys.stderr], with
    [print(..., file=sys.stderr)].  The rendering of a response body
    inside the message of [_die] is kept structured. *)
Inductive ErrLine : Type :=
  | ErrTokenRequired
  | ErrDuring (context : string) (resp : Response)
  | ErrMissing (story_name : string).

(** ** The world

    [service] is the remote service: the response to a request, given
    every exchange so far (the transport always delivers a response;
    connection errors and timeouts are not part of the model).  [clock tzname] is the current date in that
    timezone as a proleptic Gregorian ordinal (1 = 0001-01-01, as
    [date.toordinal]).  [slept] is in milliseconds.  [env_reads] records
    every [os.environ.get]. *)
Record World := {
  environ : gmap string string;
  API_BASE : string;
  service : list (Request * Response) → Request → Response;
  clock : string → Z;
  exchanges : list (Request * Response);
  slept : list Z;
  stdout : list string;
  stderr : list ErrLine;
  env_reads : list string }.

Definition with_exchange (x : Request * Response) (w : World) : World :=
  {| environ := environ w; API_BASE := API_BASE w; service := service w;
     clock := clock w; exchanges := exchanges w ++ [x]; slept := slept w;
     stdout := stdout w; stderr := stderr w; env_reads := env_reads w |}.

Definition with_sleep (ms : Z) (w : World) : World :=
  {| environ := environ w; API_BASE := API_BASE w; service := service w;
     clock := clock w; exchanges := exchanges w; slept := slept w ++ [ms];
     stdout := stdout w; stderr := stderr w; env_reads := env_reads w |}.

Definition with_stdout (line : string) (w : World) : World :=
  {| environ := environ w; API_BASE := API_BASE w; service := service w;
     clock := clock w; exchanges := exchanges w; slept := slept w;
     stdout := stdout w ++ [line]; stderr := stderr w;
     env_reads := env_reads w |}.

Definition with_stderr (line : ErrLine) (w : World) : World :=
  {| environ := environ w; API_BASE := API_BASE w; service := service w;
     clock := clock w; exchanges := exchanges w; slept := slept w;
     stdout := stdout w; stderr := stderr w ++ [line];
     env_reads := env_reads w |}.

Definition with_env_read (k : string) (w : World) : World :=
  {| environ := environ w; API_BASE := API_BASE w; service := service w;
     clock := clock w; exchanges := exchanges w; slept := slept w;
     stdout := stdout w; stderr := stderr w;
     env_reads := env_reads w ++ [k] |}.

Definition with_environ (env : gmap string string) (w : World) : World :=
  {| environ := env; API_BASE := API_BASE w; service := service w;
     clock := clock w; exchanges := exchanges w; slept := slept w;
     stdout := stdout w; stderr := stderr w; env_reads := env_reads w |}.

(** ** The monad *)

Inductive outcome (A : Type) : Type :=
  | Ok (a : A)
  | Exit (code : Z)
  | Raise (e : exn).
Arguments Ok {A} a.
Arguments Exit {A} code.
Arguments Raise {A} e.

Definition M (A : Type) : Type := World → outcome A * World.

#[global] Instance M_ret : MRet M := λ A a w, (Ok a, w).

#[global] Instance M_bind : MBind M := λ A B f m w,
  match m w with
  | (Ok a, w') => f a w'
  | (Exit c, w') => (Exit c, w')
  | (Raise e, w') => (Raise e, w')
  end.

(** The status the process ends with: 0 when [main] returns, the argument
    of [sys.exit], 1 after an uncaught exception. *)
Definition exit_code {A} (o : outcome A) : Z :=
  match o with Ok _ => 0 | Exit c => c | Raise _ => 1 end.

(** What reaches the standard error of the process.  [stderr] of the
    world holds the lines that the program prints there itself; when the
    run ends in an uncaught exception, the interpreter adds the traceback
    of that exception (kept structured) before it ends the process with
    status 1. *)
Inductive ProcessErr : Type :=
  | Printed (line : ErrLine)
  | Traceback (e : exn).

Definition process_stderr {A} (res : outcome A * World) : list ProcessErr :=
  (Printed <$> stderr res.2) ++
  match res.1 with
  | Raise e => [Traceback e]
  | _ => []
  end.

(** [raise e] goes up to the end of the run: the program has no handler
    around the calls that can raise.  The traceback is not a line of the
    program and is not in [stderr]: see [process_stderr]. *)
Definition sys_exit {A} (code : Z) : M A := λ w, (Exit code, w).
Definition raise {A} (e : exn) : M A := λ w, (Raise e, w).
Definition print (line : string) : M unit := λ w, (Ok tt, with_stdout line w).
Definition eprint (line : ErrLine) : M unit := λ w, (Ok tt, with_stderr line w).
Definition time_sleep (ms : Z) : M unit := λ w, (Ok tt, with_sleep ms w).

Definition os_environ_get (k : string) : M (option string) :=
  λ w, (Ok (environ w !! k), with_env_read k w).

Definition get_API_BASE : M string := λ w, (Ok (API_BASE w), w).

(** [requests.request(method, url, headers=..., json=..., timeout=...)]. *)
Definition requests_request (method url : string)
    (headers : list (string * string)) (js : option payload) (timeout : Z)
    : M Response :=
  λ w,
    let rq := {| rq_method := method; rq_url := url; rq_headers := headers;
                 rq_json := js; rq_timeout := timeout |} in
    let resp := service w (exchanges w) rq in
    (Ok resp, with_exchange (rq, resp) w).

(** [datetime.now(tz.gettz(tzname))], as a date. *)
Definition datetime_now (tzname : string) : M Z := λ w, (Ok (clock w tzname), w).

(** [resp.json()] where the program goes on to iterate over a list of
    records, and where it goes on to index a record.  A body of another
    shape makes the first use of the value raise; no effect lies between
    the decoding and that use, so the exception is raised here. *)
Definition json_list (r : Response) : M (list Remote) :=
  match body r with BList l => mret l | _ => raise TypeError end.

Definition json_obj (r : Response) : M Remote :=
  match body r with BObj o => mret o | _ => raise TypeError end.

(** [rec["name"]]. *)
Definition getitem_name (r : Remote) : M string :=
  match r_name r with Some n => mret n | None => raise (KeyError "name") end.

(** [for x in l: s = body(x, s)], the loop state passed along. *)
Fixpoint for_fold {A S : Type} (l : list A) (body : A → S → M S) (s : S) : M S :=
  match l with
  | [] => mret s
  | x :: l' => s' ← body x s; for_fold l' body s'
  end.

Definition for_each {A : Type} (l : list A) (body : A → M unit) : M unit :=
  for_fold l (λ x _, body x) tt.

(** [enumerate(l, start)]. *)
Fixpoint enumerate {A : Type} (start : Z) (l : list A) : list (Z * A) :=
  match l with
  | [] => []
  | x :: l' => (start, x) :: enumerate (start + 1) l'
  end.

(** ** Dates

    A date is its proleptic Gregorian ordinal, as [date.toordinal]: day 1
    is 0001-01-01, a Monday.  Adding a [timedelta] of whole days adds to
    the ordinal.  The limits of the library (years 1 to 9999) are not part
    of the model. *)

(** [date.weekday()]: Monday is 0. *)
Definition weekday (d : Z) : Z := ((d + 6) `mod` 7)%Z.

(** Year, month and day of an ordinal. *)
Definition civil (d : Z) : Z * Z * Z :=
  let z := (d + 305)%Z in
  let era := (z `div` 146097)%Z in
  let doe := (z - era * 146097)%Z in
  let yoe := ((doe - doe `div` 1460 + doe `div` 36524 - doe `div` 146096) `div` 365)%Z in
  let doy := (doe - (365 * yoe + yoe `div` 4 - yoe `div` 100))%Z in
  let mp := ((5 * doy + 2) `div` 153)%Z in
  let day := (doy - (153 * mp + 2) `div` 5 + 1)%Z in
  let month := (if (mp <? 10)%Z then mp + 3 else mp - 9)%Z in
  let year := (yoe + era * 400 + (if (month <=? 2)%Z then 1 else 0))%Z in
  (year, month, day).

Fixpoint zeros (n : nat) : string :=
  match n with O => "" | S n' => String (Ascii.ascii_of_nat 48) (zeros n') end.

Definition zero_pad (width : nat) (s : string) : string :=
  zeros (width - String.length s) +:+ s.

(** [date.isoformat()]: YYYY-MM-DD. *)
Definition isoformat (d : Z) : string :=
  let '(y, m, dd) := civil d in
  zero_pad 4 (pretty y) +:+ "-" +:+ zero_pad 2 (pretty m) +:+ "-" +:+
  zero_pad 2 (pretty dd).

(** ** Transport *)

Definition _hdrs : M (list (string * string)) :=
  tok ← os_environ_get "SHORTCUT_TOKEN";
  match tok with
  | Some t =>
      if str_truthy t
      then mret [("Shortcut-Token", t); ("Content-Type", "application/json")]
      else eprint ErrTokenRequired;; sys_exit 2
  | None => eprint ErrTokenRequired;; sys_exit 2
  end.

Definition retryable (status : Z) : bool :=
  bool_decide (status ∈ [429; 500; 502; 503; 504]%Z).

(** [min(2 ** (attempt-1) * 0.5, 8.0)] seconds, in milliseconds. *)
Definition backoff (attempt : Z) : Z := Z.min (2 ^ (attempt - 1) * 500) 8000.

(** The [for attempt in range(1, retry+1)] loop of [_req]; [resp] is the
    variable of that name, unbound before the first attempt. *)
Fixpoint _req_loop (method url : string) (js : option payload)
    (attempts : list Z) (resp : option Response) : M Response :=
  match attempts with
  | [] =>
      match resp with
      | Some r => mret r
      | None => raise UnboundLocalError
      end
  | attempt :: rest =>
      h ← _hdrs;
      r ← requests_request method url h js 30;
      if retryable (status_code r)
      then time_sleep (backoff attempt);; _req_loop method url js rest (Some r)
      else mret r
  end.

Definition _req (method path : string) (js : option payload) (retry : Z)
    : M Response :=
  base ← get_API_BASE;
  _req_loop method (base +:+ path) js (seqZ 1 retry) None.

Definition _die {A} (resp : Response) (context : string) : M A :=
  eprint (ErrDuring context resp);; sys_exit 2.

Definition _iso_week_dates (tzname : string) (iteration_length_days : Z)
    : M (string * string) :=
  now ← datetime_now tzname;
  let monday := (now - weekday now)%Z in
  let start := monday in
  let end_ := (start + (iteration_length_days - 1))%Z in
  mret (isoformat start, isoformat end_).

(** ** Entity helpers *)

(** [p.get("external_id") == external_id]. *)
Definition ext_matches (external_id : string) (p : Remote) : bool :=
  bool_decide (r_external_id p = Some external_id).

(** [if r.status_code != 200: _die(r, context)]. *)
Definition die_unless_200 (r : Response) (context : string) : M unit :=
  if bool_decide (status_code r = 200%Z) then mret tt else _die r context.

(** [if r.status_code not in (200,201): _die(r, context)]. *)
Definition die_unless_created (r : Response) (context : string) : M unit :=
  if bool_decide (status_code r ∈ [200; 201]%Z) then mret tt else _die r context.

Definition find_project_by_external_id (external_id : string) : M (option Remote) :=
  r ← _req "GET" "/projects" None 5;
  die_unless_200 r "list projects";;
  l ← json_list r;
  mret (List.find (ext_matches external_id) l).

Definition create_project (js : payload) : M Remote :=
  r ← _req "POST" "/projects" (Some js) 5;
  die_unless_created r "create project";;
  json_obj r.

Definition upsert_project (p : Project) : M Remote :=
  found ← find_project_by_external_id (p_external_id p);
  match found with
  | Some found => mret found
  | None =>
      create_project
        [("name", JStr (p_name p));
         ("description", JStr (default "" (p_description p)));
         ("external_id", JStr (p_external_id p))]
  end.

Definition get_milestones : M (list Remote) :=
  r ← _req "GET" "/milestones" None 5;
  die_unless_200 r "list milestones";;
  json_list r.

Definition find_milestone_by_external_id (external_id : string) : M (option Remote) :=
  l ← get_milestones;
  mret (List.find (ext_matches external_id) l).

Definition create_milestone (js : payload) : M Remote :=
  r ← _req "POST" "/milestones" (Some js) 5;
  die_unless_created r "create milestone";;
  json_obj r.

Definition update_milestone (mid : Z) (patch : payload) : M Remote :=
  r ← _req "PUT" ("/milestones/" +:+ pretty mid) (Some patch) 5;
  die_unless_200 r "update milestone";;
  json_obj r.

Definition milestone_payload (m : Milestone) : payload :=
  [("name", JStr (m_name m));
   ("description", JStr (default "" (m_description m)));
   ("state", JStr (default "to_do" (m_state m)));
   ("external_id", JStr (m_external_id m))].

Definition upsert_milestone (m : Milestone) : M Remote :=
  found ← find_milestone_by_external_id (m_external_id m);
  let js := milestone_payload m in
  match found with
  | Some found => update_milestone (r_id found) js
  | None => create_milestone js
  end.

Definition list_epics : M (list Remote) :=
  r ← _req "GET" "/epics" None 5;
  die_unless_200 r "list epics";;
  json_list r.

Definition find_epic_by_external_id (external_id : string) : M (option Remote) :=
  l ← list_epics;
  mret (List.find (ext_matches external_id) l).

Definition create_epic (js : payload) : M Remote :=
  r ← _req "POST" "/epics" (Some js) 5;
  die_unless_created r "create epic";;
  json_obj r.

Definition update_epic (eid : Z) (patch : payload) : M Remote :=
  r ← _req "PUT" ("/epics/" +:+ pretty eid) (Some patch) 5;
  die_unless_200 r "update epic";;
  json_obj r.

Definition epic_payload (e : Epic) (milestone_id : Z) : payload :=
  [("name", JStr (e_name e));
   ("description", JStr (default "" (e_description e)));
   ("milestone_id", JInt milestone_id);
   ("labels", JList (default [] (e_labels e)));
   ("external_id", JStr (e_external_id e))].

Definition upsert_epic (e : Epic) (milestone_id : Z) : M Remote :=
  found ← find_epic_by_external_id (e_external_id e);
  let js := epic_payload e milestone_id in
  match found with
  | Some found => update_epic (r_id found) js
  | None => create_epic js
  end.

Definition list_iterations : M (list Remote) :=
  r ← _req "GET" "/iterations" None 5;
  die_unless_200 r "list iterations";;
  json_list r.

Definition find_iteration_by_external_id (external_id : string) : M (option Remote) :=
  l ← list_iterations;
  mret (List.find (ext_matches external_id) l).

Definition create_iteration (js : payload) : M Remote :=
  r ← _req "POST" "/iterations" (Some js) 5;
  die_unless_created r "create iteration";;
  json_obj r.

Definition update_iteration (iid : Z) (patch : payload) : M Remote :=
  r ← _req "PUT" ("/iterations/" +:+ pretty iid) (Some patch) 5;
  die_unless_200 r "update iteration";;
  json_obj r.

(** The dict literal of [upsert_iteration], then the comprehension
    [{k:v for k,v in payload.items() if v}]. *)
Definition iteration_json (i : Iteration) : payload :=
  filter (λ kv, truthy kv.2 = true)
    [("name", JStr (i_name i));
     ("start_date", opt_json (i_start_date i));
     ("end_date", opt_json (i_end_date i));
     ("external_id", JStr (i_external_id i))].

Definition upsert_iteration (i : Iteration) : M Remote :=
  found ← find_iteration_by_external_id (i_external_id i);
  let js := iteration_json i in
  match found with
  | Some found => update_iteration (r_id found) js
  | None => create_iteration js
  end.

Definition list_stories : M (list Remote) :=
  r ← _req "GET" "/stories" None 5;
  die_unless_200 r "list stories";;
  json_list r.

Definition find_story_by_external_id (external_id : string) : M (option Remote) :=
  l ← list_stories;
  mret (List.find (ext_matches external_id) l).

Definition create_story (js : payload) : M Remote :=
  r ← _req "POST" "/stories" (Some js) 5;
  die_unless_created r "create story";;
  json_obj r.

Definition update_story (story_id : Z) (patch : payload) : M Remote :=
  r ← _req "PUT" ("/stories/" +:+ pretty story_id) (Some patch) 5;
  die_unless_200 r "update story";;
  json_obj r.

(** The dict [story_payload] of [bootstrap]; the key ["iteration_id"] is
    set only when there is an iteration. *)
Record StoryPayload := {
  sp_name : string;
  sp_description : string;
  sp_story_type : string;
  sp_project_id : Z;
  sp_epic_id : Z;
  sp_estimate : Z;
  sp_labels : list json;
  sp_external_id : string;
  sp_iteration_id : option Z }.

Definition story_json (s : StoryPayload) : payload :=
  [("name", JStr (sp_name s));
   ("description", JStr (sp_description s));
   ("story_type", JStr (sp_story_type s));
   ("project_id", JInt (sp_project_id s));
   ("epic_id", JInt (sp_epic_id s));
   ("estimate", JInt (sp_estimate s));
   ("labels", JList (sp_labels s));
   ("external_id", JStr (sp_external_id s))]
  ++ match sp_iteration_id s with
     | Some i => [("iteration_id", JInt i)]
     | None => []
     end.

Definition upsert_story (s : StoryPayload) : M Remote :=
  found ← find_story_by_external_id (sp_external_id s);
  match found with
  | Some found => update_story (r_id found) (story_json s)
  | None => create_story (story_json s)
  end.

Definition create_task (js : payload) : M Remote :=
  r ← _req "POST" "/tasks" (Some js) 5;
  die_unless_created r "create task";;
  json_obj r.

(** ** Bootstrap orchestration *)

(** The placeholder [{"id": 0}] of a dry run. *)
Definition dry_placeholder : Remote :=
  {| r_id := 0; r_name := None; r_external_id := None |}.

(** [str(v)] of a value that is a string or [None]. *)
Definition str_of (o : option string) : string := default "None" o.

(** Body of the [# Projects] loop. *)
Definition project_body (dry_run : bool) (p : Project)
    (name_to_project : gmap string Remote) : M (gmap string Remote) :=
  if dry_run then
    print ("[dry-run] upsert project: " +:+ p_name p +:+ " (" +:+
           p_external_id p +:+ ")");;
    mret (<[p_name p := dry_placeholder]> name_to_project)
  else
    proj ← upsert_project p;
    let name_to_project := <[p_name p := proj]> name_to_project in
    nm ← getitem_name proj;
    print ("[ok] project: " +:+ nm +:+ " id=" +:+ pretty (r_id proj));;
    mret name_to_project.

(** [cfg["milestone"]]. *)
Definition getitem_milestone (cfg : Config) : M Milestone :=
  match milestone cfg with
  | Some m => mret m
  | None => raise (KeyError "milestone")
  end.

(** The [# Milestone] block. *)
Definition milestone_stage (dry_run : bool) (ms_cfg : Milestone) : M Remote :=
  if dry_run then
    print ("[dry-run] upsert milestone: " +:+ m_name ms_cfg);;
    mret dry_placeholder
  else
    milestone ← upsert_milestone ms_cfg;
    nm ← getitem_name milestone;
    print ("[ok] milestone: " +:+ nm +:+ " id=" +:+ pretty (r_id milestone));;
    mret milestone.

(** Body of the [# Epics] loop. *)
Definition epic_body (dry_run : bool) (milestone : Remote) (e : Epic)
    (name_to_epic : gmap string Remote) : M (gmap string Remote) :=
  ep ← (if dry_run then
          print ("[dry-run] upsert epic: " +:+ e_name e);;
          mret dry_placeholder
        else
          ep ← upsert_epic e (r_id milestone);
          nm ← getitem_name ep;
          print ("[ok] epic: " +:+ nm +:+ " id=" +:+ pretty (r_id ep));;
          mret ep);
  mret (<[e_name e := ep]> name_to_epic).

(** The dates and the dict [it_payload] of the [# Iteration] block. *)
Definition iteration_payload (cfg : Config) (it_cfg : Iteration) : M Iteration :=
  let start := i_start_date it_cfg in
  let end_ := i_end_date it_cfg in
  dates ← (if negb (opt_truthy start) || negb (opt_truthy end_) then
             let tzname := default "UTC" (timezone (org cfg)) in
             let days := default 7%Z (iteration_length_days (org cfg)) in
             computed ← _iso_week_dates tzname days;
             mret (Some computed.1, Some computed.2)
           else mret (start, end_));
  mret {| i_name := i_name it_cfg;
          i_start_date := dates.1;
          i_end_date := dates.2;
          i_external_id := i_external_id it_cfg |}.

(** The [# Iteration] block. *)
Definition iteration_stage (cfg : Config) (dry_run : bool) : M (option Remote) :=
  match iteration cfg with
  | Some it_cfg =>
      it_payload ← iteration_payload cfg it_cfg;
      if dry_run then
        print ("[dry-run] upsert iteration: " +:+ i_name it_payload +:+ " " +:+
               str_of (i_start_date it_payload) +:+ ".." +:+
               str_of (i_end_date it_payload));;
        mret (Some dry_placeholder)
      else
        iteration ← upsert_iteration it_payload;
        nm ← getitem_name iteration;
        print ("[ok] iteration: " +:+ nm +:+ " id=" +:+ pretty (r_id iteration));;
        mret (Some iteration)
  | None => mret None
  end.

Definition task_external_id (story_external_id : string) (idx : Z) : string :=
  "beeai:task:" +:+ story_external_id +:+ ":" +:+ pretty idx.

(** The dict [task_payload]. *)
Definition task_payload (s : Story) (story : Remote) (idx : Z) (t : string)
    : payload :=
  [("description", JStr t);
   ("story_id", JInt (r_id story));
   ("external_id", JStr (task_external_id (s_external_id s) idx))].

(** Body of the [# Tasks] loop. *)
Definition task_body (dry_run : bool) (s : Story) (story : Remote)
    (it : Z * string) : M unit :=
  let idx := it.1 in
  let t := it.2 in
  let js := task_payload s story idx t in
  if dry_run then
    print ("[dry-run]   task: " +:+ t)
  else
    task ← create_task js;
    print ("[ok]   task id=" +:+ pretty (r_id task) +:+ " - " +:+ t).

(** The dict [story_payload]. *)
Definition story_payload (s : Story) (proj epic : Remote)
    (iteration : option Remote) : StoryPayload :=
  {| sp_name := s_name s;
     sp_description := default "" (s_description s);
     sp_story_type := default "feature" (s_story_type s);
     sp_project_id := r_id proj;
     sp_epic_id := r_id epic;
     sp_estimate := default 1%Z (s_estimate s);
     sp_labels := default [] (s_labels s);
     sp_external_id := s_external_id s;
     sp_iteration_id := r_id <$> iteration |}.

(** Body of the [# Stories + Tasks] loop. *)
Definition story_body (dry_run : bool)
    (name_to_project name_to_epic : gmap string Remote)
    (iteration : option Remote) (s : Story) : M unit :=
  match name_to_project !! s_project s, name_to_epic !! s_epic s with
  | Some proj, Some epic =>
      let sp := story_payload s proj epic iteration in
      story ← (if dry_run then
                 print ("[dry-run] upsert story: " +:+ s_name s +:+ " (proj '" +:+
                        s_project s +:+ "', epic '" +:+ s_epic s +:+ "')");;
                 mret dry_placeholder
               else
                 story ← upsert_story sp;
                 nm ← getitem_name story;
                 print ("[ok] story: " +:+ nm +:+ " id=" +:+ pretty (r_id story));;
                 mret story);
      for_each (enumerate 1 (s_tasks s)) (task_body dry_run s story)
  | _, _ =>
      eprint (ErrMissing (s_name s));;
      sys_exit 2
  end.

Definition bootstrap (cfg : Config) (dry_run : bool) : M unit :=
  name_to_project ← for_fold (projects cfg) (project_body dry_run) ∅;
  ms_cfg ← getitem_milestone cfg;
  milestone ← milestone_stage dry_run ms_cfg;
  name_to_epic ← for_fold (epics cfg) (epic_body dry_run milestone) ∅;
  iteration ← iteration_stage cfg dry_run;
  for_each (stories cfg)
    (story_body dry_run name_to_project name_to_epic iteration).

(** The [command] argument, one of the two [choices] of the parser. *)
Inductive Command : Type := CmdBootstrap | CmdDryRun.

(** [main], after the arguments are parsed and the configuration file is
    loaded into [cfg]. *)
Definition main (command : Command) (cfg : Config) : M unit :=
  match command with
  | CmdDryRun => bootstrap cfg true
  | CmdBootstrap => bootstrap cfg false
  end.

(** ** What a run leaves in the log *)

(** The request that [_req] sends in world [w]. *)
Definition request_of (w : World) (method path : string) (js : option payload)
    : Request :=
  {| rq_method := method;
     rq_url := API_BASE w +:+ path;
     rq_headers := [("Shortcut-Token", default "" (environ w !! "SHORTCUT_TOKEN"));
                    ("Content-Type", "application/json")];
     rq_json := js;
     rq_timeout := 30 |}.

(** The service answers the next [length rs] sendings of [rq] with [rs]. *)
Fixpoint answers (svc : list (Request * Response) → Request → Response)
    (hist : list (Request * Response)) (rq : Request) (rs : list Response) : Prop :=
  match rs with
  | [] => True
  | r :: rs' => svc hist rq = r ∧ answers svc (hist ++ [(rq, r)]) rq rs'
  end.

Definition token_set (w : World) : Prop :=
  ∃ t, environ w !! "SHORTCUT_TOKEN" = Some t ∧ str_truthy t = true.

(** The parts of the world the program only reads. *)
Definition frame (w w' : World) : Prop :=
  environ w' = environ w ∧ API_BASE w' = API_BASE w ∧
  service w' = service w ∧ clock w' = clock w.

(** An exchange that created a task: a [POST] to [/tasks] answered 200
    or 201. *)
Definition task_created (base : string) (x : Request * Response) : bool :=
  bool_decide (rq_method x.1 = "POST") &&
  bool_decide (rq_url x.1 = base +:+ "/tasks") &&
  bool_decide (status_code x.2 ∈ [200; 201]%Z).

(** The bodies of the task creations in a log, oldest first. *)
Definition created_tasks (base : string) (log : list (Request * Response))
    : list (option payload) :=
  (λ x, rq_json x.1) <$> List.filter (task_created base) log.

(** The task payloads of one story, in list order. *)
Definition story_task_payloads (s : Story) (story : Remote) : list (option payload) :=
  (λ it, Some (task_payload s story it.1 it.2)) <$> enumerate 1 (s_tasks s).

(** The lines of a dry run, in the order of the stages. *)
Definition dry_project_line (p : Project) : string :=
  "[dry-run] upsert project: " +:+ p_name p +:+ " (" +:+ p_external_id p +:+ ")".
Definition dry_milestone_line (m : Milestone) : string :=
  "[dry-run] upsert milestone: " +:+ m_name m.
Definition dry_epic_line (e : Epic) : string :=
  "[dry-run] upsert epic: " +:+ e_name e.
Definition dry_iteration_line (i : Iteration) : string :=
  "[dry-run] upsert iteration: " +:+ i_name i +:+ " " +:+
  str_of (i_start_date i) +:+ ".." +:+ str_of (i_end_date i).
Definition dry_story_line (s : Story) : string :=
  "[dry-run] upsert story: " +:+ s_name s +:+ " (proj '" +:+ s_project s +:+
  "', epic '" +:+ s_epic s +:+ "')".
Definition dry_task_line (t : string) : string :=
  "[dry-run]   task: " +:+ t.

Definition dry_story_lines (s : Story) : list string :=
  dry_story_line s :: (dry_task_line <$> s_tasks s).

(** Every story names a configured project and a configured epic. *)
Definition stories_resolve (cfg : Config) : Prop :=
  ∀ s, s ∈ stories cfg →
    s_project s ∈ (p_name <$> projects cfg) ∧ s_epic s ∈ (e_name <$> epics cfg).

(** [m] takes every world to one related to it by [R], and when it ends
    the process it does so with exit code 2. *)
Definition preserves {A} (R : World → World → Prop) (m : M A) : Prop :=
  ∀ w, R w (m w).2 ∧ ∀ c, (m w).1 = Exit c → c = 2%Z.

(** Nothing was sent, slept or read from the environment. *)
Definition silent (w w' : World) : Prop :=
  frame w w' ∧ exchanges w' = exchanges w ∧ slept w' = slept w ∧
  env_reads w' = env_reads w.

(** The log grew by exchanges that all satisfy [Q]. *)
Definition grows (Q : string → Request → Prop) (w w' : World) : Prop :=
  frame w w' ∧
  ∃ new, exchanges w' = exchanges w ++ new ∧ Forall (λ x, Q (API_BASE w) x.1) new.

(** The calls of the upsert helpers: list and create on the five
    collections, update on four of them. *)
Definition collections : list string :=
  ["/projects"; "/milestones"; "/epics"; "/iterations"; "/stories"].

Definition updatable : list string :=
  ["/milestones/"; "/epics/"; "/iterations/"; "/stories/"].

Definition upsert_call (base : string) (rq : Request) : Prop :=
  (∃ path, path ∈ collections ∧ rq_url rq = base +:+ path ∧
           (rq_method rq = "GET" ∨ rq_method rq = "POST")) ∨
  (∃ prefix (n : Z), prefix ∈ updatable ∧
                     rq_url rq = base +:+ (prefix +:+ pretty n) ∧
                     rq_method rq = "PUT").

(** The one call on tasks. *)
Definition task_call (base : string) (rq : Request) : Prop :=
  rq_method rq = "POST" ∧ rq_url rq = base +:+ "/tasks".

Definition bootstrap_call (base : string) (rq : Request) : Prop :=
  upsert_call base rq ∨ task_call base rq.

(** The dates of the iteration as [bootstrap] settles them in world [w]:
    the configured pair when both are truthy, else the Monday of the
    current week and the day [iteration_length_days - 1] days later. *)
Definition week_monday (w : World) (cfg : Config) : Z :=
  let now := clock w (default "UTC" (timezone (org cfg))) in
  (now - weekday now)%Z.

Definition week_end (w : World) (cfg : Config) : Z :=
  (week_monday w cfg + (default 7 (iteration_length_days (org cfg)) - 1))%Z.

Definition settled_iteration (w : World) (cfg : Config) (it_cfg : Iteration)
    : Iteration :=
  if opt_truthy (i_start_date it_cfg) && opt_truthy (i_end_date it_cfg)
  then {| i_name := i_name it_cfg;
          i_start_date := i_start_date it_cfg;
          i_end_date := i_end_date it_cfg;
          i_external_id := i_external_id it_cfg |}
  else {| i_name := i_name it_cfg;
          i_start_date := Some (isoformat (week_monday w cfg));
          i_end_date := Some (isoformat (week_end w cfg));
          i_external_id := i_external_id it_cfg |}.

(** All the lines of a dry run of [cfg] in world [w]. *)
Definition dry_lines (w : World) (cfg : Config) (m : Milestone) : list string :=
  (dry_project_line <$> projects cfg) ++
  [dry_milestone_line m] ++
  (dry_epic_line <$> epics cfg) ++
  match iteration cfg with
  | Some it_cfg => [dry_iteration_line (settled_iteration w cfg it_cfg)]
  | None => []
  end ++
  concat (dry_story_lines <$> stories cfg).

(** The maps of a dry run. *)
Definition dry_projects (ps : list Project) (m : gmap string Remote)
    : gmap string Remote :=
  foldl (λ m p, <[p_name p := dry_placeholder]> m) m ps.

Definition dry_epics (es : list Epic) (m : gmap string Remote)
    : gmap string Remote :=
  foldl (λ m e, <[e_name e := dry_placeholder]> m) m es.

(** The world after printing [lines] and nothing else. *)
Definition printed (lines : list string) (w w' : World) : Prop :=
  silent w w' ∧ stderr w' = stderr w ∧ stdout w' = stdout w ++ lines.

(** The log grew by calls of [bootstrap], and the tasks created on the
    way carry the bodies [made], in this order. *)
Definition task_log (made : list (option payload)) (w w' : World) : Prop :=
  frame w w' ∧
  ∃ new, exchanges w' = exchanges w ++ new ∧
    Forall (λ x, bootstrap_call (API_BASE w) x.1) new ∧
    created_tasks (API_BASE w) new = made.

(** The tasks of all stories, each story with the record its upsert
    returned. *)
Definition all_task_payloads (ss : list Story) (recs : list Remote)
    : list (option payload) :=
  concat (zip_with story_task_payloads ss recs).

(** The configuration with its list of stories replaced. *)
Definition with_stories (ss : list Story) (cfg : Config) : Config :=
  {| org := org cfg; projects := projects cfg; milestone := milestone cfg;
     epics := epics cfg; iteration := iteration cfg; stories := ss |}.

(** What the four [update_*] helpers have in common. *)
Definition update_call (path context : string) (patch : payload) : M Remote :=
  r ← _req "PUT" path (Some patch) 5;
  die_unless_200 r context;;
  json_obj r.

(** [res] is the result of an update sent from world [w1]: one [PUT] of
    [js] to [path], sent again after each retryable response, and the
    record of the last response when its status is 200, exit code 2 when
    it is not. *)
Definition updated (path : string) (js : payload) (w1 : World)
    (res : outcome Remote * World) : Prop :=
  let rq := request_of w1 "PUT" path (Some js) in
  ∃ pre last,
    exchanges res.2 = exchanges w1 ++ (pair rq <$> (pre ++ [last])) ∧
    Forall (λ x, retryable (status_code x) = true) pre ∧
    res.1 = if bool_decide (status_code last = 200%Z)
            then match body last with
                 | BObj r => Ok r
                 | _ => Raise TypeError
                 end
            else Exit 2.

(** ** A stand-in service and sample documents

    [Fake.store] keeps what was posted: a [GET] lists the records
    created under that URL, a [POST] creates a record with a fresh id, a
    [PUT] answers with the record as sent. *)
Module Fake.

Definition str_field (k : string) (js : option payload) : option string :=
  match js with
  | Some d =>
      match List.find (λ kv, bool_decide (kv.1 = k)) d with
      | Some (_, JStr s) => Some s
      | _ => None
      end
  | None => None
  end.

Definition posted (url : string) (x : Request * Response) : list Remote :=
  if bool_decide (rq_method x.1 = "POST") && bool_decide (rq_url x.1 = url)
  then match body x.2 with BObj r => [r] | _ => [] end
  else [].

Definition all_posted (hist : list (Request * Response)) : list Remote :=
  hist ≫= λ x, match rq_method x.1, body x.2 with
               | "POST", BObj r => [r]
               | _, _ => []
               end.

Definition store (hist : list (Request * Response)) (rq : Request) : Response :=
  let ext := str_field "external_id" (rq_json rq) in
  let nm := str_field "name" (rq_json rq) in
  match rq_method rq with
  | "GET" => {| status_code := 200; body := BList (hist ≫= posted (rq_url rq)) |}
  | "POST" =>
      {| status_code := 201;
         body := BObj {| r_id := Z.of_nat (length hist) + 1;
                         r_name := nm; r_external_id := ext |} |}
  | "PUT" =>
      let known := List.find (λ r, bool_decide (r_external_id r = ext)) (all_posted hist) in
      {| status_code := 200;
         body := BObj {| r_id := default 0%Z (r_id <$> known);
                         r_name := nm; r_external_id := ext |} |}
  | _ => {| status_code := 405; body := BText "method not allowed" |}
  end.

(** Answers from a script, one response per request, then 404. *)
Definition scripted (script : list Response)
    (hist : list (Request * Response)) (rq : Request) : Response :=
  default {| status_code := 404; body := BText "" |} (script !! length hist).

(** Wednesday 2024-01-03 in every timezone. *)
Definition wednesday : Z := 738888.

Definition world (env : gmap string string)
    (svc : list (Request * Response) → Request → Response) : World :=
  {| environ := env;
     API_BASE := "https://api.app.shortcut.com/api/v3";
     service := svc;
     clock := λ _, wednesday;
     exchanges := []; slept := []; stdout := []; stderr := [];
     env_reads := [] |}.

Definition token_env : gmap string string := {[ "SHORTCUT_TOKEN" := "secret" ]}.

Definition busy : Response := {| status_code := 503; body := BText "busy" |}.
Definition listing : Response := {| status_code := 200; body := BList [] |}.

(** A service that is unavailable twice and then answers. *)
Definition w_flaky : World := world token_env (scripted [busy; busy; listing]).

Definition w0 : World := world token_env store.
Definition w_no_token : World := world ∅ store.

Definition project1 : Project :=
  {| p_name := "Platform"; p_description := Some "Core platform";
     p_external_id := "beeai:project:platform" |}.

Definition milestone1 : Milestone :=
  {| m_name := "MVP"; m_description := None; m_state := Some "in progress";
     m_external_id := "beeai:milestone:mvp" |}.

Definition epic1 : Epic :=
  {| e_name := "Agents"; e_description := None; e_labels := None;
     e_external_id := "beeai:epic:agents" |}.

Definition iteration1 : Iteration :=
  {| i_name := "Sprint 1"; i_start_date := None; i_end_date := None;
     i_external_id := "beeai:iteration:1" |}.

Definition story1 : Story :=
  {| s_name := "Scaffold"; s_description := None; s_story_type := None;
     s_project := "Platform"; s_epic := "Agents"; s_estimate := Some 3%Z;
     s_labels := None; s_external_id := "story-1";
     s_tasks := ["write code"; "write tests"] |}.

Definition story2 : Story :=
  {| s_name := "Deploy"; s_description := None; s_story_type := Some "chore";
     s_project := "Platform"; s_epic := "Agents"; s_estimate := None;
     s_labels := None; s_external_id := "story-2";
     s_tasks := ["ship"] |}.

(** A story whose project is not configured. *)
Definition stray : Story :=
  {| s_name := "Stray"; s_description := None; s_story_type := None;
     s_project := "Nowhere"; s_epic := "Agents"; s_estimate := None;
     s_labels := None; s_external_id := "story-3"; s_tasks := ["lost"] |}.

Definition org1 : Org := {| timezone := Some "UTC"; iteration_length_days := Some 7%Z |}.

Definition cfg1 : Config :=
  {| org := org1; projects := [project1]; milestone := Some milestone1;
     epics := [epic1]; iteration := Some iteration1;
     stories := [story1; story2] |}.

Definition cfg_no_milestone : Config :=
  {| org := org1; projects := [project1]; milestone := None;
     epics := [epic1]; iteration := Some iteration1;
     stories := [story1; story2] |}.

Definition cfg_stray : Config :=
  {| org := org1; projects := [project1]; milestone := Some milestone1;
     epics := [epic1]; iteration := Some iteration1;
     stories := [story1; stray; story2] |}.

(** [project1] and [iteration1] with other fields under the same
    external ids. *)
Definition project1_renamed : Project :=
  {| p_name := "Platform v2"; p_description := Some "Renamed";
     p_external_id := "beeai:project:platform" |}.

Definition iteration_half : Iteration :=
  {| i_name := "Sprint 1"; i_start_date := Some "2030-05-05"; i_end_date := None;
     i_external_id := "beeai:iteration:1" |}.

Definition cfg_half : Config :=
  {| org := org1; projects := [project1]; milestone := Some milestone1;
     epics := [epic1]; iteration := Some iteration_half;
     stories := [story1; story2] |}.

Definition milestone1_done : Milestone :=
  {| m_name := "MVP"; m_description := Some "shipped"; m_state := Some "done";
     m_external_id := "beeai:milestone:mvp" |}.

(** The worlds after one and after two real runs of [cfg1]. *)
Definition w1 : World := (bootstrap cfg1 false w0).2.
Definition w2 : World := (bootstrap cfg1 false w1).2.

End Fake.

(** ** Vocabulary for the further properties *)

(** The dict literal inside [upsert_project]. *)
Definition project_payload (p : Project) : payload :=
  [("name", JStr (p_name p));
   ("description", JStr (default "" (p_description p)));
   ("external_id", JStr (p_external_id p))].

(** Shapes of a call: the listing of a collection, a creation in it, an
    update of one of its records by numeric id. *)
Definition lists (coll : string) (method path : string) (js : option payload)
    : Prop :=
  method = "GET" ∧ path = coll ∧ js = None.

Definition creates (coll : string) (body : payload)
    (method path : string) (js : option payload) : Prop :=
  method = "POST" ∧ path = coll ∧ js = Some body.

Definition updates (coll : string) (body : payload)
    (method path : string) (js : option payload) : Prop :=
  method = "PUT" ∧ js = Some body ∧ ∃ n : Z, path = coll +:+ "/" +:+ pretty n.

Definition upserts (coll : string) (body : payload)
    (method path : string) (js : option payload) : Prop :=
  lists coll method path js ∨ creates coll body method path js ∨
  updates coll body method path js.

(** Every exchange of [new] is a request that [_req] builds in world [w]
    (so with the token header, the JSON content type and the timeout of
    30 seconds) for an allowed method, path and body. *)
Definition sent (w : World) (allowed : string → string → option payload → Prop)
    (new : list (Request * Response)) : Prop :=
  Forall (λ x, ∃ method path js,
               x.1 = request_of w method path js ∧ allowed method path js) new.

(** Nothing sent, slept, read or printed to standard output. *)
Definition still (w w' : World) : Prop :=
  silent w w' ∧ stdout w' = stdout w.

(** Only allowed calls were made, and nothing was printed to standard
    output. *)
Definition calls (allowed : string → string → option payload → Prop)
    (w w' : World) : Prop :=
  frame w w' ∧ stdout w' = stdout w ∧
  ∃ new, exchanges w' = exchanges w ++ new ∧ sent w allowed new.

(** [res] is the result of a creation sent from world [w1]: one [POST]
    of [js] to [path], sent again after each retryable response, and the
    record of the last response when its status is 200 or 201, exit code
    2 when it is not. *)
Definition created (path : string) (js : payload) (w1 : World)
    (res : outcome Remote * World) : Prop :=
  let rq := request_of w1 "POST" path (Some js) in
  ∃ pre last,
    exchanges res.2 = exchanges w1 ++ (pair rq <$> (pre ++ [last])) ∧
    Forall (λ x, retryable (status_code x) = true) pre ∧
    res.1 = if bool_decide (status_code last ∈ [200; 201]%Z)
            then match body last with
                 | BObj r => Ok r
                 | _ => Raise TypeError
                 end
            else Exit 2.

(** [o] is what a scan of [l] for the external id [ext] returns: the
    first record that carries it, or nothing when no record does. *)
Definition first_match (ext : string) (l : list Remote) (o : option Remote)
    : Prop :=
  match o with
  | Some found =>
      ∃ before after, l = before ++ found :: after ∧
        r_external_id found = Some ext ∧
        Forall (λ r, r_external_id r ≠ Some ext) before
  | None => Forall (λ r, r_external_id r ≠ Some ext) l
  end.

(** The sum of a list of durations. *)
Definition total (l : list Z) : Z := foldr Z.add 0%Z l.

(** The calls of each stage of a real run of [cfg]. *)
Definition projects_calls (cfg : Config)
    (method path : string) (js : option payload) : Prop :=
  lists "/projects" method path js ∨
  ∃ p, p ∈ projects cfg ∧ creates "/projects" (project_payload p) method path js.

Definition milestone_calls (cfg : Config)
    (method path : string) (js : option payload) : Prop :=
  ∃ m, milestone cfg = Some m ∧ upserts "/milestones" (milestone_payload m) method path js.

Definition epics_calls (cfg : Config) (milestone_id : Z)
    (method path : string) (js : option payload) : Prop :=
  ∃ e, e ∈ epics cfg ∧ upserts "/epics" (epic_payload e milestone_id) method path js.

Definition iteration_calls (w : World) (cfg : Config)
    (method path : string) (js : option payload) : Prop :=
  ∃ it_cfg, iteration cfg = Some it_cfg ∧
    upserts "/iterations" (iteration_json (settled_iteration w cfg it_cfg))
      method path js.

Definition stories_calls (cfg : Config) (iteration : option Remote)
    (method path : string) (js : option payload) : Prop :=
  ∃ s, s ∈ stories cfg ∧
    ((∃ proj epic,
        upserts "/stories" (story_json (story_payload s proj epic iteration))
          method path js) ∨
     (∃ story idx t, (idx, t) ∈ enumerate 1 (s_tasks s) ∧
        creates "/tasks" (task_payload s story idx t) method path js)).

(** A line of a real run. *)
Definition ok_line (line : string) : Prop := ∃ rest, line = "[ok] " +:+ rest.

(** The number of entities and tasks of a configuration. *)
Definition entity_count (cfg : Config) : nat :=
  (length (projects cfg) + 1 + length (epics cfg) +
   match iteration cfg with Some _ => 1 | None => 0 end +
   length (stories cfg) + sum_list (length ∘ s_tasks <$> stories cfg))%nat.

(** A story names a configured project and a configured epic. *)
Definition story_resolves (cfg : Config) (s : Story) : Prop :=
  s_project s ∈ (p_name <$> projects cfg) ∧ s_epic s ∈ (e_name <$> epics cfg).

(** Only allowed calls were made (the stages of a run also print). *)
Definition talks (allowed : string → string → option payload → Prop)
    (w w' : World) : Prop :=
  frame w w' ∧ ∃ new, exchanges w' = exchanges w ++ new ∧ sent w allowed new.

(** Standard output grew by [n] lines of a real run. *)
Definition printed_ok (n : nat) (w w' : World) : Prop :=
  ∃ lines, stdout w' = stdout w ++ lines ∧ length lines = n ∧ Forall ok_line lines.

(** What a lookup returns once its listing was answered by [r] in world
    [w1]. *)
Definition lookup_result (context ext : string) (r : Response) (w1 : World)
    (res : outcome (option Remote) * World) : Prop :=
  if bool_decide (status_code r = 200%Z)
  then match body r with
       | BList l => ∃ o, res = (Ok o, w1) ∧ first_match ext l o
       | _ => res = (Raise TypeError, w1)
       end
  else res = (Exit 2, with_stderr (ErrDuring context r) w1).

(** The calls of the story stage when the name maps are [n2p] and [n2e]
    and the iteration record is [it]: the upsert of a configured story
    with the ids of the records that the maps hold under the names of
    its project and of its epic, and the creation of one of its tasks. *)
Definition linked_story_calls (cfg : Config) (n2p n2e : gmap string Remote)
    (it : option Remote) (method path : string) (js : option payload) : Prop :=
  ∃ s, s ∈ stories cfg ∧
    ((∃ proj epic,
        n2p !! s_project s = Some proj ∧ n2e !! s_epic s = Some epic ∧
        upserts "/stories" (story_json (story_payload s proj epic it))
          method path js) ∨
     (∃ story idx t, creates "/tasks" (task_payload s story idx t) method path js)).

(** [m] prints to the error stream only on its way out: one line, then
    the exit; a run that returns or raises has printed nothing there. *)
Definition explains {A} (m : M A) : Prop :=
  ∀ w, match (m w).1 with
       | Exit _ => ∃ line, stderr (m w).2 = stderr w ++ [line]
       | _ => stderr (m w).2 = stderr w
       end.

(** The number of API calls ([_req]) a real run of [cfg] can make: a
    listing and a creation or an update for every project, the
    milestone, every epic, the iteration and every story, and a creation
    for every task. *)
Definition call_budget (cfg : Config) : nat :=
  (2 * (length (projects cfg) + 1 + length (epics cfg) +
        match iteration cfg with Some _ => 1 | None => 0 end +
        length (stories cfg)) +
   sum_list (length ∘ s_tasks <$> stories cfg))%nat.

(** [m] makes at most [n] API calls, each of at most five requests and
    15.5 seconds of sleep. *)
Definition costs {A} (n : nat) (m : M A) : Prop :=
  ∀ w, (length (exchanges (m w).2) ≤ length (exchanges w) + 5 * n)%nat ∧
       (total (slept (m w).2) ≤ total (slept w) + 15500 * Z.of_nat n)%Z.

Module Sample.

(** A document without an iteration. *)
Definition cfg_plain : Config :=
  {| org := Fake.org1; projects := [Fake.project1];
     milestone := Some Fake.milestone1; epics := [Fake.epic1];
     iteration := None; stories := [Fake.story1] |}.

(** A second project of the same name as [Fake.project1]. *)
Definition project_twin : Project :=
  {| p_name := "Platform"; p_description := None;
     p_external_id := "beeai:project:platform-2" |}.

Definition cfg_twins : Config :=
  {| org := Fake.org1; projects := [Fake.project1; project_twin];
     milestone := Some Fake.milestone1; epics := [Fake.epic1];
     iteration := None; stories := [Fake.story1] |}.

End Sample.

(** * Verification *)

(** ** Running the monad *)

Lemma bind_run {A B} (m : M A) (f : A → M B) (w : World) :
  (m ≫= f) w =
  match m w with
  | (Ok a, w') => f a w'
  | (Exit c, w') => (Exit c, w')
  | (Raise e, w') => (Raise e, w')
  end.
Proof. reflexivity. Qed.


Lemma bind_ok_inv {A B} (m : M A) (f : A → M B) w b w2 :
  (m ≫= f) w = (Ok b, w2) → ∃ a w1, m w = (Ok a, w1) ∧ f a w1 = (Ok b, w2).
Proof.
  rewrite bind_run. destruct (m w) as [[a|c|e] w1]; intros H; try discriminate.
  eauto.
Qed.

Lemma for_fold_app {A S} (l1 l2 : list A) (body : A → S → M S) (s : S) w :
  for_fold (l1 ++ l2) body s w =
  (s' ← for_fold l1 body s; for_fold l2 body s') w.
Proof.
  revert s w. induction l1 as [|x l1 IH]; intros s w; simpl.
  - reflexivity.
  - rewrite !bind_run. destruct (body x s w) as [[s1|c|e] w1]; [|done..].
    rewrite IH. reflexivity.
Qed.

Lemma for_each_app {A} (l1 l2 : list A) (body : A → M unit) w :
  for_each (l1 ++ l2) body w = (for_each l1 body;; for_each l2 body) w.
Proof.
  unfold for_each. rewrite for_fold_app, !bind_run.
  by destruct (for_fold l1 _ tt w) as [[[]|c|e] w1].
Qed.

(** ** The read-only part of the world *)

Lemma frame_refl w : frame w w.
Proof. by unfold frame. Qed.

Lemma frame_trans w1 w2 w3 : frame w1 w2 → frame w2 w3 → frame w1 w3.
Proof. unfold frame. intros (?&?&?&?) (?&?&?&?). repeat split; congruence. Qed.

Lemma request_of_frame w w' method path js :
  frame w w' → request_of w' method path js = request_of w method path js.
Proof. intros (He&Hb&_&_). unfold request_of. by rewrite He, Hb. Qed.

Lemma token_set_frame w w' : frame w w' → token_set w → token_set w'.
Proof. intros (He&_) (t&?&?). exists t. by rewrite He. Qed.

(** ** [_hdrs] *)

Lemma hdrs_token w :
  token_set w →
  _hdrs w =
  (Ok [("Shortcut-Token", default "" (environ w !! "SHORTCUT_TOKEN"));
       ("Content-Type", "application/json")],
   with_env_read "SHORTCUT_TOKEN" w).
Proof.
  intros (t&Ht&Htr). unfold _hdrs, os_environ_get. rewrite bind_run. simpl.
  rewrite Ht. simpl. rewrite Htr. reflexivity.
Qed.

Lemma hdrs_no_token w :
  ¬ token_set w →
  _hdrs w =
  (Exit 2, with_stderr ErrTokenRequired (with_env_read "SHORTCUT_TOKEN" w)).
Proof.
  intros Hno. unfold _hdrs, os_environ_get. rewrite bind_run. simpl.
  destruct (environ w !! "SHORTCUT_TOKEN") as [t|] eqn:Ht; [|reflexivity].
  destruct (str_truthy t) eqn:Htr; [|reflexivity].
  exfalso. apply Hno. by exists t.
Qed.

Lemma token_set_dec w : token_set w ∨ ¬ token_set w.
Proof.
  unfold token_set.
  destruct (environ w !! "SHORTCUT_TOKEN") as [t|] eqn:Ht.
  - destruct (str_truthy t) eqn:Htr.
    + left. eauto.
    + right. intros (t'&[= <-]&?). congruence.
  - right. intros (t'&?&?). congruence.
Qed.

(** ** [_req] *)

(** One turn of the retry loop when the token is set. *)
Lemma req_loop_step method path js a rest resp w :
  token_set w →
  _req_loop method (API_BASE w +:+ path) js (a :: rest) resp w =
  let rq := request_of w method path js in
  let r := service w (exchanges w) rq in
  let w1 := with_exchange (rq, r) (with_env_read "SHORTCUT_TOKEN" w) in
  if retryable (status_code r)
  then _req_loop method (API_BASE w +:+ path) js rest (Some r)
         (with_sleep (backoff a) w1)
  else (Ok r, w1).
Proof.
  intros Htok. cbn [_req_loop]. rewrite bind_run, (hdrs_token w Htok).
  rewrite bind_run. unfold requests_request at 1. cbn -[_req_loop retryable backoff].
  fold (request_of w method path js).
  destruct (retryable _); reflexivity.
Qed.

Lemma req_loop_no_token method url js a rest resp w :
  ¬ token_set w →
  _req_loop method url js (a :: rest) resp w =
  (Exit 2, with_stderr ErrTokenRequired (with_env_read "SHORTCUT_TOKEN" w)).
Proof.
  intros Hno. cbn [_req_loop]. rewrite bind_run, (hdrs_no_token w Hno).
  reflexivity.
Qed.

Lemma token_set_step w x ms :
  token_set w →
  token_set (with_sleep ms (with_exchange x (with_env_read "SHORTCUT_TOKEN" w))).
Proof. intros (t&?&?). by exists t. Qed.


(** What any call of the retry loop does to the world: it only appends
    exchanges of the one request, and it ends in a response, in exit
    status 2 for want of a token, or (no attempt, no response) in an
    unbound [resp]. *)
Lemma req_loop_spec method path js attempts :
  ∀ resp w,
    let rq := request_of w method path js in
    let res := _req_loop method (API_BASE w +:+ path) js attempts resp w in
    frame w res.2 ∧ stdout res.2 = stdout w ∧
    ∃ rs, exchanges res.2 = exchanges w ++ (pair rq <$> rs) ∧
      match res.1 with
      | Ok r =>
          stderr res.2 = stderr w ∧
          ((rs = [] ∧ resp = Some r ∧ attempts = []) ∨
           (token_set w ∧
            ∃ pre, rs = pre ++ [r] ∧
                   Forall (λ x, retryable (status_code x) = true) pre))
      | Exit c =>
          c = 2%Z ∧ rs = [] ∧ ¬ token_set w ∧
          stderr res.2 = stderr w ++ [ErrTokenRequired]
      | Raise e => e = UnboundLocalError ∧ attempts = [] ∧ resp = None ∧ rs = []
      end.
Proof.
  induction attempts as [|a rest IH]; intros resp w rq res.
  - subst res. cbn [_req_loop].
    destruct resp as [r|]; cbn; (split; [apply frame_refl|]); (split; [done|]);
      exists []; rewrite app_nil_r; (split; [done|]); auto.
  - destruct (token_set_dec w) as [Htok|Hno].
    + subst res. rewrite (req_loop_step _ _ _ _ _ _ _ Htok). cbv zeta.
      fold rq. set (r := service w (exchanges w) rq).
      destruct (retryable (status_code r)) eqn:Hr.
      * set (w2 := with_sleep _ _).
        specialize (IH (Some r) w2).
        change (API_BASE w2) with (API_BASE w) in IH.
        change (request_of w2 method path js) with rq in IH.
        cbv zeta in IH.
        destruct (_req_loop method (API_BASE w +:+ path) js rest (Some r) w2)
          as [o w3].
        destruct IH as (Hf & Hout & rs & Hex & Ho). simpl in *.
        split; [exact Hf|]. split; [exact Hout|].
        exists (r :: rs). split.
        { rewrite Hex. simpl. by rewrite <- app_assoc. }
        destruct o as [r'|c|e].
        -- destruct Ho as (Herr & Ho). split; [exact Herr|]. right.
           split; [exact Htok|].
           destruct Ho as [(Hrs & Hsome & _)|(_ & pre & Hrs & Hpre)]; subst rs.
           ++ injection Hsome as <-. exists []. by split.
           ++ exists (r :: pre). split; [done|]. by constructor.
        -- destruct Ho as (_ & _ & Hno & _). exfalso. apply Hno.
           by apply token_set_step.
        -- destruct Ho as (_ & _ & ? & _). discriminate.
      * simpl. split; [by unfold frame|]. split; [done|].
        exists [r]. split; [done|]. split; [done|]. right.
        split; [exact Htok|]. exists []. by split.
    + subst res. rewrite (req_loop_no_token _ _ _ _ _ _ _ Hno). simpl.
      split; [by unfold frame|]. split; [done|].
      exists []. rewrite app_nil_r. by repeat split.
Qed.

Lemma req_unfold method path js w :
  _req method path js 5 w =
  _req_loop method (API_BASE w +:+ path) js [1; 2; 3; 4; 5]%Z None w.
Proof. reflexivity. Qed.

(** What any call of [_req] with the default [retry] does. *)
Lemma req_spec method path js w :
  let rq := request_of w method path js in
  let res := _req method path js 5 w in
  frame w res.2 ∧ stdout res.2 = stdout w ∧
  ∃ rs, exchanges res.2 = exchanges w ++ (pair rq <$> rs) ∧
    match res.1 with
    | Ok r =>
        stderr res.2 = stderr w ∧ token_set w ∧
        ∃ pre, rs = pre ++ [r] ∧
               Forall (λ x, retryable (status_code x) = true) pre
    | Exit c =>
        c = 2%Z ∧ rs = [] ∧ ¬ token_set w ∧
        stderr res.2 = stderr w ++ [ErrTokenRequired]
    | Raise e => False
    end.
Proof.
  intros rq res. subst res. rewrite req_unfold.
  pose proof (req_loop_spec method path js [1; 2; 3; 4; 5]%Z None w) as H.
  cbv zeta in H. fold rq in H.
  destruct (_req_loop _ _ _ _ _ w) as [o w']. simpl in *.
  destruct H as (Hf & Hout & rs & Hex & Ho).
  split; [done|]. split; [done|]. exists rs. split; [done|].
  destruct o as [r|c|e].
  - destruct Ho as (Herr & [(_ & ? & _)|(Htok & Hpre)]); [discriminate|done].
  - done.
  - destruct Ho as (_ & ? & _). discriminate.
Qed.

Lemma answers_app svc hist rq l1 l2 :
  answers svc hist rq (l1 ++ l2) ↔
  answers svc hist rq l1 ∧ answers svc (hist ++ (pair rq <$> l1)) rq l2.
Proof.
  revert hist. induction l1 as [|r l1 IH]; intros hist; simpl.
  - rewrite app_nil_r. tauto.
  - rewrite IH, <- app_assoc. simpl. tauto.
Qed.

(** The loop through a run of retryable responses. *)
Lemma req_loop_retry method path js :
  ∀ rs attempts resp w,
    let rq := request_of w method path js in
    token_set w →
    answers (service w) (exchanges w) rq rs →
    Forall (λ x, retryable (status_code x) = true) rs →
    (length rs ≤ length attempts)%nat →
    ∃ w', frame w w' ∧ token_set w' ∧
      exchanges w' = exchanges w ++ (pair rq <$> rs) ∧
      slept w' = slept w ++ (backoff <$> take (length rs) attempts) ∧
      stdout w' = stdout w ∧ stderr w' = stderr w ∧
      _req_loop method (API_BASE w +:+ path) js attempts resp w =
      _req_loop method (API_BASE w' +:+ path) js (drop (length rs) attempts)
        (from_option Some resp (last rs)) w'.
Proof.
  induction rs as [|r rs IH]; intros attempts resp w rq Htok Hans Hretry Hlen.
  - exists w. simpl. rewrite !app_nil_r. split; [apply frame_refl|]. done.
  - destruct attempts as [|a rest]; [simpl in Hlen; lia|].
    destruct Hans as [Hr Hans]. fold rq in Hr, Hans.
    apply Forall_cons in Hretry as [Hr1 Hretry].
    rewrite (req_loop_step _ _ _ _ _ _ _ Htok). cbv zeta. fold rq.
    rewrite Hr, Hr1.
    set (w2 := with_sleep _ _).
    destruct (IH rest (Some r) w2) as (w' & Hf & Htok' & Hex & Hsl & Hout & Herr & Hrun).
    + by apply token_set_step.
    + exact Hans.
    + exact Hretry.
    + simpl in Hlen. lia.
    + exists w'. split; [exact Hf|]. split; [exact Htok'|].
      split. { rewrite Hex. simpl. by rewrite <- app_assoc. }
      split. { rewrite Hsl. simpl. by rewrite <- app_assoc. }
      split; [exact Hout|]. split; [exact Herr|].
      change (API_BASE w2) with (API_BASE w) in Hrun. rewrite Hrun.
      simpl drop. f_equal. rewrite last_cons. by destruct (last rs).
Qed.


(** A run of fewer than five retryable responses and then another one. *)
Lemma req_retried_then method path js w pre r :
  let rq := request_of w method path js in
  token_set w →
  (length pre < 5)%nat →
  Forall (λ x, retryable (status_code x) = true) pre →
  retryable (status_code r) = false →
  answers (service w) (exchanges w) rq (pre ++ [r]) →
  ∃ w', _req method path js 5 w = (Ok r, w') ∧
    exchanges w' = exchanges w ++ (pair rq <$> (pre ++ [r])) ∧
    slept w' = slept w ++ (backoff <$> take (length pre) [1; 2; 3; 4; 5]%Z) ∧
    stdout w' = stdout w ∧ stderr w' = stderr w.
Proof.
  intros rq Htok Hlen Hpre Hr Hans.
  apply answers_app in Hans as [Hans1 Hans2].
  destruct (req_loop_retry method path js pre [1; 2; 3; 4; 5]%Z None w)
    as (w1 & Hf & Htok1 & Hex & Hsl & Hout & Herr & Hrun); try done.
  { simpl. lia. }
  fold rq in Hex, Hans1, Hans2.
  rewrite req_unfold, Hrun.
  destruct (drop (length pre) [1; 2; 3; 4; 5]%Z) as [|a rest] eqn:Hdrop.
  { apply (f_equal length) in Hdrop. rewrite length_drop in Hdrop.
    simpl in Hdrop. lia. }
  rewrite (req_loop_step _ _ _ _ _ _ _ Htok1). cbv zeta.
  rewrite (request_of_frame w w1 _ _ _ Hf). fold rq.
  destruct Hf as (_ & _ & Hsvc & _). rewrite Hsvc, Hex.
  simpl in Hans2. destruct Hans2 as [-> _]. rewrite Hr.
  eexists. split; [reflexivity|]. simpl.
  rewrite Hex, Hsl, Hout, Herr, fmap_app, <- app_assoc. done.
Qed.

(** Five retryable responses in a row. *)
Lemma req_exhausted method path js w rs r :
  let rq := request_of w method path js in
  token_set w →
  length rs = 5%nat →
  Forall (λ x, retryable (status_code x) = true) rs →
  last rs = Some r →
  answers (service w) (exchanges w) rq rs →
  ∃ w', _req method path js 5 w = (Ok r, w') ∧
    exchanges w' = exchanges w ++ (pair rq <$> rs) ∧
    slept w' = slept w ++ [500; 1000; 2000; 4000; 8000]%Z ∧
    stdout w' = stdout w ∧ stderr w' = stderr w.
Proof.
  intros rq Htok Hlen Hrs Hlast Hans.
  destruct (req_loop_retry method path js rs [1; 2; 3; 4; 5]%Z None w)
    as (w1 & Hf & Htok1 & Hex & Hsl & Hout & Herr & Hrun); try done.
  { simpl. lia. }
  rewrite req_unfold, Hrun, Hlen, Hlast. simpl.
  exists w1. rewrite Hlen in Hsl. done.
Qed.

(** ** The retry policy *)

(** C5: a single call of [_req] retries on the statuses 429, 500, 502,
    503 and 504, at most five attempts in all, sleeping
    min(2^(attempt-1) x 0.5 s, 8 s) after each retried attempt (0.5, 1, 2,
    4 and 8 seconds); a run of fewer than five such responses followed by
    any other response takes one attempt per response and returns the
    last; the responses 503, 503, 200 take exactly three attempts and
    return the third; five responses 500 return the fifth; a status
    outside the set is returned after one attempt, without sleeping. *)
Theorem req_retry_policy method path js w :
  token_set w →
  let rq := request_of w method path js in
  (∀ status, retryable status = true ↔ status ∈ [429; 500; 502; 503; 504]%Z) ∧
  backoff <$> [1; 2; 3; 4; 5]%Z = [500; 1000; 2000; 4000; 8000]%Z ∧
  (∀ pre r,
     (length pre < 5)%nat →
     Forall (λ x, retryable (status_code x) = true) pre →
     retryable (status_code r) = false →
     answers (service w) (exchanges w) rq (pre ++ [r]) →
     ∃ w', _req method path js 5 w = (Ok r, w') ∧
       exchanges w' = exchanges w ++ (pair rq <$> (pre ++ [r])) ∧
       slept w' = slept w ++ (backoff <$> take (length pre) [1; 2; 3; 4; 5]%Z)) ∧
  (∀ rs r,
     length rs = 5%nat →
     Forall (λ x, retryable (status_code x) = true) rs →
     last rs = Some r →
     answers (service w) (exchanges w) rq rs →
     ∃ w', _req method path js 5 w = (Ok r, w') ∧
       exchanges w' = exchanges w ++ (pair rq <$> rs) ∧
       slept w' = slept w ++ [500; 1000; 2000; 4000; 8000]%Z) ∧
  (∀ r1 r2 r3,
     status_code r1 = 503%Z → status_code r2 = 503%Z → status_code r3 = 200%Z →
     answers (service w) (exchanges w) rq [r1; r2; r3] →
     ∃ w', _req method path js 5 w = (Ok r3, w') ∧
       exchanges w' = exchanges w ++ [(rq, r1); (rq, r2); (rq, r3)] ∧
       slept w' = slept w ++ [500; 1000]%Z) ∧
  (∀ r1 r2 r3 r4 r5,
     Forall (λ x, status_code x = 500%Z) [r1; r2; r3; r4; r5] →
     answers (service w) (exchanges w) rq [r1; r2; r3; r4; r5] →
     ∃ w', _req method path js 5 w = (Ok r5, w') ∧
       exchanges w' =
         exchanges w ++ [(rq, r1); (rq, r2); (rq, r3); (rq, r4); (rq, r5)] ∧
       slept w' = slept w ++ [500; 1000; 2000; 4000; 8000]%Z) ∧
  (∀ r,
     retryable (status_code r) = false →
     answers (service w) (exchanges w) rq [r] →
     ∃ w', _req method path js 5 w = (Ok r, w') ∧
       exchanges w' = exchanges w ++ [(rq, r)] ∧ slept w' = slept w).
Proof.
  intros Htok rq.
  assert (Hthen : ∀ pre r,
    (length pre < 5)%nat →
    Forall (λ x, retryable (status_code x) = true) pre →
    retryable (status_code r) = false →
    answers (service w) (exchanges w) rq (pre ++ [r]) →
    ∃ w', _req method path js 5 w = (Ok r, w') ∧
      exchanges w' = exchanges w ++ (pair rq <$> (pre ++ [r])) ∧
      slept w' = slept w ++ (backoff <$> take (length pre) [1; 2; 3; 4; 5]%Z)).
  { intros pre r Hlen Hpre Hr Hans.
    destruct (req_retried_then method path js w pre r Htok Hlen Hpre Hr Hans)
      as (w' & ? & ? & ? & _). eauto. }
  assert (Hfive : ∀ rs r,
    length rs = 5%nat →
    Forall (λ x, retryable (status_code x) = true) rs →
    last rs = Some r →
    answers (service w) (exchanges w) rq rs →
    ∃ w', _req method path js 5 w = (Ok r, w') ∧
      exchanges w' = exchanges w ++ (pair rq <$> rs) ∧
      slept w' = slept w ++ [500; 1000; 2000; 4000; 8000]%Z).
  { intros rs r Hlen Hrs Hlast Hans.
    destruct (req_exhausted method path js w rs r Htok Hlen Hrs Hlast Hans)
      as (w' & ? & ? & ? & _). eauto. }
  split. { intros status. unfold retryable. apply bool_decide_eq_true. }
  split; [reflexivity|].
  split; [exact Hthen|]. split; [exact Hfive|].
  split; [|split].
  - intros r1 r2 r3 H1 H2 H3 Hans.
    apply (Hthen [r1; r2] r3); [simpl; lia| | |exact Hans].
    + repeat constructor; [rewrite H1|rewrite H2]; reflexivity.
    + rewrite H3. reflexivity.
  - intros r1 r2 r3 r4 r5 Hst Hans.
    apply (Hfive [r1; r2; r3; r4; r5] r5); [reflexivity| |reflexivity|exact Hans].
    eapply Forall_impl; [exact Hst|]. intros x ->. reflexivity.
  - intros r Hr Hans.
    destruct (Hthen [] r) as (w' & ? & ? & Hsl); [simpl; lia|constructor|done|done|].
    exists w'. simpl in Hsl. rewrite app_nil_r in Hsl. done.
Qed.

Lemma req_retry_policy_witness :
  token_set Fake.w_flaky ∧
  ∃ w', _req "GET" "/projects" None 5 Fake.w_flaky = (Ok Fake.listing, w') ∧
    (rq_method ∘ fst <$> exchanges w') = ["GET"; "GET"; "GET"] ∧
    (status_code ∘ snd <$> exchanges w') = [503; 503; 200]%Z ∧
    slept w' = [500; 1000]%Z.
Proof.
  assert (Htok : token_set Fake.w_flaky).
  { exists "secret". split; reflexivity. }
  split; [exact Htok|].
  destruct (req_retry_policy "GET" "/projects" None Fake.w_flaky Htok)
    as (_ & _ & _ & _ & H & _).
  destruct (H Fake.busy Fake.busy Fake.listing) as (w' & Hrun & Hex & Hsl);
    [reflexivity| reflexivity| reflexivity| repeat split |].
  exists w'. rewrite Hex, Hsl. repeat split; [exact Hrun|..]; reflexivity.
Defined.

(** ** Relations kept by every step *)

Section preserves.
Context (R : World → World → Prop) `{!PreOrder R}.

Lemma preserves_ret {A} (a : A) : preserves R (mret a).
Proof. intros w. simpl. split; [reflexivity|discriminate]. Qed.

Lemma preserves_raise {A} e : preserves R (@raise A e).
Proof. intros w. simpl. split; [reflexivity|discriminate]. Qed.

Lemma preserves_exit {A} : preserves R (@sys_exit A 2).
Proof. intros w. simpl. split; [reflexivity|congruence]. Qed.

Lemma preserves_bind {A B} (m : M A) (f : A → M B) :
  preserves R m → (∀ a, preserves R (f a)) → preserves R (m ≫= f).
Proof.
  intros Hm Hf w. rewrite bind_run. destruct (Hm w) as [HR Hc].
  destruct (m w) as [[a|c|e] w1]; simpl in *.
  - destruct (Hf a w1) as [HR' Hc']. split; [by etrans|exact Hc'].
  - split; [exact HR|]. intros c' [= <-]. by apply Hc.
  - split; [exact HR|discriminate].
Qed.

Lemma preserves_for_fold {A S} (l : list A) (body : A → S → M S) s :
  (∀ x s, preserves R (body x s)) → preserves R (for_fold l body s).
Proof.
  intros Hb. revert s. induction l as [|x l IH]; intros s; simpl.
  - apply preserves_ret.
  - apply preserves_bind; [apply Hb|]. intros s'. apply IH.
Qed.

Lemma preserves_for_each {A} (l : list A) (body : A → M unit) :
  (∀ x, preserves R (body x)) → preserves R (for_each l body).
Proof. intros Hb. apply preserves_for_fold. intros x _. apply Hb. Qed.
End preserves.

Lemma preserves_weaken {A} (R R' : World → World → Prop) (m : M A) :
  (∀ w w', R w w' → R' w w') → preserves R m → preserves R' m.
Proof. intros HR Hm w. destruct (Hm w) as [H Hc]. split; [by apply HR|exact Hc]. Qed.

#[local] Instance frame_preorder : PreOrder frame.
Proof. split; [exact frame_refl|exact frame_trans]. Qed.

#[local] Instance silent_preorder : PreOrder silent.
Proof.
  split.
  - intros w. by split; [apply frame_refl|].
  - intros w1 w2 w3 (Hf1 & ? & ? & ?) (Hf2 & ? & ? & ?).
    split; [by eapply frame_trans|]. repeat split; congruence.
Qed.

#[local] Instance grows_preorder Q : PreOrder (grows Q).
Proof.
  split.
  - intros w. split; [apply frame_refl|]. exists []. by rewrite app_nil_r.
  - intros w1 w2 w3 (Hf1 & new1 & Hex1 & HQ1) (Hf2 & new2 & Hex2 & HQ2).
    split; [by eapply frame_trans|].
    exists (new1 ++ new2). split.
    + by rewrite Hex2, Hex1, app_assoc.
    + apply Forall_app. split; [done|].
      destruct Hf1 as (_ & Hb & _). by rewrite Hb in HQ2.
Qed.

Lemma silent_grows Q w w' : silent w w' → grows Q w w'.
Proof.
  intros (Hf & Hex & _). split; [done|]. exists []. by rewrite app_nil_r.
Qed.


(** *** The silent steps *)

Ltac silent_now_tac :=
  intros w; split; [by repeat split | simpl; congruence].

Lemma silent_print line : preserves silent (print line).
Proof. silent_now_tac. Qed.

Lemma silent_eprint line : preserves silent (eprint line).
Proof. silent_now_tac. Qed.

Lemma silent_now tzname : preserves silent (datetime_now tzname).
Proof. silent_now_tac. Qed.

Lemma silent_getitem_name r : preserves silent (getitem_name r).
Proof. unfold getitem_name. destruct (r_name r); silent_now_tac. Qed.

Lemma silent_json_list r : preserves silent (json_list r).
Proof. unfold json_list. destruct (body r); silent_now_tac. Qed.

Lemma silent_json_obj r : preserves silent (json_obj r).
Proof. unfold json_obj. destruct (body r); silent_now_tac. Qed.

Lemma silent_die {A} r context : preserves silent (@_die A r context).
Proof. silent_now_tac. Qed.

Lemma silent_die_unless_200 r context : preserves silent (die_unless_200 r context).
Proof.
  unfold die_unless_200. case_bool_decide; [apply preserves_ret, _|apply silent_die].
Qed.

Lemma silent_die_unless_created r context :
  preserves silent (die_unless_created r context).
Proof.
  unfold die_unless_created.
  case_bool_decide; [apply preserves_ret, _|apply silent_die].
Qed.

Lemma silent_getitem_milestone cfg : preserves silent (getitem_milestone cfg).
Proof.
  unfold getitem_milestone. destruct (milestone cfg); silent_now_tac.
Qed.

Lemma silent_iso_week_dates tzname n : preserves silent (_iso_week_dates tzname n).
Proof. silent_now_tac. Qed.

Lemma silent_iteration_payload cfg it_cfg :
  preserves silent (iteration_payload cfg it_cfg).
Proof.
  unfold iteration_payload. apply preserves_bind; [apply _| |].
  - destruct (_ || _).
    + apply preserves_bind; [apply _|apply silent_iso_week_dates|].
      intros ?. apply preserves_ret, _.
    + apply preserves_ret, _.
  - intros ?. apply preserves_ret, _.
Qed.

(** ** The dry run, stage by stage *)

Lemma printed_nil w : printed [] w w.
Proof. split; [reflexivity|]. by rewrite app_nil_r. Qed.

Lemma printed_app l1 l2 w w1 w2 :
  printed l1 w w1 → printed l2 w1 w2 → printed (l1 ++ l2) w w2.
Proof.
  intros (Hs1 & He1 & Ho1) (Hs2 & He2 & Ho2).
  split; [by etrans|]. split; [congruence|].
  by rewrite Ho2, Ho1, app_assoc.
Qed.

Lemma printed_print line w : printed [line] w (with_stdout line w).
Proof. by repeat split. Qed.

Lemma dry_projects_run ps :
  ∀ m w, ∃ w',
    for_fold ps (project_body true) m w = (Ok (dry_projects ps m), w') ∧
    printed (dry_project_line <$> ps) w w'.
Proof.
  induction ps as [|p ps IH]; intros m w.
  - exists w. split; [reflexivity|apply printed_nil].
  - destruct (IH (<[p_name p := dry_placeholder]> m) (with_stdout (dry_project_line p) w))
      as (w' & Hrun & Hpr).
    exists w'. split; [exact Hrun|].
    apply (printed_app [_] _ _ _ _ (printed_print _ w) Hpr).
Qed.

Lemma dry_milestone_run ms w :
  milestone_stage true ms w =
  (Ok dry_placeholder, with_stdout (dry_milestone_line ms) w).
Proof. reflexivity. Qed.

Lemma dry_epics_run milestone es :
  ∀ m w, ∃ w',
    for_fold es (epic_body true milestone) m w = (Ok (dry_epics es m), w') ∧
    printed (dry_epic_line <$> es) w w'.
Proof.
  induction es as [|e es IH]; intros m w.
  - exists w. split; [reflexivity|apply printed_nil].
  - destruct (IH (<[e_name e := dry_placeholder]> m) (with_stdout (dry_epic_line e) w))
      as (w' & Hrun & Hpr).
    exists w'. split; [exact Hrun|].
    apply (printed_app [_] _ _ _ _ (printed_print _ w) Hpr).
Qed.

(** The dates are settled without touching the world. *)
Lemma iteration_payload_run cfg it_cfg w :
  iteration_payload cfg it_cfg w = (Ok (settled_iteration w cfg it_cfg), w).
Proof.
  unfold iteration_payload, settled_iteration.
  destruct (opt_truthy (i_start_date it_cfg)), (opt_truthy (i_end_date it_cfg));
    reflexivity.
Qed.

Lemma settled_iteration_frame w w' cfg it_cfg :
  frame w w' → settled_iteration w' cfg it_cfg = settled_iteration w cfg it_cfg.
Proof.
  intros (_ & _ & _ & Hc). unfold settled_iteration, week_end, week_monday.
  by rewrite Hc.
Qed.

Lemma dry_iteration_run cfg w :
  ∃ w', iteration_stage cfg true w = (Ok ((λ _, dry_placeholder) <$> iteration cfg), w') ∧
    printed match iteration cfg with
            | Some it_cfg => [dry_iteration_line (settled_iteration w cfg it_cfg)]
            | None => []
            end w w'.
Proof.
  unfold iteration_stage. destruct (iteration cfg) as [it_cfg|].
  - rewrite bind_run, iteration_payload_run.
    eexists. split; [reflexivity|]. apply printed_print.
  - exists w. split; [reflexivity|apply printed_nil].
Qed.

Lemma dry_tasks_run s story ts :
  ∀ k w, ∃ w',
    for_each (enumerate k ts) (task_body true s story) w = (Ok tt, w') ∧
    printed (dry_task_line <$> ts) w w'.
Proof.
  induction ts as [|t ts IH]; intros k w.
  - exists w. split; [reflexivity|apply printed_nil].
  - destruct (IH (k + 1)%Z (with_stdout (dry_task_line t) w)) as (w' & Hrun & Hpr).
    exists w'. split; [exact Hrun|].
    apply (printed_app [_] _ _ _ _ (printed_print _ w) Hpr).
Qed.

(** A story whose names resolve: its line, then its task lines, all
    against the placeholder. *)
Lemma dry_story_run n2p n2e it s proj epic w :
  n2p !! s_project s = Some proj → n2e !! s_epic s = Some epic →
  story_body true n2p n2e it s w =
  (print (dry_story_line s);;
   for_each (enumerate 1 (s_tasks s)) (task_body true s dry_placeholder)) w ∧
  ∃ w', story_body true n2p n2e it s w = (Ok tt, w') ∧
    printed (dry_story_lines s) w w'.
Proof.
  intros Hp He. unfold story_body. rewrite Hp, He.
  split; [reflexivity|].
  destruct (dry_tasks_run s dry_placeholder (s_tasks s) 1
              (with_stdout (dry_story_line s) w)) as (w' & Hrun & Hpr).
  exists w'. split; [exact Hrun|].
  apply (printed_app [_] _ _ _ _ (printed_print _ w) Hpr).
Qed.

Lemma dry_stories_run n2p n2e it ss :
  (∀ s, s ∈ ss → is_Some (n2p !! s_project s) ∧ is_Some (n2e !! s_epic s)) →
  ∀ w, ∃ w',
    for_each ss (story_body true n2p n2e it) w = (Ok tt, w') ∧
    printed (concat (dry_story_lines <$> ss)) w w'.
Proof.
  induction ss as [|s ss IH]; intros Hres w.
  - exists w. split; [reflexivity|apply printed_nil].
  - destruct (Hres s) as [[proj Hp] [epic He]]; [left|].
    destruct (dry_story_run n2p n2e it s proj epic w Hp He) as (_ & w1 & Hrun1 & Hpr1).
    destruct (IH (λ s' Hs', Hres s' (list_elem_of_further _ _ _ Hs')) w1)
      as (w' & Hrun & Hpr).
    exists w'. split.
    + unfold for_each in *. cbn [for_fold]. rewrite bind_run, Hrun1. exact Hrun.
    + rewrite fmap_cons. cbn [concat]. exact (printed_app _ _ _ _ _ Hpr1 Hpr).
Qed.

(** The keys of the name maps are the configured names. *)
Lemma dry_projects_lookup ps :
  ∀ m k, is_Some (dry_projects ps m !! k) ↔ is_Some (m !! k) ∨ k ∈ p_name <$> ps.
Proof.
  induction ps as [|p ps IH]; intros m k; simpl.
  - rewrite elem_of_nil. tauto.
  - unfold dry_projects in *. simpl. rewrite IH, elem_of_cons.
    rewrite lookup_insert_is_Some. destruct (decide (p_name p = k)); intuition congruence.
Qed.

Lemma dry_epics_lookup es :
  ∀ m k, is_Some (dry_epics es m !! k) ↔ is_Some (m !! k) ∨ k ∈ e_name <$> es.
Proof.
  induction es as [|e es IH]; intros m k; simpl.
  - rewrite elem_of_nil. tauto.
  - unfold dry_epics in *. simpl. rewrite IH, elem_of_cons.
    rewrite lookup_insert_is_Some. destruct (decide (e_name e = k)); intuition congruence.
Qed.

Lemma dry_projects_placeholder ps :
  ∀ m, map_Forall (λ _ r, r = dry_placeholder) m →
       map_Forall (λ _ r, r = dry_placeholder) (dry_projects ps m).
Proof.
  induction ps as [|p ps IH]; intros m Hm; [exact Hm|].
  apply IH. by apply map_Forall_insert_2.
Qed.

Lemma dry_epics_placeholder es :
  ∀ m, map_Forall (λ _ r, r = dry_placeholder) m →
       map_Forall (λ _ r, r = dry_placeholder) (dry_epics es m).
Proof.
  induction es as [|e es IH]; intros m Hm; [exact Hm|].
  apply IH. by apply map_Forall_insert_2.
Qed.

(** A whole dry run of a configuration with a milestone whose stories
    resolve. *)
Lemma dry_bootstrap_run cfg ms w :
  milestone cfg = Some ms → stories_resolve cfg →
  ∃ w', bootstrap cfg true w = (Ok tt, w') ∧ printed (dry_lines w cfg ms) w w'.
Proof.
  intros Hms Hres. unfold bootstrap, dry_lines.
  destruct (dry_projects_run (projects cfg) ∅ w) as (w1 & Hrun1 & Hpr1).
  rewrite bind_run, Hrun1. unfold getitem_milestone. rewrite Hms.
  rewrite bind_run. cbn [mret M_ret]. rewrite bind_run, dry_milestone_run.
  set (w2 := with_stdout _ w1).
  destruct (dry_epics_run dry_placeholder (epics cfg) ∅ w2) as (w3 & Hrun3 & Hpr3).
  rewrite bind_run, Hrun3.
  destruct (dry_iteration_run cfg w3) as (w4 & Hrun4 & Hpr4).
  rewrite bind_run, Hrun4.
  destruct (dry_stories_run (dry_projects (projects cfg) ∅) (dry_epics (epics cfg) ∅)
              ((λ _, dry_placeholder) <$> iteration cfg) (stories cfg)) with (w := w4)
    as (w5 & Hrun5 & Hpr5).
  { intros s Hs. destruct (Hres s Hs) as [Hp He].
    split; [apply dry_projects_lookup|apply dry_epics_lookup]; by right. }
  exists w5. split; [exact Hrun5|].
  assert (Hf3 : frame w w3).
  { etrans; [apply Hpr1|]. etrans; [|apply Hpr3]. by unfold frame. }
  replace (match iteration cfg with
           | Some it_cfg => [dry_iteration_line (settled_iteration w cfg it_cfg)]
           | None => []
           end)
    with (match iteration cfg with
          | Some it_cfg => [dry_iteration_line (settled_iteration w3 cfg it_cfg)]
          | None => []
          end).
  2:{ destruct (iteration cfg); [|done]. by rewrite (settled_iteration_frame w w3). }
  eapply printed_app; [exact Hpr1|].
  eapply printed_app; [apply (printed_print _ w1)|].
  eapply printed_app; [exact Hpr3|].
  eapply printed_app; [exact Hpr4|exact Hpr5].
Qed.

(** ** A dry run is silent, whatever the configuration *)

Ltac keep_step :=
  lazymatch goal with
  | |- preserves _ (mbind _ _) => apply preserves_bind; [apply _ | | intros ?]
  | |- preserves _ (mret _) => apply preserves_ret; apply _
  | |- preserves _ (raise _) => apply preserves_raise; apply _
  | |- preserves _ (sys_exit 2) => apply preserves_exit; apply _
  | |- preserves _ (for_fold _ _ _) => apply preserves_for_fold; [apply _ | intros ? ?]
  | |- preserves _ (for_each _ _) => apply preserves_for_each; [apply _ | intros ?]
  | |- preserves _ (match ?x with _ => _ end) => destruct x
  | |- preserves silent (print _) => apply silent_print
  | |- preserves silent (eprint _) => apply silent_eprint
  | |- preserves silent (getitem_name _) => apply silent_getitem_name
  | |- preserves silent (getitem_milestone _) => apply silent_getitem_milestone
  | |- preserves silent (iteration_payload _ _) => apply silent_iteration_payload
  | |- preserves silent (json_list _) => apply silent_json_list
  | |- preserves silent (json_obj _) => apply silent_json_obj
  | |- preserves silent (die_unless_200 _ _) => apply silent_die_unless_200
  | |- preserves silent (die_unless_created _ _) => apply silent_die_unless_created
  end.

Lemma silent_task_body s story it : preserves silent (task_body true s story it).
Proof. unfold task_body. repeat keep_step. Qed.

Lemma silent_project_body p m : preserves silent (project_body true p m).
Proof. unfold project_body. repeat keep_step. Qed.

Lemma silent_milestone_stage ms : preserves silent (milestone_stage true ms).
Proof. unfold milestone_stage. repeat keep_step. Qed.

Lemma silent_epic_body milestone e m : preserves silent (epic_body true milestone e m).
Proof. unfold epic_body. repeat keep_step. Qed.

Lemma silent_iteration_stage cfg : preserves silent (iteration_stage cfg true).
Proof. unfold iteration_stage. repeat keep_step. Qed.

Lemma silent_story_body n2p n2e it s : preserves silent (story_body true n2p n2e it s).
Proof.
  unfold story_body. repeat keep_step. apply silent_task_body.
Qed.

Lemma silent_bootstrap cfg : preserves silent (bootstrap cfg true).
Proof.
  unfold bootstrap.
  repeat keep_step;
    first [ apply silent_project_body | apply silent_milestone_stage
          | apply silent_epic_body | apply silent_iteration_stage
          | apply silent_story_body ].
Qed.

(** ** Which calls a real run makes *)

Lemma preserves_silent_grows {A} Q (m : M A) :
  preserves silent m → preserves (grows Q) m.
Proof. apply preserves_weaken. intros w w'. apply silent_grows. Qed.

Lemma req_grows (Q : string → Request → Prop) method path js :
  (∀ w, Q (API_BASE w) (request_of w method path js)) →
  preserves (grows Q) (_req method path js 5).
Proof.
  intros HQ w. destruct (req_spec method path js w) as (Hf & _ & rs & Hex & Ho).
  split.
  - split; [exact Hf|]. eexists. split; [exact Hex|].
    apply Forall_fmap, Forall_forall. intros r _. apply HQ.
  - intros c Hc. rewrite Hc in Ho. by destruct Ho.
Qed.

Lemma upsert_call_list base w method path js :
  path ∈ collections → method = "GET" ∨ method = "POST" →
  base = API_BASE w → upsert_call base (request_of w method path js).
Proof. intros Hp Hm ->. left. exists path. by repeat split. Qed.

Lemma upsert_call_put base w prefix (n : Z) js :
  prefix ∈ updatable → base = API_BASE w →
  upsert_call base (request_of w "PUT" (prefix +:+ pretty n) js).
Proof. intros Hp ->. right. exists prefix, n. by repeat split. Qed.

Ltac grow_step :=
  lazymatch goal with
  | |- preserves (grows _) (_req _ _ _ _) =>
      apply req_grows; intros ?;
      first [ apply upsert_call_list; [set_solver | auto | reflexivity]
            | apply upsert_call_put; [set_solver | reflexivity] ]
  | |- preserves (grows _) (print _) => apply preserves_silent_grows
  | |- preserves (grows _) (eprint _) => apply preserves_silent_grows
  | |- preserves (grows _) (getitem_name _) => apply preserves_silent_grows
  | |- preserves (grows _) (getitem_milestone _) => apply preserves_silent_grows
  | |- preserves (grows _) (iteration_payload _ _) => apply preserves_silent_grows
  | |- preserves (grows _) (json_list _) => apply preserves_silent_grows
  | |- preserves (grows _) (json_obj _) => apply preserves_silent_grows
  | |- preserves (grows _) (die_unless_200 _ _) => apply preserves_silent_grows
  | |- preserves (grows _) (die_unless_created _ _) => apply preserves_silent_grows
  | |- _ => keep_step
  end.

Lemma grows_find_project ext :
  preserves (grows upsert_call) (find_project_by_external_id ext).
Proof. unfold find_project_by_external_id. repeat grow_step. Qed.

Lemma grows_upsert_project p : preserves (grows upsert_call) (upsert_project p).
Proof.
  unfold upsert_project. apply preserves_bind; [apply _|apply grows_find_project|].
  intros [found|]; [repeat grow_step|]. unfold create_project. repeat grow_step.
Qed.

Lemma grows_upsert_milestone m : preserves (grows upsert_call) (upsert_milestone m).
Proof.
  unfold upsert_milestone, find_milestone_by_external_id, get_milestones.
  repeat grow_step; [unfold update_milestone|unfold create_milestone]; repeat grow_step.
Qed.

Lemma grows_upsert_epic e mid : preserves (grows upsert_call) (upsert_epic e mid).
Proof.
  unfold upsert_epic, find_epic_by_external_id, list_epics.
  repeat grow_step; [unfold update_epic|unfold create_epic]; repeat grow_step.
Qed.

Lemma grows_upsert_iteration i : preserves (grows upsert_call) (upsert_iteration i).
Proof.
  unfold upsert_iteration, find_iteration_by_external_id, list_iterations.
  repeat grow_step; [unfold update_iteration|unfold create_iteration]; repeat grow_step.
Qed.

Lemma grows_upsert_story s : preserves (grows upsert_call) (upsert_story s).
Proof.
  unfold upsert_story, find_story_by_external_id, list_stories.
  repeat grow_step; [unfold update_story|unfold create_story]; repeat grow_step.
Qed.

Lemma grows_create_task js : preserves (grows task_call) (create_task js).
Proof.
  unfold create_task. apply preserves_bind; [apply _| |intros ?].
  - apply req_grows. intros w. by split.
  - repeat grow_step.
Qed.

(** ** Which tasks a real run creates *)

Lemma created_tasks_app base l1 l2 :
  created_tasks base (l1 ++ l2) = created_tasks base l1 ++ created_tasks base l2.
Proof. unfold created_tasks. by rewrite List.filter_app, fmap_app. Qed.

Lemma upsert_call_not_task base rq :
  upsert_call base rq → rq_url rq ≠ base +:+ "/tasks".
Proof.
  intros [(path & Hp & Hurl & _)|(prefix & n & Hp & Hurl & _)] Htask;
    rewrite Hurl in Htask; apply (inj (String.app base)) in Htask.
  - subst path. unfold collections in Hp. set_solver.
  - unfold updatable in Hp.
    repeat (apply elem_of_cons in Hp as [->|Hp]); [..|by apply elem_of_nil in Hp];
      discriminate.
Qed.

Lemma created_tasks_upsert base new :
  Forall (λ x : Request * Response, upsert_call base x.1) new →
  created_tasks base new = [].
Proof.
  induction 1 as [|x new Hx _ IH]; [reflexivity|].
  unfold created_tasks in *. simpl.
  assert (task_created base x = false) as ->; [|exact IH].
  unfold task_created. apply upsert_call_not_task in Hx.
  rewrite (bool_decide_eq_false_2 _ Hx). by rewrite andb_false_r.
Qed.

Lemma task_log_nil w : task_log [] w w.
Proof.
  split; [reflexivity|]. exists []. rewrite app_nil_r. by repeat split.
Qed.

Lemma task_log_app made1 made2 w w1 w2 :
  task_log made1 w w1 → task_log made2 w1 w2 → task_log (made1 ++ made2) w w2.
Proof.
  intros (Hf1 & new1 & Hex1 & Hc1 & Hm1) (Hf2 & new2 & Hex2 & Hc2 & Hm2).
  split; [by etrans|]. exists (new1 ++ new2).
  destruct Hf1 as (_ & Hb & _). rewrite Hb in Hc2, Hm2.
  split; [by rewrite Hex2, Hex1, app_assoc|].
  split; [by apply Forall_app|].
  by rewrite created_tasks_app, Hm1, Hm2.
Qed.

Lemma task_log_after made w w1 w2 :
  task_log [] w w1 → task_log made w1 w2 → task_log made w w2.
Proof. intros H1 H2. exact (task_log_app [] made _ _ _ H1 H2). Qed.

Lemma task_log_before made w w1 w2 :
  task_log made w w1 → task_log [] w1 w2 → task_log made w w2.
Proof.
  intros H1 H2. rewrite <- (app_nil_r made). exact (task_log_app _ _ _ _ _ H1 H2).
Qed.

Lemma task_log_upsert w w' : grows upsert_call w w' → task_log [] w w'.
Proof.
  intros (Hf & new & Hex & Hnew). split; [done|]. exists new.
  split; [done|]. split.
  - eapply Forall_impl; [exact Hnew|]. intros x Hx. by left.
  - by apply created_tasks_upsert.
Qed.

Lemma task_log_silent w w' : silent w w' → task_log [] w w'.
Proof. intros H. apply task_log_upsert. by apply silent_grows. Qed.

Lemma retryable_not_created status :
  retryable status = true → bool_decide (status ∈ [200; 201]%Z) = false.
Proof.
  unfold retryable. intros H%bool_decide_eq_true.
  apply bool_decide_eq_false. set_solver.
Qed.

Lemma created_tasks_retried base rq pre :
  Forall (λ x, retryable (status_code x) = true) pre →
  created_tasks base (pair rq <$> pre) = [].
Proof.
  induction 1 as [|r pre Hr _ IH]; [reflexivity|].
  unfold created_tasks in *. simpl.
  unfold task_created at 1. simpl.
  rewrite (retryable_not_created _ Hr), andb_false_r. exact IH.
Qed.

(** A task creation that returns leaves exactly one created task, with
    the body it was given. *)
Lemma create_task_ok js w r w' :
  create_task js w = (Ok r, w') → task_log [Some js] w w'.
Proof.
  unfold create_task. intros H.
  apply bind_ok_inv in H as (resp & w1 & Hreq & H).
  apply bind_ok_inv in H as ([] & w2 & Hdie & Hobj).
  pose proof (req_spec "POST" "/tasks" (Some js) w) as Hspec.
  cbv zeta in Hspec. rewrite Hreq in Hspec. simpl in Hspec.
  destruct Hspec as (Hf & _ & rs & Hex & _ & _ & pre & -> & Hpre).
  unfold die_unless_created in Hdie. case_bool_decide as Hst; [|discriminate].
  injection Hdie as <-.
  assert (w' = w1) as ->.
  { unfold json_obj in Hobj. destruct (body resp); by inversion Hobj. }
  split; [exact Hf|]. eexists. split; [exact Hex|]. split.
  - apply Forall_fmap, Forall_forall. intros x _. right. by split.
  - rewrite fmap_app, created_tasks_app, (created_tasks_retried _ _ _ Hpre).
    unfold created_tasks, task_created. simpl.
    rewrite !bool_decide_eq_true_2 by done. reflexivity.
Qed.

Lemma run_preserved {A} R (m : M A) w o w' :
  preserves R m → m w = (o, w') → R w w'.
Proof. intros Hm Hrun. destruct (Hm w) as [H _]. by rewrite Hrun in H. Qed.


(** The task loop of a story creates one task per configured task, in
    list order. *)
Lemma tasks_loop_ok s story ts :
  ∀ k w w',
    for_each (enumerate k ts) (task_body false s story) w = (Ok tt, w') →
    task_log ((λ it, Some (task_payload s story it.1 it.2)) <$> enumerate k ts) w w'.
Proof.
  induction ts as [|t ts IH]; intros k w w' H.
  - inversion H. apply task_log_nil.
  - unfold for_each in H. cbn [enumerate for_fold] in H.
    apply bind_ok_inv in H as ([] & w1 & Hbody & Hrest).
    unfold task_body in Hbody. cbn [fst snd] in Hbody.
    apply bind_ok_inv in Hbody as (task & w0 & Hcreate & Hprint).
    apply create_task_ok in Hcreate.
    assert (Hpr : task_log [] w0 w1).
    { apply task_log_silent. eapply run_preserved; [apply silent_print|exact Hprint]. }
    apply IH in Hrest.
    cbn [enumerate fmap list_fmap fst snd].
    apply (task_log_app [_] _ w w1 w'); [|exact Hrest].
    eapply task_log_before; [exact Hcreate|exact Hpr].
Qed.

Lemma story_body_ok n2p n2e it s w w' :
  story_body false n2p n2e it s w = (Ok tt, w') →
  ∃ story, task_log (story_task_payloads s story) w w'.
Proof.
  unfold story_body. intros H.
  destruct (n2p !! s_project s) as [proj|]; [|discriminate].
  destruct (n2e !! s_epic s) as [epic|]; [|discriminate].
  apply bind_ok_inv in H as (story & w1 & Hup & Htasks).
  apply bind_ok_inv in Hup as (story' & w2 & Hup & Hrest).
  apply bind_ok_inv in Hrest as (nm & w3 & Hnm & Hrest).
  apply bind_ok_inv in Hrest as ([] & w4 & Hpr & Hret).
  injection Hret as -> ->.
  exists story. unfold story_task_payloads.
  eapply task_log_after; [|by apply tasks_loop_ok].
  eapply task_log_after; [|eapply task_log_after].
  - apply task_log_upsert. eapply run_preserved; [apply grows_upsert_story|exact Hup].
  - apply task_log_silent. eapply run_preserved; [apply silent_getitem_name|exact Hnm].
  - apply task_log_silent. eapply run_preserved; [apply silent_print|exact Hpr].
Qed.

Lemma stories_loop_ok n2p n2e it ss :
  ∀ w w',
    for_each ss (story_body false n2p n2e it) w = (Ok tt, w') →
    ∃ recs, length recs = length ss ∧ task_log (all_task_payloads ss recs) w w'.
Proof.
  induction ss as [|s ss IH]; intros w w' H.
  - inversion H. exists []. split; [done|]. apply task_log_nil.
  - unfold for_each in H. cbn [for_fold] in H.
    apply bind_ok_inv in H as ([] & w1 & Hbody & Hrest).
    apply story_body_ok in Hbody as (story & Hstory).
    apply IH in Hrest as (recs & Hlen & Hrest).
    exists (story :: recs). split; [simpl; by rewrite Hlen|].
    unfold all_task_payloads. cbn [zip_with concat].
    eapply task_log_app; [exact Hstory|exact Hrest].
Qed.

Lemma grows_project_body p m : preserves (grows upsert_call) (project_body false p m).
Proof.
  unfold project_body. apply preserves_bind; [apply _|apply grows_upsert_project|].
  intros proj. repeat grow_step.
Qed.

Lemma grows_milestone_stage ms : preserves (grows upsert_call) (milestone_stage false ms).
Proof.
  unfold milestone_stage. apply preserves_bind; [apply _|apply grows_upsert_milestone|].
  intros r. repeat grow_step.
Qed.

Lemma grows_epic_body milestone e m :
  preserves (grows upsert_call) (epic_body false milestone e m).
Proof.
  unfold epic_body. apply preserves_bind; [apply _| |intros ?; repeat grow_step].
  apply preserves_bind; [apply _|apply grows_upsert_epic|].
  intros r. repeat grow_step.
Qed.

Lemma grows_iteration_stage cfg : preserves (grows upsert_call) (iteration_stage cfg false).
Proof.
  unfold iteration_stage. destruct (iteration cfg) as [it_cfg|]; [|repeat grow_step].
  apply preserves_bind; [apply _|repeat grow_step|]. intros it_payload.
  apply preserves_bind; [apply _|apply grows_upsert_iteration|].
  intros r. repeat grow_step.
Qed.

(** A real run that completes has created, for every story in turn,
    every configured task of the story. *)
Lemma bootstrap_ok cfg w w' :
  bootstrap cfg false w = (Ok tt, w') →
  ∃ recs, length recs = length (stories cfg) ∧
    task_log (all_task_payloads (stories cfg) recs) w w'.
Proof.
  unfold bootstrap. intros H.
  apply bind_ok_inv in H as (n2p & w1 & H1 & H).
  apply bind_ok_inv in H as (ms_cfg & w2 & H2 & H).
  apply bind_ok_inv in H as (ms & w3 & H3 & H).
  apply bind_ok_inv in H as (n2e & w4 & H4 & H).
  apply bind_ok_inv in H as (it & w5 & H5 & H).
  apply stories_loop_ok in H as (recs & Hlen & Hlog).
  exists recs. split; [exact Hlen|].
  eapply task_log_after; [|exact Hlog].
  eapply task_log_after; [|eapply task_log_after; [|eapply task_log_after;
    [|eapply task_log_after]]].
  - apply task_log_upsert. eapply run_preserved; [|exact H1].
    apply preserves_for_fold; [apply _|]. intros p m. apply grows_project_body.
  - apply task_log_silent.
    eapply run_preserved; [apply silent_getitem_milestone|exact H2].
  - apply task_log_upsert.
    eapply run_preserved; [apply grows_milestone_stage|exact H3].
  - apply task_log_upsert. eapply run_preserved; [|exact H4].
    apply preserves_for_fold; [apply _|]. intros e m. apply grows_epic_body.
  - apply task_log_upsert.
    eapply run_preserved; [apply grows_iteration_stage|exact H5].
Qed.

(** Under [/tasks] there is only the creation: no listing, no update. *)
Lemma bootstrap_call_tasks base rq suffix :
  bootstrap_call base rq →
  rq_url rq = base +:+ ("/tasks" +:+ suffix) →
  rq_method rq = "POST" ∧ suffix = "".
Proof.
  intros [[(path & Hp & Hurl & _)|(prefix & n & Hp & Hurl & _)]|[Hm Hurl]] Htask;
    rewrite Hurl in Htask; apply (inj (String.app base)) in Htask.
  - unfold collections in Hp.
    repeat (apply elem_of_cons in Hp as [->|Hp]); [..|by apply elem_of_nil in Hp];
      discriminate.
  - unfold updatable in Hp.
    repeat (apply elem_of_cons in Hp as [->|Hp]); [..|by apply elem_of_nil in Hp];
      discriminate.
  - split; [exact Hm|]. simpl in Htask. destruct suffix; [done|discriminate].
Qed.

Lemma enumerate_lookup {A} (l : list A) :
  ∀ k i, enumerate k l !! i = (λ t, ((k + Z.of_nat i)%Z, t)) <$> l !! i.
Proof.
  induction l as [|x l IH]; intros k [|i]; try done.
  - cbn. by rewrite Z.add_0_r.
  - replace (k + Z.of_nat (S i))%Z with (k + 1 + Z.of_nat i)%Z by lia.
    cbn [enumerate]. rewrite lookup_cons. apply IH.
Qed.

Lemma enumerate_length {A} (l : list A) k : length (enumerate k l) = length l.
Proof. revert k. induction l as [|x l IH]; intros k; simpl; [done|]. by rewrite IH. Qed.

Lemma story_task_payloads_length s story :
  length (story_task_payloads s story) = length (s_tasks s).
Proof. unfold story_task_payloads. by rewrite length_fmap, enumerate_length. Qed.

Lemma all_task_payloads_length ss :
  ∀ recs, length recs = length ss →
    length (all_task_payloads ss recs) = sum_list (length ∘ s_tasks <$> ss).
Proof.
  unfold all_task_payloads.
  induction ss as [|s ss IH]; intros [|r recs] Hlen; simpl in *; try done.
  rewrite length_app, story_task_payloads_length, IH; [done|lia].
Qed.

(** C2: a real run creates every configured task of every configured
    story, in order, with no lookup and no update: the only call under
    [/tasks] is the [POST] that creates.  A run that completes has created
    exactly the configured tasks of each story, so a second run on the
    same configuration creates them all once more: for each story twice
    the number of its tasks after two runs, whatever the service holds. *)
Theorem tasks_always_created cfg w w1 w2 :
  bootstrap cfg false w = (Ok tt, w1) →
  bootstrap cfg false w1 = (Ok tt, w2) →
  let base := API_BASE w in
  ∃ recs1 recs2 new1 new2,
    length recs1 = length (stories cfg) ∧ length recs2 = length (stories cfg) ∧
    exchanges w1 = exchanges w ++ new1 ∧ exchanges w2 = exchanges w1 ++ new2 ∧
    created_tasks base new1 = all_task_payloads (stories cfg) recs1 ∧
    created_tasks base new2 = all_task_payloads (stories cfg) recs2 ∧
    (∀ i s, stories cfg !! i = Some s →
       ∃ r1 r2,
         zip_with story_task_payloads (stories cfg) recs1 !! i =
           Some (story_task_payloads s r1) ∧
         zip_with story_task_payloads (stories cfg) recs2 !! i =
           Some (story_task_payloads s r2) ∧
         length (story_task_payloads s r1 ++ story_task_payloads s r2) =
           (2 * length (s_tasks s))%nat) ∧
    length (created_tasks base new1) = sum_list (length ∘ s_tasks <$> stories cfg) ∧
    length (created_tasks base (new1 ++ new2)) =
      (2 * length (created_tasks base new1))%nat ∧
    (∀ x suffix,
       x ∈ new1 ++ new2 → rq_url x.1 = base +:+ ("/tasks" +:+ suffix) →
       rq_method x.1 = "POST" ∧ suffix = "").
Proof.
  intros H1 H2 base.
  apply bootstrap_ok in H1 as (recs1 & Hlen1 & Hf1 & new1 & Hex1 & Hc1 & Hm1).
  apply bootstrap_ok in H2 as (recs2 & Hlen2 & Hf2 & new2 & Hex2 & Hc2 & Hm2).
  destruct Hf1 as (_ & Hb & _). rewrite Hb in Hc2, Hm2. fold base in Hc1, Hm1, Hc2, Hm2.
  exists recs1, recs2, new1, new2.
  repeat (split; [done|]). split; [|split; [|split]].
  - intros i s Hs.
    destruct (lookup_lt_is_Some_2 recs1 i) as [r1 Hr1].
    { rewrite Hlen1. by eapply lookup_lt_Some. }
    destruct (lookup_lt_is_Some_2 recs2 i) as [r2 Hr2].
    { rewrite Hlen2. by eapply lookup_lt_Some. }
    exists r1, r2. rewrite !lookup_zip_with, Hs, Hr1, Hr2. simpl.
    repeat (split; [done|]).
    rewrite length_app, !story_task_payloads_length. lia.
  - rewrite Hm1. by apply all_task_payloads_length.
  - rewrite created_tasks_app, length_app, Hm1, Hm2.
    rewrite !all_task_payloads_length by done. lia.
  - intros x suffix Hx Hurl. apply (bootstrap_call_tasks base x.1); [|exact Hurl].
    apply elem_of_app in Hx as [Hx|Hx];
      [eapply (proj1 (Forall_forall _ _) Hc1)|eapply (proj1 (Forall_forall _ _) Hc2)];
      exact Hx.
Qed.

Lemma tasks_always_created_witness :
  bootstrap Fake.cfg1 false Fake.w0 = (Ok tt, Fake.w1) ∧
  bootstrap Fake.cfg1 false Fake.w1 = (Ok tt, Fake.w2) ∧
  length (created_tasks (API_BASE Fake.w0) (exchanges Fake.w2)) = 6%nat.
Proof.
  assert (H1 : bootstrap Fake.cfg1 false Fake.w0 = (Ok tt, Fake.w1))
    by (vm_compute; reflexivity).
  assert (H2 : bootstrap Fake.cfg1 false Fake.w1 = (Ok tt, Fake.w2))
    by (vm_compute; reflexivity).
  split; [exact H1|]. split; [exact H2|].
  destruct (tasks_always_created Fake.cfg1 Fake.w0 Fake.w1 Fake.w2 H1 H2)
    as (recs1 & recs2 & new1 & new2 & _ & _ & Hex1 & Hex2 & _ & _ & _ & Hn & Htwice & _).
  rewrite Hex2, Hex1. change (exchanges Fake.w0) with (@nil (Request * Response)).
  rewrite app_nil_l, Htwice, Hn. reflexivity.
Defined.

Lemma story_task_payloads_lookup s story i t :
  s_tasks s !! i = Some t →
  story_task_payloads s story !! i =
    Some (Some [("description", JStr t);
                ("story_id", JInt (r_id story));
                ("external_id",
                 JStr ("beeai:task:" +:+ s_external_id s +:+ ":" +:+
                       pretty (Z.of_nat i + 1)%Z))]).
Proof.
  intros Ht. unfold story_task_payloads.
  rewrite list_lookup_fmap, enumerate_lookup, Ht. cbn [fmap option_fmap option_map fst snd].
  unfold task_payload, task_external_id. cbn [fst snd].
  by replace (1 + Z.of_nat i)%Z with (Z.of_nat i + 1)%Z by lia.
Qed.

(** The tasks of the story at position [length pre] follow those of the
    stories before it. *)
Lemma all_task_payloads_lookup pre s post recs i :
  length recs = length (pre ++ s :: post) →
  ∃ story,
    all_task_payloads (pre ++ s :: post) recs
      !! (sum_list (length ∘ s_tasks <$> pre) + i)%nat =
    story_task_payloads s story !! i ∨
    (length (s_tasks s) ≤ i)%nat.
Proof.
  intros Hlen. rewrite length_app in Hlen. cbn [length] in Hlen.
  rewrite <- (take_drop (length pre) recs).
  assert (Hpre : length (take (length pre) recs) = length pre)
    by (rewrite length_take; lia).
  destruct (drop (length pre) recs) as [|story rest] eqn:Hdrop.
  { apply (f_equal length) in Hdrop. rewrite length_drop in Hdrop. simpl in Hdrop. lia. }
  exists story.
  destruct (decide (length (s_tasks s) ≤ i)%nat) as [Hi|Hi]; [by right|left].
  unfold all_task_payloads.
  rewrite zip_with_app by done. cbn [zip_with]. rewrite concat_app. cbn [concat].
  change (concat (zip_with story_task_payloads pre (take (length pre) recs)))
    with (all_task_payloads pre (take (length pre) recs)).
  rewrite lookup_app_r; rewrite all_task_payloads_length by done; [|lia].
  replace (sum_list (length ∘ s_tasks <$> pre) + i -
           sum_list (length ∘ s_tasks <$> pre))%nat with i by lia.
  apply lookup_app_l. rewrite story_task_payloads_length. lia.
Qed.

(** C6: the task at 1-based position [idx] of a story's task list is
    created with the external id "beeai:task:" + story external id + ":" +
    [idx].  In the program: when the body of the story loop completes for
    a story, it has created as many tasks as the story lists, and the
    creation at position [idx] carries the task's description, the id of
    the story record and this external id; in a run of [bootstrap] that
    completes, the same creation comes after the creations of all tasks of
    the stories before.  The second task of the story "story-1" gets
    "beeai:task:story-1:2". *)
Theorem task_external_id_by_position s i t :
  s_tasks s !! i = Some t →
  let idx := (Z.of_nat i + 1)%Z in
  let js story :=
    [("description", JStr t);
     ("story_id", JInt (r_id story));
     ("external_id",
      JStr ("beeai:task:" +:+ s_external_id s +:+ ":" +:+ pretty idx))] in
  (∀ n2p n2e it w w',
     story_body false n2p n2e it s w = (Ok tt, w') →
     ∃ story new, exchanges w' = exchanges w ++ new ∧
       length (created_tasks (API_BASE w) new) = length (s_tasks s) ∧
       created_tasks (API_BASE w) new !! i = Some (Some (js story))) ∧
  (∀ cfg pre post w w',
     stories cfg = pre ++ s :: post →
     bootstrap cfg false w = (Ok tt, w') →
     ∃ story new, exchanges w' = exchanges w ++ new ∧
       created_tasks (API_BASE w) new
         !! (sum_list (length ∘ s_tasks <$> pre) + i)%nat = Some (Some (js story))) ∧
  (s_external_id s = "story-1" → i = 1%nat →
   ∀ story, js story =
     [("description", JStr t); ("story_id", JInt (r_id story));
      ("external_id", JStr "beeai:task:story-1:2")]).
Proof.
  intros Ht idx js.
  assert (Hi : (i < length (s_tasks s))%nat) by (by eapply lookup_lt_Some).
  split; [|split].
  - intros n2p n2e it w w' Hrun.
    apply story_body_ok in Hrun as (story & _ & new & Hex & _ & Hmade).
    exists story, new. split; [exact Hex|]. rewrite Hmade. split.
    + apply story_task_payloads_length.
    + by apply story_task_payloads_lookup.
  - intros cfg pre post w w' Hst Hrun.
    apply bootstrap_ok in Hrun as (recs & Hlen & _ & new & Hex & _ & Hmade).
    rewrite Hst in Hlen, Hmade.
    destruct (all_task_payloads_lookup pre s post recs i Hlen) as (story & [Hat|Hge]);
      [|lia].
    exists story, new. split; [exact Hex|]. rewrite Hmade, Hat.
    by apply story_task_payloads_lookup.
  - intros Hext -> story. subst js idx. cbv beta. rewrite Hext. reflexivity.
Qed.

Lemma task_external_id_by_position_witness :
  s_tasks Fake.story1 !! 1%nat = Some "write tests" ∧
  stories Fake.cfg1 = [] ++ Fake.story1 :: [Fake.story2] ∧
  bootstrap Fake.cfg1 false Fake.w0 = (Ok tt, Fake.w1) ∧
  ∃ story,
    created_tasks (API_BASE Fake.w0) (exchanges Fake.w1) !! 1%nat =
      Some (Some [("description", JStr "write tests");
                  ("story_id", JInt (r_id story));
                  ("external_id", JStr "beeai:task:story-1:2")]).
Proof.
  assert (Ht : s_tasks Fake.story1 !! 1%nat = Some "write tests") by reflexivity.
  assert (Hrun : bootstrap Fake.cfg1 false Fake.w0 = (Ok tt, Fake.w1))
    by (vm_compute; reflexivity).
  split; [exact Ht|]. split; [reflexivity|]. split; [exact Hrun|].
  destruct (task_external_id_by_position Fake.story1 1 "write tests" Ht)
    as (_ & Hboot & Hinst).
  destruct (Hboot Fake.cfg1 [] [Fake.story2] Fake.w0 Fake.w1 eq_refl Hrun)
    as (story & new & Hex & Hat).
  exists story. rewrite Hex.
  change (exchanges Fake.w0) with (@nil (Request * Response)).
  rewrite app_nil_l. rewrite <- (Hinst eq_refl eq_refl story). exact Hat.
Defined.

(** ** The name maps *)

Lemma project_body_ok dry_run p m w m' w' :
  project_body dry_run p m w = (Ok m', w') → ∃ r, m' = <[p_name p := r]> m.
Proof.
  unfold project_body. destruct dry_run; intros H.
  - inversion H. eauto.
  - apply bind_ok_inv in H as (proj & w1 & _ & H).
    apply bind_ok_inv in H as (nm & w2 & _ & H).
    apply bind_ok_inv in H as ([] & w3 & _ & H).
    inversion H. eauto.
Qed.

Lemma epic_body_ok dry_run ms e m w m' w' :
  epic_body dry_run ms e m w = (Ok m', w') → ∃ r, m' = <[e_name e := r]> m.
Proof.
  unfold epic_body. intros H.
  apply bind_ok_inv in H as (ep & w1 & _ & H). inversion H. eauto.
Qed.

Lemma projects_keys dry_run ps :
  ∀ m w m' w' k,
    for_fold ps (project_body dry_run) m w = (Ok m', w') →
    is_Some (m' !! k) ↔ is_Some (m !! k) ∨ k ∈ p_name <$> ps.
Proof.
  induction ps as [|p ps IH]; intros m w m' w' k H.
  - inversion H. rewrite fmap_nil, elem_of_nil. tauto.
  - cbn [for_fold] in H. apply bind_ok_inv in H as (m1 & w1 & Hbody & H).
    apply project_body_ok in Hbody as (r & ->).
    rewrite (IH _ _ _ _ k H), fmap_cons, elem_of_cons, lookup_insert_is_Some.
    destruct (decide (p_name p = k)); intuition congruence.
Qed.

Lemma epics_keys dry_run ms es :
  ∀ m w m' w' k,
    for_fold es (epic_body dry_run ms) m w = (Ok m', w') →
    is_Some (m' !! k) ↔ is_Some (m !! k) ∨ k ∈ e_name <$> es.
Proof.
  induction es as [|e es IH]; intros m w m' w' k H.
  - inversion H. rewrite fmap_nil, elem_of_nil. tauto.
  - cbn [for_fold] in H. apply bind_ok_inv in H as (m1 & w1 & Hbody & H).
    apply epic_body_ok in Hbody as (r & ->).
    rewrite (IH _ _ _ _ k H), fmap_cons, elem_of_cons, lookup_insert_is_Some.
    destruct (decide (e_name e = k)); intuition congruence.
Qed.

Lemma not_Some_empty (k : string) : ¬ is_Some ((∅ : gmap string Remote) !! k).
Proof. rewrite lookup_empty. by intros [? ?]. Qed.

(** The story loop stops at a story whose project or epic is not in the
    maps. *)
Lemma stories_loop_abort dry_run n2p n2e it pre s post w :
  n2p !! s_project s = None ∨ n2e !! s_epic s = None →
  for_each (pre ++ s :: post) (story_body dry_run n2p n2e it) w =
  match for_each pre (story_body dry_run n2p n2e it) w with
  | (Ok _, w1) => (Exit 2, with_stderr (ErrMissing (s_name s)) w1)
  | other => other
  end.
Proof.
  intros Hnone. rewrite for_each_app, bind_run.
  destruct (for_each pre _ w) as [[[]|c|e] w1]; [|done..].
  unfold for_each. cbn [for_fold]. rewrite bind_run.
  unfold story_body.
  destruct Hnone as [-> | ->]; [reflexivity|].
  by destruct (n2p !! s_project s).
Qed.

(** C3 as stated (exit code 2 when the milestone block is missing) fails:
    a dry run of a document without a milestone prints the project line
    and ends in an uncaught [KeyError], which is exit status 1. *)
Lemma no_milestone_counterexample :
  milestone Fake.cfg_no_milestone = None ∧
  (main CmdDryRun Fake.cfg_no_milestone Fake.w0).1 = Raise (KeyError "milestone") ∧
  exit_code (main CmdDryRun Fake.cfg_no_milestone Fake.w0).1 ≠ 2%Z ∧
  stdout (main CmdDryRun Fake.cfg_no_milestone Fake.w0).2 =
    ["[dry-run] upsert project: Platform (beeai:project:platform)"].
Proof. repeat split; try reflexivity. vm_compute. discriminate. Qed.

(** C3, amended: without a milestone block the run carries out the
    project stage and then, if that stage completed, ends in an uncaught
    [KeyError] for the key "milestone" (exit status 1), having touched no
    milestone, epic, iteration or story; it ends earlier, with the outcome
    of the project stage, only if that stage did not complete.  A dry run
    always ends in the [KeyError]. *)
Theorem no_milestone_raises cfg dry_run w :
  milestone cfg = None →
  bootstrap cfg dry_run w =
    match for_fold (projects cfg) (project_body dry_run) ∅ w with
    | (Ok _, w1) => (Raise (KeyError "milestone"), w1)
    | (Exit c, w1) => (Exit c, w1)
    | (Raise e, w1) => (Raise e, w1)
    end ∧
  (bootstrap cfg true w).1 = Raise (KeyError "milestone") ∧
  exit_code (bootstrap cfg true w).1 = 1%Z ∧
  exit_code (bootstrap cfg dry_run w).1 ≠ 0%Z.
Proof.
  intros Hms.
  assert (Hrun : ∀ dry w,
    bootstrap cfg dry w =
    match for_fold (projects cfg) (project_body dry) ∅ w with
    | (Ok _, w1) => (Raise (KeyError "milestone"), w1)
    | (Exit c, w1) => (Exit c, w1)
    | (Raise e, w1) => (Raise e, w1)
    end).
  { intros dry w0. unfold bootstrap. rewrite bind_run.
    destruct (for_fold (projects cfg) _ ∅ w0) as [[n2p|c|e] w1]; [|done..].
    rewrite bind_run. unfold getitem_milestone. by rewrite Hms. }
  assert (Hdry : (bootstrap cfg true w).1 = Raise (KeyError "milestone")).
  { rewrite Hrun. destruct (dry_projects_run (projects cfg) ∅ w) as (w1 & -> & _).
    reflexivity. }
  split; [apply Hrun|]. split; [exact Hdry|]. split; [by rewrite Hdry|].
  rewrite Hrun.
  assert (Hexit : ∀ c, (for_fold (projects cfg) (project_body dry_run) ∅ w).1 = Exit c →
                       c = 2%Z).
  { destruct dry_run.
    - apply (preserves_for_fold silent). intros p m. apply silent_project_body.
    - apply (preserves_for_fold (grows upsert_call)). intros p m.
      apply grows_project_body. }
  destruct (for_fold (projects cfg) _ ∅ w) as [[n2p|c|e] w1]; simpl in *; [done| |done].
  rewrite (Hexit c eq_refl). done.
Qed.

Lemma no_milestone_raises_witness :
  milestone Fake.cfg_no_milestone = None ∧
  exit_code (bootstrap Fake.cfg_no_milestone true Fake.w_no_token).1 = 1%Z.
Proof.
  split; [reflexivity|].
  destruct (no_milestone_raises Fake.cfg_no_milestone true Fake.w_no_token)
    as (_ & _ & H & _); [reflexivity|exact H].
Defined.

(** C4 as stated (abort before any story is upserted) fails: with the
    unresolved story second in the list, the first story and its two
    tasks are sent before the run exits with code 2. *)
Lemma unresolved_story_counterexample :
  stories Fake.cfg_stray = [Fake.story1; Fake.stray; Fake.story2] ∧
  (s_project Fake.stray ∉ (p_name <$> projects Fake.cfg_stray)) ∧
  (bootstrap Fake.cfg_stray false Fake.w0).1 = Exit 2 ∧
  drop 8 ((λ x, (rq_method x.1, rq_url x.1, status_code x.2)) <$>
          exchanges (bootstrap Fake.cfg_stray false Fake.w0).2) =
    [("GET", "https://api.app.shortcut.com/api/v3/stories", 200%Z);
     ("POST", "https://api.app.shortcut.com/api/v3/stories", 201%Z);
     ("POST", "https://api.app.shortcut.com/api/v3/tasks", 201%Z);
     ("POST", "https://api.app.shortcut.com/api/v3/tasks", 201%Z)].
Proof.
  split; [reflexivity|]. split; [|split; vm_compute; reflexivity].
  vm_compute. intros H. inversion H as [|? ? ? H']; subst. inversion H'.
Qed.

(** A run over stories [pre ++ s :: post] with [s] unresolved is the run
    over [pre], then the abort. *)
Lemma bootstrap_cut cfg dry_run w pre s post :
  stories cfg = pre ++ s :: post →
  s_project s ∉ (p_name <$> projects cfg) ∨ s_epic s ∉ (e_name <$> epics cfg) →
  bootstrap cfg dry_run w =
    match bootstrap (with_stories pre cfg) dry_run w with
    | (Ok _, w1) => (Exit 2, with_stderr (ErrMissing (s_name s)) w1)
    | other => other
    end.
Proof.
  intros Hst Hun.
  unfold bootstrap. rewrite Hst.
  change (projects (with_stories pre cfg)) with (projects cfg).
  change (epics (with_stories pre cfg)) with (epics cfg).
  change (stories (with_stories pre cfg)) with pre.
  change (getitem_milestone (with_stories pre cfg)) with (getitem_milestone cfg).
  change (iteration_stage (with_stories pre cfg) dry_run)
    with (iteration_stage cfg dry_run).
  rewrite !(bind_run (for_fold (projects cfg) _ ∅)).
  destruct (for_fold (projects cfg) _ ∅ w) as [[n2p|c|e] w1] eqn:H1; [|done..].
  rewrite !(bind_run (getitem_milestone cfg)).
  destruct (getitem_milestone cfg w1) as [[ms_cfg|c|e] w2]; [|done..].
  rewrite !(bind_run (milestone_stage dry_run ms_cfg)).
  destruct (milestone_stage dry_run ms_cfg w2) as [[ms|c|e] w3]; [|done..].
  rewrite !(bind_run (for_fold (epics cfg) _ ∅)).
  destruct (for_fold (epics cfg) _ ∅ w3) as [[n2e|c|e] w4] eqn:H4; [|done..].
  rewrite !(bind_run (iteration_stage cfg dry_run)).
  destruct (iteration_stage cfg dry_run w4) as [[it|c|e] w5]; [|done..].
  apply stories_loop_abort.
  destruct Hun as [Hp|He]; [left|right]; apply eq_None_not_Some; intros Hsome.
  - apply (projects_keys _ _ _ _ _ _ (s_project s) H1) in Hsome as [Hsome|Hin];
      [by apply not_Some_empty in Hsome|done].
  - apply (epics_keys _ _ _ _ _ _ _ (s_epic s) H4) in Hsome as [Hsome|Hin];
      [by apply not_Some_empty in Hsome|done].
Qed.

(** C4, amended: the run aborts at the first story whose project or epic
    name is not configured.  It behaves exactly as the run on the
    configuration cut off before that story (so the stories before it are
    upserted, with their tasks) and, when that run completes, writes the
    error line and exits with code 2: nothing is sent for the unresolved
    story or for any story after it, and the run never completes. *)
Theorem unresolved_story_aborts cfg dry_run w pre s post :
  stories cfg = pre ++ s :: post →
  s_project s ∉ (p_name <$> projects cfg) ∨ s_epic s ∉ (e_name <$> epics cfg) →
  bootstrap cfg dry_run w =
    match bootstrap (with_stories pre cfg) dry_run w with
    | (Ok _, w1) => (Exit 2, with_stderr (ErrMissing (s_name s)) w1)
    | other => other
    end ∧
  (bootstrap cfg dry_run w).1 ≠ Ok tt.
Proof.
  intros Hst Hun.
  pose proof (bootstrap_cut cfg dry_run w pre s post Hst Hun) as Hrun.
  split; [exact Hrun|]. rewrite Hrun.
  by destruct (bootstrap (with_stories pre cfg) dry_run w) as [[[]|c|e] w1].
Qed.

Lemma unresolved_story_aborts_witness :
  stories Fake.cfg_stray = [Fake.story1] ++ Fake.stray :: [Fake.story2] ∧
  (s_project Fake.stray ∉ (p_name <$> projects Fake.cfg_stray)) ∧
  (bootstrap Fake.cfg_stray true Fake.w0).1 ≠ Ok tt.
Proof.
  assert (Hun : s_project Fake.stray ∉ (p_name <$> projects Fake.cfg_stray)).
  { vm_compute. intros H. inversion H as [|? ? ? H']; subst. inversion H'. }
  split; [reflexivity|]. split; [exact Hun|].
  destruct (unresolved_story_aborts Fake.cfg_stray true Fake.w0
              [Fake.story1] Fake.stray [Fake.story2]) as (_ & H);
    [reflexivity|left; exact Hun|exact H].
Defined.

(** ** More on the dry run *)

Lemma dry_story_lines_length ss :
  length (concat (dry_story_lines <$> ss)) =
  (length ss + sum_list (length ∘ s_tasks <$> ss))%nat.
Proof.
  induction ss as [|s ss IH]; [done|].
  rewrite fmap_cons. cbn [concat]. rewrite length_app, IH.
  unfold dry_story_lines. cbn [length]. rewrite length_fmap. simpl.
  change (list_fmap Story nat (length ∘ s_tasks) ss)
    with ((length ∘ s_tasks) <$> ss).
  lia.
Qed.

Lemma dry_lines_length w cfg ms :
  length (dry_lines w cfg ms) =
  (length (projects cfg) + 1 + length (epics cfg) +
   match iteration cfg with Some _ => 1 | None => 0 end + length (stories cfg) +
   sum_list (length ∘ s_tasks <$> stories cfg))%nat.
Proof.
  unfold dry_lines.
  rewrite !length_app, !length_fmap, dry_story_lines_length.
  destruct (iteration cfg); simpl; lia.
Qed.

Lemma dry_lines_prefix w cfg ms :
  Forall (λ line, ∃ rest, line = "[dry-run] " +:+ rest) (dry_lines w cfg ms).
Proof.
  unfold dry_lines. repeat (apply Forall_app; split).
  - apply Forall_fmap, Forall_forall. intros p _. eexists. reflexivity.
  - repeat constructor. eexists. reflexivity.
  - apply Forall_fmap, Forall_forall. intros e _. eexists. reflexivity.
  - destruct (iteration cfg); repeat constructor. eexists. reflexivity.
  - apply Forall_concat, Forall_fmap, Forall_forall. intros s _.
    constructor; [eexists; reflexivity|].
    apply Forall_fmap, Forall_forall. intros t _. eexists. reflexivity.
Qed.

Lemma dry_bootstrap_no_milestone cfg w :
  milestone cfg = None →
  ∃ w', bootstrap cfg true w = (Raise (KeyError "milestone"), w') ∧
    printed (dry_project_line <$> projects cfg) w w'.
Proof.
  intros Hms. unfold bootstrap.
  destruct (dry_projects_run (projects cfg) ∅ w) as (w1 & Hrun1 & Hpr1).
  rewrite bind_run, Hrun1, bind_run. unfold getitem_milestone. rewrite Hms.
  exists w1. by split.
Qed.

Lemma dry_bootstrap_abort cfg ms w pre s post :
  milestone cfg = Some ms →
  stories cfg = pre ++ s :: post →
  stories_resolve (with_stories pre cfg) →
  s_project s ∉ (p_name <$> projects cfg) ∨ s_epic s ∉ (e_name <$> epics cfg) →
  ∃ w1, bootstrap cfg true w = (Exit 2, with_stderr (ErrMissing (s_name s)) w1) ∧
    printed (dry_lines w (with_stories pre cfg) ms) w w1.
Proof.
  intros Hms Hst Hres Hun.
  rewrite (bootstrap_cut cfg true w pre s post Hst Hun).
  destruct (dry_bootstrap_run (with_stories pre cfg) ms w Hms Hres) as (w1 & -> & Hpr).
  exists w1. by split.
Qed.

Lemma req_no_token method path js w :
  ¬ token_set w →
  _req method path js 5 w =
  (Exit 2, with_stderr ErrTokenRequired (with_env_read "SHORTCUT_TOKEN" w)).
Proof. intros Hno. rewrite req_unfold. by apply req_loop_no_token. Qed.

(** A document whose second story names a project that is not
    configured: of the eleven lines of its entities and tasks the dry run
    prints seven, then it exits with code 2.  The same document as
    [Fake.cfg1] without the milestone block: the dry run prints the
    project line only and ends in the [KeyError]. *)
Lemma dry_run_lines_counterexample :
  length (dry_lines Fake.w0 Fake.cfg_stray Fake.milestone1) = 11%nat ∧
  (bootstrap Fake.cfg_stray true Fake.w0).1 = Exit 2 ∧
  stdout (bootstrap Fake.cfg_stray true Fake.w0).2 =
    ["[dry-run] upsert project: Platform (beeai:project:platform)";
     "[dry-run] upsert milestone: MVP";
     "[dry-run] upsert epic: Agents";
     "[dry-run] upsert iteration: Sprint 1 2024-01-01..2024-01-07";
     "[dry-run] upsert story: Scaffold (proj 'Platform', epic 'Agents')";
     "[dry-run]   task: write code";
     "[dry-run]   task: write tests"] ∧
  (bootstrap Fake.cfg_no_milestone true Fake.w0).1 = Raise (KeyError "milestone") ∧
  stdout (bootstrap Fake.cfg_no_milestone true Fake.w0).2 =
    ["[dry-run] upsert project: Platform (beeai:project:platform)"].
Proof. split; [|split; [|split; [|split]]]; vm_compute; reflexivity. Qed.

(** C8, amended: a dry run sends nothing, whatever the configuration;
    every stage yields the placeholder with id 0; and it prints one
    [[dry-run]] line for every entity the run reaches, the task lines
    right after the line of their story and indented: all the lines when
    the document has a milestone and its stories resolve, the project
    lines when there is no milestone, the lines up to the first
    unresolved story otherwise. *)
Theorem dry_run_sends_nothing cfg w :
  let res := bootstrap cfg true w in
  (exchanges res.2 = exchanges w ∧ slept res.2 = slept w) ∧
  (r_id dry_placeholder = 0%Z ∧
   (∀ w0, (for_fold (projects cfg) (project_body true) ∅ w0).1 =
          Ok (dry_projects (projects cfg) ∅)) ∧
   map_Forall (λ _ r, r = dry_placeholder) (dry_projects (projects cfg) ∅) ∧
   (∀ ms w0, (milestone_stage true ms w0).1 = Ok dry_placeholder) ∧
   (∀ ms w0, (for_fold (epics cfg) (epic_body true ms) ∅ w0).1 =
             Ok (dry_epics (epics cfg) ∅)) ∧
   map_Forall (λ _ r, r = dry_placeholder) (dry_epics (epics cfg) ∅) ∧
   (∀ w0, (iteration_stage cfg true w0).1 =
          Ok ((λ _, dry_placeholder) <$> iteration cfg)) ∧
   (∀ n2p n2e it s proj epic w0,
      n2p !! s_project s = Some proj → n2e !! s_epic s = Some epic →
      story_body true n2p n2e it s w0 =
      (print (dry_story_line s);;
       for_each (enumerate 1 (s_tasks s)) (task_body true s dry_placeholder)) w0)) ∧
  (∀ ms, milestone cfg = Some ms → stories_resolve cfg →
     res.1 = Ok tt ∧ stderr res.2 = stderr w ∧
     stdout res.2 =
       stdout w ++
       (dry_project_line <$> projects cfg) ++
       [dry_milestone_line ms] ++
       (dry_epic_line <$> epics cfg) ++
       match iteration cfg with
       | Some it_cfg => [dry_iteration_line (settled_iteration w cfg it_cfg)]
       | None => []
       end ++
       concat (dry_story_lines <$> stories cfg)) ∧
  (milestone cfg = None →
     res.1 = Raise (KeyError "milestone") ∧
     stdout res.2 = stdout w ++ (dry_project_line <$> projects cfg)) ∧
  (∀ ms pre s post,
     milestone cfg = Some ms → stories cfg = pre ++ s :: post →
     stories_resolve (with_stories pre cfg) →
     s_project s ∉ (p_name <$> projects cfg) ∨ s_epic s ∉ (e_name <$> epics cfg) →
     res.1 = Exit 2 ∧
     stdout res.2 = stdout w ++ dry_lines w (with_stories pre cfg) ms ∧
     stderr res.2 = stderr w ++ [ErrMissing (s_name s)]) ∧
  (∀ ms,
     Forall (λ line, ∃ rest, line = "[dry-run] " +:+ rest) (dry_lines w cfg ms) ∧
     length (dry_lines w cfg ms) =
       (length (projects cfg) + 1 + length (epics cfg) +
        match iteration cfg with Some _ => 1 | None => 0 end + length (stories cfg) +
        sum_list (length ∘ s_tasks <$> stories cfg))%nat) ∧
  (∀ s, dry_story_lines s =
        ("[dry-run] upsert story: " +:+ s_name s +:+ " (proj '" +:+ s_project s +:+
         "', epic '" +:+ s_epic s +:+ "')") ::
        ((λ t, "[dry-run]   task: " +:+ t) <$> s_tasks s)).
Proof.
  intros res. subst res.
  split. { destruct (silent_bootstrap cfg w) as [(_ & ? & ? & _) _]. by split. }
  split.
  { split; [reflexivity|]. split.
    { intros w0. by destruct (dry_projects_run (projects cfg) ∅ w0) as (? & -> & _). }
    split. { apply dry_projects_placeholder, map_Forall_empty. }
    split. { reflexivity. }
    split.
    { intros ms w0. by destruct (dry_epics_run ms (epics cfg) ∅ w0) as (? & -> & _). }
    split. { apply dry_epics_placeholder, map_Forall_empty. }
    split. { intros w0. by destruct (dry_iteration_run cfg w0) as (? & -> & _). }
    intros n2p n2e it s proj epic w0 Hp He.
    by destruct (dry_story_run n2p n2e it s proj epic w0 Hp He) as [-> _]. }
  split.
  { intros ms Hms Hres.
    destruct (dry_bootstrap_run cfg ms w Hms Hres) as (w' & -> & _ & Herr & Hout).
    by repeat split. }
  split.
  { intros Hms.
    destruct (dry_bootstrap_no_milestone cfg w Hms) as (w' & -> & _ & _ & Hout).
    by split. }
  split.
  { intros ms pre s post Hms Hst Hres Hun.
    destruct (dry_bootstrap_abort cfg ms w pre s post Hms Hst Hres Hun)
      as (w1 & -> & _ & Herr & Hout).
    simpl. by rewrite Herr, Hout. }
  split; [|reflexivity].
  intros ms. split; [apply dry_lines_prefix|apply dry_lines_length].
Qed.

Lemma dry_run_sends_nothing_witness :
  milestone Fake.cfg1 = Some Fake.milestone1 ∧
  stories_resolve Fake.cfg1 ∧
  exchanges (bootstrap Fake.cfg1 true Fake.w_no_token).2 = [] ∧
  stdout (bootstrap Fake.cfg1 true Fake.w_no_token).2 =
    ["[dry-run] upsert project: Platform (beeai:project:platform)";
     "[dry-run] upsert milestone: MVP";
     "[dry-run] upsert epic: Agents";
     "[dry-run] upsert iteration: Sprint 1 2024-01-01..2024-01-07";
     "[dry-run] upsert story: Scaffold (proj 'Platform', epic 'Agents')";
     "[dry-run]   task: write code";
     "[dry-run]   task: write tests";
     "[dry-run] upsert story: Deploy (proj 'Platform', epic 'Agents')";
     "[dry-run]   task: ship"].
Proof.
  assert (Hres : stories_resolve Fake.cfg1).
  { intros s Hs. simpl in Hs.
    repeat (apply elem_of_cons in Hs as [->|Hs]); [..|by apply elem_of_nil in Hs];
      split; apply list_elem_of_singleton; reflexivity. }
  split; [reflexivity|]. split; [exact Hres|].
  destruct (dry_run_sends_nothing Fake.cfg1 Fake.w_no_token)
    as ((Hex & _) & _ & Hlines & _).
  destruct (Hlines Fake.milestone1 eq_refl Hres) as (_ & _ & Hout).
  split; [exact Hex|]. rewrite Hout. vm_compute. reflexivity.
Defined.

(** C9: a dry run never reads [SHORTCUT_TOKEN] and does not need it.  The
    token is read in [_hdrs], on the way to a request, and without it
    [_req] exits with code 2 before anything is sent (so does a real run
    at its first project); a dry run makes no request, and with no token
    set it completes with exit code 0. *)
Theorem dry_run_needs_no_token cfg ms w :
  ¬ token_set w →
  milestone cfg = Some ms →
  stories_resolve cfg →
  (main CmdDryRun cfg w).1 = Ok tt ∧
  exit_code (main CmdDryRun cfg w).1 = 0%Z ∧
  env_reads (main CmdDryRun cfg w).2 = env_reads w ∧
  (∀ cfg', env_reads (bootstrap cfg' true w).2 = env_reads w) ∧
  _hdrs w =
    (Exit 2, with_stderr ErrTokenRequired (with_env_read "SHORTCUT_TOKEN" w)) ∧
  (∀ method path js,
     _req method path js 5 w =
       (Exit 2, with_stderr ErrTokenRequired (with_env_read "SHORTCUT_TOKEN" w)) ∧
     exchanges (_req method path js 5 w).2 = exchanges w) ∧
  (∀ p ps, projects cfg = p :: ps →
     main CmdBootstrap cfg w =
       (Exit 2, with_stderr ErrTokenRequired (with_env_read "SHORTCUT_TOKEN" w))).
Proof.
  intros Hno Hms Hres. cbn [main].
  destruct (dry_bootstrap_run cfg ms w Hms Hres) as (w' & Hrun & (_ & _ & _ & Henv) & _).
  rewrite Hrun. cbn [fst snd exit_code].
  repeat (split; [done|]).
  split. { intros cfg'. by destruct (silent_bootstrap cfg' w) as [(_ & _ & _ & ?) _]. }
  split. { by apply hdrs_no_token. }
  split. { intros method path js. by rewrite (req_no_token _ _ _ _ Hno). }
  intros p ps Hps. unfold bootstrap. rewrite Hps. cbn [for_fold].
  unfold project_body, upsert_project, find_project_by_external_id.
  rewrite !bind_run, (req_no_token _ _ _ _ Hno). reflexivity.
Qed.

Lemma dry_run_needs_no_token_witness :
  ¬ token_set Fake.w_no_token ∧
  milestone Fake.cfg1 = Some Fake.milestone1 ∧
  stories_resolve Fake.cfg1 ∧
  exit_code (main CmdDryRun Fake.cfg1 Fake.w_no_token).1 = 0%Z ∧
  exit_code (main CmdBootstrap Fake.cfg1 Fake.w_no_token).1 = 2%Z.
Proof.
  assert (Hno : ¬ token_set Fake.w_no_token).
  { intros (t & Ht & _). vm_compute in Ht. discriminate. }
  assert (Hres : stories_resolve Fake.cfg1).
  { intros s Hs. simpl in Hs.
    repeat (apply elem_of_cons in Hs as [->|Hs]); [..|by apply elem_of_nil in Hs];
      split; apply list_elem_of_singleton; reflexivity. }
  destruct (dry_run_needs_no_token Fake.cfg1 Fake.milestone1 Fake.w_no_token
              Hno eq_refl Hres) as (_ & Hzero & _ & _ & _ & _ & Hreal).
  repeat (split; [done|]).
  by rewrite (Hreal Fake.project1 [] eq_refl).
Defined.

(** ** Upserts of records that exist *)

Lemma update_call_spec path context js w1 :
  token_set w1 → updated path js w1 (update_call path context js w1).
Proof.
  intros Htok. unfold updated, update_call. rewrite bind_run.
  pose proof (req_spec "PUT" path (Some js) w1) as Hspec. cbv zeta in Hspec.
  destruct (_req "PUT" path (Some js) 5 w1) as [[last|c|e] w2]; simpl in Hspec;
    destruct Hspec as (_ & _ & rs & Hex & Ho).
  - destruct Ho as (_ & _ & pre & -> & Hpre). exists pre, last.
    rewrite bind_run. unfold die_unless_200.
    case_bool_decide as Hst.
    + cbn. unfold json_obj. destruct (body last); by repeat split.
    + cbn. by repeat split.
  - destruct Ho as (_ & _ & Hno & _). by destruct Hno.
  - done.
Qed.

(** A lookup that returns has the token, and what it found matches. *)
Lemma list_then_find_ok path context ext w o w1 :
  (l ← (r ← _req "GET" path None 5; die_unless_200 r context;; json_list r);
   mret (List.find (ext_matches ext) l)) w = (Ok o, w1) →
  token_set w1 ∧ ∀ found, o = Some found → r_external_id found = Some ext.
Proof.
  intros H. apply bind_ok_inv in H as (l & w2 & Hlist & Hret).
  injection Hret as <- <-.
  apply bind_ok_inv in Hlist as (r & w3 & Hreq & Hrest).
  pose proof (req_spec "GET" path None w) as Hspec. cbv zeta in Hspec.
  rewrite Hreq in Hspec. simpl in Hspec.
  destruct Hspec as (Hf & _ & rs & _ & _ & Htok & _).
  assert (Hf2 : frame w3 w2).
  { apply (run_preserved frame (die_unless_200 r context;; json_list r) w3 (Ok l));
      [|exact Hrest].
    eapply preserves_weaken; [|apply (preserves_bind silent);
      [apply silent_die_unless_200|intros ?; apply silent_json_list]].
    by intros ? ? [? _]. }
  split.
  - eapply token_set_frame; [|exact Htok]. by etrans.
  - intros found Hfound. apply List.find_some in Hfound as [_ Hm].
    unfold ext_matches in Hm. by apply bool_decide_eq_true in Hm.
Qed.

Lemma find_milestone_ok ext w o w1 :
  find_milestone_by_external_id ext w = (Ok o, w1) →
  token_set w1 ∧ ∀ found, o = Some found → r_external_id found = Some ext.
Proof. apply (list_then_find_ok "/milestones" "list milestones"). Qed.

Lemma find_epic_ok ext w o w1 :
  find_epic_by_external_id ext w = (Ok o, w1) →
  token_set w1 ∧ ∀ found, o = Some found → r_external_id found = Some ext.
Proof. apply (list_then_find_ok "/epics" "list epics"). Qed.

Lemma find_iteration_ok ext w o w1 :
  find_iteration_by_external_id ext w = (Ok o, w1) →
  token_set w1 ∧ ∀ found, o = Some found → r_external_id found = Some ext.
Proof. apply (list_then_find_ok "/iterations" "list iterations"). Qed.

Lemma find_story_ok ext w o w1 :
  find_story_by_external_id ext w = (Ok o, w1) →
  token_set w1 ∧ ∀ found, o = Some found → r_external_id found = Some ext.
Proof. apply (list_then_find_ok "/stories" "list stories"). Qed.

(** C1 as stated fails for projects: when the project exists remotely,
    [upsert_project] sends the listing and nothing else, and returns the
    record it found, unchanged (here still named "Platform" although the
    document now says "Platform v2"). *)
Lemma upsert_project_counterexample :
  find_project_by_external_id (p_external_id Fake.project1_renamed) Fake.w1 =
    (Ok (Some {| r_id := 2; r_name := Some "Platform";
                 r_external_id := Some "beeai:project:platform" |}),
     (upsert_project Fake.project1_renamed Fake.w1).2) ∧
  (upsert_project Fake.project1_renamed Fake.w1).1 =
    Ok {| r_id := 2; r_name := Some "Platform";
          r_external_id := Some "beeai:project:platform" |} ∧
  drop (length (exchanges Fake.w1))
    ((λ x, (rq_method x.1, rq_url x.1)) <$>
     exchanges (upsert_project Fake.project1_renamed Fake.w1).2) =
    [("GET", "https://api.app.shortcut.com/api/v3/projects")].
Proof. split; [|split]; vm_compute; reflexivity. Qed.

Ltac upsert_found find_ok :=
  let Htok := fresh "Htok" in
  let Hext := fresh "Hext" in
  intros Hfind;
  destruct (find_ok _ _ _ _ Hfind) as [Htok Hext];
  split; [by apply Hext|];
  match goal with
  | |- ?lhs = ?rhs ∧ _ =>
      assert (lhs = rhs) as ->; [|split; [reflexivity|]]
  end;
  [ unfold upsert_milestone, upsert_epic, upsert_iteration, upsert_story;
    by rewrite bind_run, Hfind
  | by apply update_call_spec ].

(** C1, amended: for milestone, epic, iteration and story, when the
    lookup finds a remote record with the external id of the desired
    record, the upsert is the update of that record: a [PUT] to the
    collection path followed by the numeric id of the record found,
    carrying the whole payload built from the desired record (for an
    iteration, without the entries whose value is falsy), sent again after
    each retryable response; it returns the record of the response when
    the final status is 200 and exits with code 2 otherwise.  It is an
    overwrite with the configured fields on every such run. *)
Theorem upsert_updates_found w :
  (∀ m found w1,
     find_milestone_by_external_id (m_external_id m) w = (Ok (Some found), w1) →
     r_external_id found = Some (m_external_id m) ∧
     upsert_milestone m w =
       update_milestone (r_id found) (milestone_payload m) w1 ∧
     updated ("/milestones/" +:+ pretty (r_id found)) (milestone_payload m) w1
       (update_milestone (r_id found) (milestone_payload m) w1)) ∧
  (∀ e milestone_id found w1,
     find_epic_by_external_id (e_external_id e) w = (Ok (Some found), w1) →
     r_external_id found = Some (e_external_id e) ∧
     upsert_epic e milestone_id w =
       update_epic (r_id found) (epic_payload e milestone_id) w1 ∧
     updated ("/epics/" +:+ pretty (r_id found)) (epic_payload e milestone_id) w1
       (update_epic (r_id found) (epic_payload e milestone_id) w1)) ∧
  (∀ i found w1,
     find_iteration_by_external_id (i_external_id i) w = (Ok (Some found), w1) →
     r_external_id found = Some (i_external_id i) ∧
     upsert_iteration i w = update_iteration (r_id found) (iteration_json i) w1 ∧
     updated ("/iterations/" +:+ pretty (r_id found)) (iteration_json i) w1
       (update_iteration (r_id found) (iteration_json i) w1)) ∧
  (∀ s found w1,
     find_story_by_external_id (sp_external_id s) w = (Ok (Some found), w1) →
     r_external_id found = Some (sp_external_id s) ∧
     upsert_story s w = update_story (r_id found) (story_json s) w1 ∧
     updated ("/stories/" +:+ pretty (r_id found)) (story_json s) w1
       (update_story (r_id found) (story_json s) w1)) ∧
  (∀ m, milestone_payload m =
        [("name", JStr (m_name m));
         ("description", JStr (default "" (m_description m)));
         ("state", JStr (default "to_do" (m_state m)));
         ("external_id", JStr (m_external_id m))]) ∧
  (∀ e milestone_id, epic_payload e milestone_id =
        [("name", JStr (e_name e));
         ("description", JStr (default "" (e_description e)));
         ("milestone_id", JInt milestone_id);
         ("labels", JList (default [] (e_labels e)));
         ("external_id", JStr (e_external_id e))]) ∧
  (∀ i, iteration_json i =
        filter (λ kv, truthy kv.2 = true)
          [("name", JStr (i_name i));
           ("start_date", opt_json (i_start_date i));
           ("end_date", opt_json (i_end_date i));
           ("external_id", JStr (i_external_id i))]).
Proof.
  split; [|split; [|split; [|split; [|by repeat split]]]].
  - intros m found w1. upsert_found find_milestone_ok.
  - intros e mid found w1. upsert_found find_epic_ok.
  - intros i found w1. upsert_found find_iteration_ok.
  - intros s found w1. upsert_found find_story_ok.
Qed.

Lemma upsert_updates_found_witness :
  let found := {| r_id := 4; r_name := Some "MVP";
                  r_external_id := Some "beeai:milestone:mvp" |} in
  let w1 := (find_milestone_by_external_id "beeai:milestone:mvp" Fake.w1).2 in
  find_milestone_by_external_id (m_external_id Fake.milestone1_done) Fake.w1 =
    (Ok (Some found), w1) ∧
  upsert_milestone Fake.milestone1_done Fake.w1 =
    update_milestone 4 (milestone_payload Fake.milestone1_done) w1 ∧
  (upsert_milestone Fake.milestone1_done Fake.w1).1 =
    Ok {| r_id := 4; r_name := Some "MVP";
          r_external_id := Some "beeai:milestone:mvp" |}.
Proof.
  intros found w1.
  assert (Hfind : find_milestone_by_external_id (m_external_id Fake.milestone1_done)
                    Fake.w1 = (Ok (Some found), w1)) by (vm_compute; reflexivity).
  split; [exact Hfind|].
  destruct (upsert_updates_found Fake.w1) as (H & _).
  destruct (H Fake.milestone1_done found w1 Hfind) as (_ & Hup & _).
  split; [exact Hup|]. vm_compute. reflexivity.
Defined.

(** ** The dates of the iteration *)

Lemma weekday_monday today :
  let monday := (today - weekday today)%Z in
  weekday monday = 0%Z ∧ (monday ≤ today < monday + 7)%Z ∧
  ∀ d, weekday d = 0%Z → (d ≤ today < d + 7)%Z → d = monday.
Proof.
  unfold weekday. cbv zeta. repeat split; try intros d Hd Hrange;
    Z.div_mod_to_equations; lia.
Qed.

Lemma str_truthy_app a b c : str_truthy (a +:+ String c b) = true.
Proof. by destruct a. Qed.

Lemma isoformat_truthy d : str_truthy (isoformat d) = true.
Proof.
  unfold isoformat. destruct (civil d) as [[y m] dd].
  apply str_truthy_app.
Qed.

Lemma iso_week_dates_run tzname n w :
  _iso_week_dates tzname n w =
  (Ok (isoformat (clock w tzname - weekday (clock w tzname)),
       isoformat (clock w tzname - weekday (clock w tzname) + (n - 1))), w).
Proof. reflexivity. Qed.

Lemma settled_computed w cfg it_cfg :
  opt_truthy (i_start_date it_cfg) && opt_truthy (i_end_date it_cfg) = false →
  settled_iteration w cfg it_cfg =
  {| i_name := i_name it_cfg;
     i_start_date := Some (isoformat (week_monday w cfg));
     i_end_date := Some (isoformat (week_end w cfg));
     i_external_id := i_external_id it_cfg |}.
Proof. intros H. unfold settled_iteration. by rewrite H. Qed.

Lemma iteration_stage_real cfg it_cfg w :
  iteration cfg = Some it_cfg →
  iteration_stage cfg false w =
  (iteration ← upsert_iteration (settled_iteration w cfg it_cfg);
   nm ← getitem_name iteration;
   print ("[ok] iteration: " +:+ nm +:+ " id=" +:+ pretty (r_id iteration));;
   mret (Some iteration)) w.
Proof.
  intros Hit. unfold iteration_stage. rewrite Hit.
  by rewrite bind_run, iteration_payload_run.
Qed.

Lemma iteration_stage_dry cfg it_cfg w :
  iteration cfg = Some it_cfg →
  iteration_stage cfg true w =
  (Ok (Some dry_placeholder),
   with_stdout (dry_iteration_line (settled_iteration w cfg it_cfg)) w).
Proof.
  intros Hit. unfold iteration_stage. rewrite Hit.
  by rewrite bind_run, iteration_payload_run.
Qed.

Lemma iteration_json_dates i s e :
  i_start_date i = Some s → i_end_date i = Some e →
  str_truthy s = true → str_truthy e = true →
  ("start_date", JStr s) ∈ iteration_json i ∧ ("end_date", JStr e) ∈ iteration_json i.
Proof.
  intros Hs He Hst Het. unfold iteration_json. rewrite Hs, He.
  split; apply list_elem_of_filter; (split; [simpl; done|]); set_solver.
Qed.

(** C7: when the configured iteration lacks an explicit start or end
    date, the start date is the Monday of the current ISO week in the
    configured timezone (the one Monday among today and the six days
    before it) and the end date is that Monday plus
    [iteration_length_days - 1] days; these are the dates of the payload
    that is upserted, and of the dry-run line.  For the timezone UTC, a
    length of 7 and a Wednesday, the start is two days before today and
    the end six days after the start: 2024-01-01 and 2024-01-07 for
    Wednesday 2024-01-03. *)
Theorem iteration_dates_from_iso_week cfg it_cfg w :
  iteration cfg = Some it_cfg →
  opt_truthy (i_start_date it_cfg) && opt_truthy (i_end_date it_cfg) = false →
  let tzname := default "UTC" (timezone (org cfg)) in
  let days := default 7%Z (iteration_length_days (org cfg)) in
  let today := clock w tzname in
  let monday := (today - weekday today)%Z in
  let computed :=
    {| i_name := i_name it_cfg;
       i_start_date := Some (isoformat monday);
       i_end_date := Some (isoformat (monday + (days - 1)));
       i_external_id := i_external_id it_cfg |} in
  (weekday monday = 0%Z ∧ (monday ≤ today < monday + 7)%Z ∧
   ∀ d, weekday d = 0%Z → (d ≤ today < d + 7)%Z → d = monday) ∧
  _iso_week_dates tzname days w =
    (Ok (isoformat monday, isoformat (monday + (days - 1))), w) ∧
  iteration_payload cfg it_cfg w = (Ok computed, w) ∧
  iteration_stage cfg false w =
    (iteration ← upsert_iteration computed;
     nm ← getitem_name iteration;
     print ("[ok] iteration: " +:+ nm +:+ " id=" +:+ pretty (r_id iteration));;
     mret (Some iteration)) w ∧
  iteration_stage cfg true w =
    (Ok (Some dry_placeholder),
     with_stdout ("[dry-run] upsert iteration: " +:+ i_name it_cfg +:+ " " +:+
                  isoformat monday +:+ ".." +:+ isoformat (monday + (days - 1))) w) ∧
  (weekday (clock w "UTC") = 2%Z →
   _iso_week_dates "UTC" 7 w =
     (Ok (isoformat (clock w "UTC" - 2), isoformat (clock w "UTC" - 2 + 6)), w)) ∧
  (clock w "UTC" = 738888%Z →
   weekday (clock w "UTC") = 2%Z ∧
   _iso_week_dates "UTC" 7 w = (Ok ("2024-01-01", "2024-01-07"), w)).
Proof.
  intros Hit Hlack tzname days today monday computed.
  split; [apply weekday_monday|]. split; [reflexivity|].
  assert (Hset : settled_iteration w cfg it_cfg = computed)
    by (by apply settled_computed).
  split; [by rewrite iteration_payload_run, Hset|].
  split; [by rewrite (iteration_stage_real cfg it_cfg w Hit), Hset|].
  split; [by rewrite (iteration_stage_dry cfg it_cfg w Hit), Hset|].
  split.
  - intros Hwed. rewrite iso_week_dates_run, Hwed. reflexivity.
  - intros Hnow. rewrite iso_week_dates_run, Hnow. split; reflexivity.
Qed.

Lemma iteration_dates_from_iso_week_witness :
  iteration Fake.cfg1 = Some Fake.iteration1 ∧
  opt_truthy (i_start_date Fake.iteration1) &&
    opt_truthy (i_end_date Fake.iteration1) = false ∧
  iteration_payload Fake.cfg1 Fake.iteration1 Fake.w0 =
    (Ok {| i_name := "Sprint 1";
           i_start_date := Some "2024-01-01";
           i_end_date := Some "2024-01-07";
           i_external_id := "beeai:iteration:1" |}, Fake.w0).
Proof.
  split; [reflexivity|]. split; [reflexivity|].
  destruct (iteration_dates_from_iso_week Fake.cfg1 Fake.iteration1 Fake.w0)
    as (_ & _ & H & _); [reflexivity|reflexivity|].
  rewrite H. vm_compute. reflexivity.
Defined.

(** C10: when the configured iteration supplies only one of the two
    dates, or a falsy value for either, what it supplies is discarded:
    both dates of the payload are the computed ones (the Monday of the
    current week and the day [iteration_length_days - 1] days later), and
    both are sent.  For every iteration block the payload carries either
    the two configured dates or the two computed dates, never one of
    each. *)
Theorem iteration_dates_all_or_none cfg it_cfg w :
  opt_truthy (i_start_date it_cfg) = false ∨ opt_truthy (i_end_date it_cfg) = false →
  let tzname := default "UTC" (timezone (org cfg)) in
  let days := default 7%Z (iteration_length_days (org cfg)) in
  let monday := (clock w tzname - weekday (clock w tzname))%Z in
  let computed :=
    {| i_name := i_name it_cfg;
       i_start_date := Some (isoformat monday);
       i_end_date := Some (isoformat (monday + (days - 1)));
       i_external_id := i_external_id it_cfg |} in
  iteration_payload cfg it_cfg w = (Ok computed, w) ∧
  (iteration cfg = Some it_cfg →
   iteration_stage cfg false w =
     (iteration ← upsert_iteration computed;
      nm ← getitem_name iteration;
      print ("[ok] iteration: " +:+ nm +:+ " id=" +:+ pretty (r_id iteration));;
      mret (Some iteration)) w ∧
   iteration_stage cfg true w =
     (Ok (Some dry_placeholder), with_stdout (dry_iteration_line computed) w)) ∧
  ("start_date", JStr (isoformat monday)) ∈ iteration_json computed ∧
  ("end_date", JStr (isoformat (monday + (days - 1)))) ∈ iteration_json computed ∧
  (∀ other, ∃ p,
     iteration_payload cfg other w = (Ok p, w) ∧
     ((opt_truthy (i_start_date other) = true ∧ opt_truthy (i_end_date other) = true ∧
       i_start_date p = i_start_date other ∧ i_end_date p = i_end_date other) ∨
      (i_start_date p = Some (isoformat monday) ∧
       i_end_date p = Some (isoformat (monday + (days - 1)))))).
Proof.
  intros Hfalsy tzname days monday computed.
  assert (Hlack : opt_truthy (i_start_date it_cfg) && opt_truthy (i_end_date it_cfg)
                  = false).
  { destruct Hfalsy as [-> | ->]; [done|apply andb_false_r]. }
  assert (Hset : settled_iteration w cfg it_cfg = computed)
    by (by apply settled_computed).
  split; [by rewrite iteration_payload_run, Hset|].
  split.
  { intros Hit. split.
    - by rewrite (iteration_stage_real cfg it_cfg w Hit), Hset.
    - by rewrite (iteration_stage_dry cfg it_cfg w Hit), Hset. }
  split; [|split].
  - apply (iteration_json_dates computed _ _ eq_refl eq_refl); apply isoformat_truthy.
  - apply (iteration_json_dates computed _ _ eq_refl eq_refl); apply isoformat_truthy.
  - intros other. exists (settled_iteration w cfg other).
    split; [apply iteration_payload_run|].
    unfold settled_iteration.
    destruct (opt_truthy (i_start_date other)), (opt_truthy (i_end_date other));
      simpl; auto.
Qed.

Lemma iteration_dates_all_or_none_witness :
  (opt_truthy (i_start_date Fake.iteration_half) = false ∨
   opt_truthy (i_end_date Fake.iteration_half) = false) ∧
  i_start_date Fake.iteration_half = Some "2030-05-05" ∧
  iteration_payload Fake.cfg_half Fake.iteration_half Fake.w0 =
    (Ok {| i_name := "Sprint 1";
           i_start_date := Some "2024-01-01";
           i_end_date := Some "2024-01-07";
           i_external_id := "beeai:iteration:1" |}, Fake.w0).
Proof.
  assert (H : opt_truthy (i_start_date Fake.iteration_half) = false ∨
              opt_truthy (i_end_date Fake.iteration_half) = false)
    by (right; reflexivity).
  split; [exact H|]. split; [reflexivity|].
  destruct (iteration_dates_all_or_none Fake.cfg_half Fake.iteration_half Fake.w0 H)
    as (Hp & _).
  rewrite Hp. vm_compute. reflexivity.
Defined.

(** * Further properties *)

(** ** The attempts and the sleeps of [_req] *)

(** How many requests and sleeps a call of the retry loop makes: at most
    one request per attempt, a sleep after every request but possibly the
    last. *)
Lemma req_loop_bounds method path js attempts :
  ∀ resp w,
    let res := _req_loop method (API_BASE w +:+ path) js attempts resp w in
    ∃ n k : nat,
      (n ≤ length attempts)%nat ∧ (k ≤ n)%nat ∧ (n - 1 ≤ k)%nat ∧
      length (exchanges res.2) = (length (exchanges w) + n)%nat ∧
      slept res.2 = slept w ++ (backoff <$> take k attempts) ∧
      (token_set w → attempts ≠ [] → (1 ≤ n)%nat) ∧
      (¬ token_set w → n = 0%nat).
Proof.
  induction attempts as [|a rest IH]; intros resp w res.
  - exists 0%nat, 0%nat. subst res. cbn [_req_loop].
    destruct resp; simpl; rewrite app_nil_r; repeat split; (lia || done).
  - destruct (token_set_dec w) as [Htok|Hno].
    + subst res. rewrite (req_loop_step _ _ _ _ _ _ _ Htok). cbv zeta.
      set (rq := request_of w method path js).
      set (r := service w (exchanges w) rq).
      destruct (retryable (status_code r)) eqn:Hr.
      * set (w2 := with_sleep _ _).
        destruct (IH (Some r) w2) as (n & k & Hn & Hk & Hk' & Hlen & Hsl & _ & _).
        change (API_BASE w2) with (API_BASE w) in *.
        exists (S n), (S k). simpl in *.
        split; [lia|]. split; [lia|]. split; [lia|].
        split. { rewrite Hlen, length_app. simpl. lia. }
        split. { rewrite Hsl, <- app_assoc. done. }
        split; [lia|]. done.
      * exists 1%nat, 0%nat. simpl. rewrite length_app, app_nil_r. simpl.
        repeat split; (lia || done).
    + subst res. rewrite (req_loop_no_token _ _ _ _ _ _ _ Hno).
      exists 0%nat, 0%nat. simpl. rewrite app_nil_r.
      repeat split; (lia || done).
Qed.

(** X1: [_req] with a [retry] of zero or less makes no attempt: it sends
    nothing, does not even read the token, and ends in the unbound local
    [resp].  With a positive [retry] and the token set it sends at least
    one request and at most [retry], and sleeps after every request but
    possibly the last. *)
Theorem req_attempts_bounded method path js retry w :
  let res := _req method path js retry w in
  ((retry ≤ 0)%Z → res = (Raise UnboundLocalError, w)) ∧
  ((0 < retry)%Z → token_set w →
   ∃ n k : nat,
     (1 ≤ n ≤ Z.to_nat retry)%nat ∧ (n - 1 ≤ k ≤ n)%nat ∧
     length (exchanges res.2) = (length (exchanges w) + n)%nat ∧
     length (slept res.2) = (length (slept w) + k)%nat ∧
     Forall (λ x, x.1 = request_of w method path js)
       (drop (length (exchanges w)) (exchanges res.2))).
Proof.
  intros res. subst res. split.
  - intros Hle. unfold _req. rewrite bind_run. cbn [get_API_BASE].
    by rewrite seqZ_nil.
  - intros Hpos Htok. unfold _req. rewrite bind_run. cbn [get_API_BASE].
    pose proof (req_loop_bounds method path js (seqZ 1 retry) None w) as Hb.
    pose proof (req_loop_spec method path js (seqZ 1 retry) None w) as Hs.
    cbv zeta in Hb, Hs.
    destruct (_req_loop method (API_BASE w +:+ path) js (seqZ 1 retry) None w)
      as [o w'].
    destruct Hb as (n & k & Hn & Hk & Hk' & Hlen & Hsl & Hone & _).
    destruct Hs as (_ & _ & rs & Hex & _).
    rewrite length_seqZ in Hn. simpl in *.
    exists n, k. split.
    { split; [|lia]. apply Hone; [done|]. intros Hnil.
      apply (f_equal length) in Hnil. rewrite length_seqZ in Hnil. simpl in Hnil. lia. }
    split; [lia|]. split; [done|]. split.
    { rewrite Hsl, length_app, length_fmap, length_take, length_seqZ. lia. }
    rewrite Hex, drop_app_length. apply Forall_fmap, Forall_forall. by intros.
Qed.

Lemma req_attempts_bounded_witness :
  _req "GET" "/projects" None 0 Fake.w0 = (Raise UnboundLocalError, Fake.w0) ∧
  length (exchanges (_req "GET" "/projects" None 3 Fake.w_flaky).2) = 3%nat.
Proof.
  split.
  - destruct (req_attempts_bounded "GET" "/projects" None 0 Fake.w0) as [H _].
    apply H. lia.
  - vm_compute. reflexivity.
Defined.

(** X2: one call of [_req] with the default [retry] sends at most five
    requests and sleeps after at most five of them, for 0.5, 1, 2, 4 and
    8 seconds in this order: never more than 8 seconds at a time and never
    more than 15.5 seconds in all; it prints nothing. *)
Theorem req_sleep_bounded method path js w :
  let res := _req method path js 5 w in
  ∃ n k : nat,
    (k ≤ n ≤ 5)%nat ∧
    length (exchanges res.2) = (length (exchanges w) + n)%nat ∧
    slept res.2 = slept w ++ take k [500; 1000; 2000; 4000; 8000]%Z ∧
    Forall (λ ms, (ms ≤ 8000)%Z) (take k [500; 1000; 2000; 4000; 8000]%Z) ∧
    (total (take k [500; 1000; 2000; 4000; 8000]%Z) ≤ 15500)%Z ∧
    stdout res.2 = stdout w.
Proof.
  intros res. subst res. rewrite req_unfold.
  pose proof (req_loop_bounds method path js [1; 2; 3; 4; 5]%Z None w) as Hb.
  pose proof (req_loop_spec method path js [1; 2; 3; 4; 5]%Z None w) as Hs.
  cbv zeta in Hb, Hs.
  destruct (_req_loop method (API_BASE w +:+ path) js [1; 2; 3; 4; 5]%Z None w)
    as [o w'].
  destruct Hb as (n & k & Hn & Hk & _ & Hlen & Hsl & _).
  destruct Hs as (_ & Hout & _). cbn [fst snd] in *.
  exists n, k. split; [simpl in Hn; lia|]. split; [done|].
  rewrite fmap_take in Hsl. split; [exact Hsl|]. split; [|split; [|done]].
  - apply Forall_take. repeat constructor; lia.
  - destruct k as [|[|[|[|[|[|k]]]]]]; vm_compute; discriminate.
Qed.

(** ** Which calls each helper makes *)

Lemma sent_frame w w1 allowed new :
  frame w w1 → sent w1 allowed new → sent w allowed new.
Proof.
  intros Hf Hs. unfold sent in *. eapply Forall_impl; [exact Hs|].
  intros x (m & p & js & Hx & Ha).
  exists m, p, js. by rewrite <- (request_of_frame w w1 _ _ _ Hf).
Qed.

Lemma sent_mono w (A B : string → string → option payload → Prop) new :
  (∀ m p js, A m p js → B m p js) → sent w A new → sent w B new.
Proof.
  intros HAB Hs. unfold sent in *. eapply Forall_impl; [exact Hs|].
  intros x (m & p & js & Hx & Ha). exists m, p, js. auto.
Qed.

#[local] Instance still_preorder : PreOrder still.
Proof.
  split.
  - intros w. by split.
  - intros w1 w2 w3 [Hs1 Ho1] [Hs2 Ho2]. split; [by etrans|congruence].
Qed.

#[local] Instance calls_preorder allowed : PreOrder (calls allowed).
Proof.
  split.
  - intros w. split; [reflexivity|]. split; [done|].
    exists []. rewrite app_nil_r. split; [done|constructor].
  - intros w1 w2 w3 (Hf1 & Ho1 & new1 & Hex1 & Hs1) (Hf2 & Ho2 & new2 & Hex2 & Hs2).
    split; [by etrans|]. split; [congruence|].
    exists (new1 ++ new2). split; [by rewrite Hex2, Hex1, app_assoc|].
    apply Forall_app. split; [done|]. by eapply sent_frame.
Qed.

Lemma still_calls allowed w w' : still w w' → calls allowed w w'.
Proof.
  intros [(Hf & Hex & _) Hout]. split; [done|]. split; [done|].
  exists []. rewrite app_nil_r. split; [done|constructor].
Qed.

Lemma calls_mono (A B : string → string → option payload → Prop) w w' :
  (∀ m p js, A m p js → B m p js) → calls A w w' → calls B w w'.
Proof.
  intros HAB (Hf & Hout & new & Hex & Hs). split; [done|]. split; [done|].
  exists new. split; [done|]. by eapply sent_mono.
Qed.

Lemma preserves_still_calls {A} allowed (m : M A) :
  preserves still m → preserves (calls allowed) m.
Proof. apply preserves_weaken. intros w w'. apply still_calls. Qed.

Lemma preserves_calls_mono {T} (A B : string → string → option payload → Prop)
    (m : M T) :
  (∀ me p js, A me p js → B me p js) →
  preserves (calls A) m → preserves (calls B) m.
Proof. intros HAB. apply preserves_weaken. intros w w'. by apply calls_mono. Qed.

Ltac still_now_tac :=
  intros w; split; [by repeat split | simpl; congruence].

Lemma still_eprint line : preserves still (eprint line).
Proof. still_now_tac. Qed.

Lemma still_json_list r : preserves still (json_list r).
Proof. unfold json_list. destruct (body r); still_now_tac. Qed.

Lemma still_json_obj r : preserves still (json_obj r).
Proof. unfold json_obj. destruct (body r); still_now_tac. Qed.

Lemma still_die {A} r context : preserves still (@_die A r context).
Proof. still_now_tac. Qed.

Lemma still_die_unless_200 r context : preserves still (die_unless_200 r context).
Proof.
  unfold die_unless_200. case_bool_decide; [apply preserves_ret, _|apply still_die].
Qed.

Lemma still_die_unless_created r context :
  preserves still (die_unless_created r context).
Proof.
  unfold die_unless_created.
  case_bool_decide; [apply preserves_ret, _|apply still_die].
Qed.

Lemma req_calls (allowed : string → string → option payload → Prop) method path js :
  allowed method path js → preserves (calls allowed) (_req method path js 5).
Proof.
  intros Ha w. destruct (req_spec method path js w) as (Hf & Hout & rs & Hex & Ho).
  split.
  - split; [exact Hf|]. split; [exact Hout|]. eexists. split; [exact Hex|].
    apply Forall_fmap, Forall_forall. intros r _. by exists method, path, js.
  - intros c Hc. rewrite Hc in Ho. by destruct Ho.
Qed.

Lemma updates_path coll body (n : Z) path :
  path = coll +:+ "/" +:+ pretty n → updates coll body "PUT" path (Some body).
Proof. intros ->. repeat split. by exists n. Qed.

Ltac call_step :=
  lazymatch goal with
  | |- preserves (calls _) (_req _ _ _ _) =>
      apply req_calls;
      first [ by left
            | by (right; left)
            | right; right; by eapply updates_path
            | by repeat split ]
  | |- preserves (calls _) (json_list _) =>
      apply preserves_still_calls, still_json_list
  | |- preserves (calls _) (json_obj _) =>
      apply preserves_still_calls, still_json_obj
  | |- preserves (calls _) (die_unless_200 _ _) =>
      apply preserves_still_calls, still_die_unless_200
  | |- preserves (calls _) (die_unless_created _ _) =>
      apply preserves_still_calls, still_die_unless_created
  | |- _ => keep_step
  end.

Lemma calls_find_project ext :
  preserves (calls (lists "/projects")) (find_project_by_external_id ext).
Proof.
  unfold find_project_by_external_id. repeat call_step.
Qed.

Lemma calls_find_milestone ext :
  preserves (calls (lists "/milestones")) (find_milestone_by_external_id ext).
Proof.
  unfold find_milestone_by_external_id, get_milestones. repeat call_step.
Qed.

Lemma calls_find_epic ext :
  preserves (calls (lists "/epics")) (find_epic_by_external_id ext).
Proof. unfold find_epic_by_external_id, list_epics. repeat call_step. Qed.

Lemma calls_find_iteration ext :
  preserves (calls (lists "/iterations")) (find_iteration_by_external_id ext).
Proof. unfold find_iteration_by_external_id, list_iterations. repeat call_step. Qed.

Lemma calls_find_story ext :
  preserves (calls (lists "/stories")) (find_story_by_external_id ext).
Proof. unfold find_story_by_external_id, list_stories. repeat call_step. Qed.

Lemma calls_upsert_project p :
  preserves
    (calls (λ method path js,
              lists "/projects" method path js ∨
              creates "/projects" (project_payload p) method path js))
    (upsert_project p).
Proof.
  unfold upsert_project. apply preserves_bind; [apply _| |].
  - eapply preserves_calls_mono; [|apply calls_find_project]. by left.
  - intros [found|]; [apply preserves_ret, _|].
    eapply preserves_calls_mono; [intros me pa js H; right; exact H|].
    unfold create_project, project_payload. repeat call_step.
Qed.

Lemma calls_upsert_milestone m :
  preserves (calls (upserts "/milestones" (milestone_payload m))) (upsert_milestone m).
Proof.
  unfold upsert_milestone, find_milestone_by_external_id, get_milestones.
  repeat call_step; [unfold update_milestone|unfold create_milestone];
    repeat call_step.
Qed.

Lemma calls_upsert_epic e mid :
  preserves (calls (upserts "/epics" (epic_payload e mid))) (upsert_epic e mid).
Proof.
  unfold upsert_epic, find_epic_by_external_id, list_epics.
  repeat call_step; [unfold update_epic|unfold create_epic]; repeat call_step.
Qed.

Lemma calls_upsert_iteration i :
  preserves (calls (upserts "/iterations" (iteration_json i))) (upsert_iteration i).
Proof.
  unfold upsert_iteration, find_iteration_by_external_id, list_iterations.
  repeat call_step; [unfold update_iteration|unfold create_iteration];
    repeat call_step.
Qed.

Lemma calls_upsert_story s :
  preserves (calls (upserts "/stories" (story_json s))) (upsert_story s).
Proof.
  unfold upsert_story, find_story_by_external_id, list_stories.
  repeat call_step; [unfold update_story|unfold create_story]; repeat call_step.
Qed.

Lemma calls_create_task js :
  preserves (calls (creates "/tasks" js)) (create_task js).
Proof. unfold create_task. repeat call_step. Qed.

(** ** Lookups *)

Lemma find_first_match ext l :
  first_match ext l (List.find (ext_matches ext) l).
Proof.
  induction l as [|r l IH]; simpl; [constructor|].
  unfold ext_matches at 1. case_bool_decide as Hr.
  - exists [], l. by repeat split.
  - destruct (List.find (ext_matches ext) l) as [found|]; simpl in *.
    + destruct IH as (before & after & -> & Hext & Hbefore).
      exists (r :: before), after. repeat split; [done|by constructor].
    + by constructor.
Qed.

Lemma lookup_after_listing path context ext r w w1 :
  _req "GET" path None 5 w = (Ok r, w1) →
  lookup_result context ext r w1
    ((r ← _req "GET" path None 5;
      die_unless_200 r context;;
      l ← json_list r;
      mret (List.find (ext_matches ext) l)) w).
Proof.
  intros Hreq. unfold lookup_result. rewrite bind_run, Hreq, bind_run.
  unfold die_unless_200. case_bool_decide as Hst; [|reflexivity].
  cbn [mret M_ret]. rewrite bind_run. unfold json_list.
  destruct (body r) as [l| |]; try reflexivity.
  eexists. split; [reflexivity|]. apply find_first_match.
Qed.

Lemma lookup_after_listing' path context ext r w w1 :
  _req "GET" path None 5 w = (Ok r, w1) →
  lookup_result context ext r w1
    ((l ← (r ← _req "GET" path None 5; die_unless_200 r context;; json_list r);
      mret (List.find (ext_matches ext) l)) w).
Proof.
  intros Hreq. unfold lookup_result. rewrite !bind_run, Hreq, bind_run.
  unfold die_unless_200. case_bool_decide as Hst; [|reflexivity].
  cbn [mret M_ret]. unfold json_list.
  destruct (body r) as [l| |]; try reflexivity.
  eexists. split; [reflexivity|]. apply find_first_match.
Qed.

(** X3: each of the five lookups asks for the whole collection and, when
    the listing is answered 200 with a list, returns the first record of
    the list, in list order, whose external id equals the one looked for
    (so of two records with the same external id the earlier one), and
    nothing when no record has it.  Any other final status is fatal:
    the error line names the listing and the process exits with code 2.
    A lookup only ever sends the [GET] of its own collection. *)
Theorem lookup_returns_first_match ext w :
  (∀ r w1, _req "GET" "/projects" None 5 w = (Ok r, w1) →
     lookup_result "list projects" ext r w1 (find_project_by_external_id ext w)) ∧
  (∀ r w1, _req "GET" "/milestones" None 5 w = (Ok r, w1) →
     lookup_result "list milestones" ext r w1 (find_milestone_by_external_id ext w)) ∧
  (∀ r w1, _req "GET" "/epics" None 5 w = (Ok r, w1) →
     lookup_result "list epics" ext r w1 (find_epic_by_external_id ext w)) ∧
  (∀ r w1, _req "GET" "/iterations" None 5 w = (Ok r, w1) →
     lookup_result "list iterations" ext r w1 (find_iteration_by_external_id ext w)) ∧
  (∀ r w1, _req "GET" "/stories" None 5 w = (Ok r, w1) →
     lookup_result "list stories" ext r w1 (find_story_by_external_id ext w)) ∧
  calls (lists "/projects") w (find_project_by_external_id ext w).2 ∧
  calls (lists "/milestones") w (find_milestone_by_external_id ext w).2 ∧
  calls (lists "/epics") w (find_epic_by_external_id ext w).2 ∧
  calls (lists "/iterations") w (find_iteration_by_external_id ext w).2 ∧
  calls (lists "/stories") w (find_story_by_external_id ext w).2.
Proof.
  split; [intros r w1; apply lookup_after_listing|].
  split; [intros r w1; apply lookup_after_listing'|].
  split; [intros r w1; apply lookup_after_listing'|].
  split; [intros r w1; apply lookup_after_listing'|].
  split; [intros r w1; apply lookup_after_listing'|].
  split; [apply calls_find_project|].
  split; [apply calls_find_milestone|].
  split; [apply calls_find_epic|].
  split; [apply calls_find_iteration|apply calls_find_story].
Qed.

Lemma lookup_returns_first_match_witness :
  let r := {| status_code := 200;
              body := BList [{| r_id := 10; r_name := Some "Scaffold";
                                r_external_id := Some "story-1" |};
                             {| r_id := 14; r_name := Some "Deploy";
                                r_external_id := Some "story-2" |}] |} in
  let w1 := (_req "GET" "/stories" None 5 Fake.w1).2 in
  _req "GET" "/stories" None 5 Fake.w1 = (Ok r, w1) ∧
  find_story_by_external_id "story-2" Fake.w1 =
    (Ok (Some {| r_id := 14; r_name := Some "Deploy";
                 r_external_id := Some "story-2" |}), w1) ∧
  lookup_result "list stories" "story-2" r w1
    (find_story_by_external_id "story-2" Fake.w1).
Proof.
  intros r w1.
  assert (Hreq : _req "GET" "/stories" None 5 Fake.w1 = (Ok r, w1))
    by (vm_compute; reflexivity).
  split; [exact Hreq|]. split; [vm_compute; reflexivity|].
  destruct (lookup_returns_first_match "story-2" Fake.w1) as (_ & _ & _ & _ & H & _).
  by apply H.
Defined.

(** ** Upserts of records that do not exist *)

Lemma create_call_spec path context js w1 :
  token_set w1 →
  created path js w1
    ((r ← _req "POST" path (Some js) 5; die_unless_created r context;; json_obj r) w1).
Proof.
  intros Htok. unfold created. rewrite bind_run.
  pose proof (req_spec "POST" path (Some js) w1) as Hspec. cbv zeta in Hspec.
  destruct (_req "POST" path (Some js) 5 w1) as [[last|c|e] w2]; simpl in Hspec;
    destruct Hspec as (_ & _ & rs & Hex & Ho).
  - destruct Ho as (_ & _ & pre & -> & Hpre). exists pre, last.
    rewrite bind_run. unfold die_unless_created.
    case_bool_decide as Hst.
    + cbn. unfold json_obj. destruct (body last); by repeat split.
    + cbn. by repeat split.
  - destruct Ho as (_ & _ & Hno & _). by destruct Hno.
  - done.
Qed.

Lemma find_project_ok ext w o w1 :
  find_project_by_external_id ext w = (Ok o, w1) →
  token_set w1 ∧ ∀ found, o = Some found → r_external_id found = Some ext.
Proof.
  intros H. unfold find_project_by_external_id in H.
  apply bind_ok_inv in H as (r & w2 & Hreq & H).
  apply bind_ok_inv in H as ([] & w3 & Hdie & H).
  apply bind_ok_inv in H as (l & w4 & Hlist & Hret).
  injection Hret as <- <-.
  pose proof (req_spec "GET" "/projects" None w) as Hspec. cbv zeta in Hspec.
  rewrite Hreq in Hspec. simpl in Hspec.
  destruct Hspec as (Hf & _ & rs & _ & _ & Htok & _).
  assert (Hf2 : frame w2 w3).
  { eapply (run_preserved frame); [|exact Hdie].
    eapply preserves_weaken; [|apply silent_die_unless_200]. by intros ? ? [? _]. }
  assert (Hf3 : frame w3 w4).
  { eapply (run_preserved frame); [|exact Hlist].
    eapply preserves_weaken; [|apply silent_json_list]. by intros ? ? [? _]. }
  split.
  - eapply token_set_frame; [|exact Htok]. etrans; [exact Hf|]. by etrans.
  - intros found Hfound. apply List.find_some in Hfound as [_ Hm].
    unfold ext_matches in Hm. by apply bool_decide_eq_true in Hm.
Qed.

Ltac upsert_missing find_ok :=
  let Htok := fresh "Htok" in
  intros Hfind;
  destruct (find_ok _ _ _ _ Hfind) as [Htok _];
  match goal with
  | |- ?lhs = ?rhs ∧ _ =>
      assert (lhs = rhs) as ->; [|split; [reflexivity|]]
  end;
  [ unfold upsert_project, upsert_milestone, upsert_epic, upsert_iteration,
      upsert_story;
    by rewrite bind_run, Hfind
  | by apply create_call_spec ].

(** X4: for each of the five entity types, when the lookup finds no
    record with the external id, the upsert is the creation: a [POST] to
    the collection carrying the payload of the desired record (the
    external id included; for an iteration without the falsy entries),
    sent again after each retryable response; it returns the record of
    the response when the final status is 200 or 201 and exits with code
    2 otherwise. *)
Theorem upsert_creates_missing w :
  (∀ p w1,
     find_project_by_external_id (p_external_id p) w = (Ok None, w1) →
     upsert_project p w = create_project (project_payload p) w1 ∧
     created "/projects" (project_payload p) w1
       (create_project (project_payload p) w1)) ∧
  (∀ m w1,
     find_milestone_by_external_id (m_external_id m) w = (Ok None, w1) →
     upsert_milestone m w = create_milestone (milestone_payload m) w1 ∧
     created "/milestones" (milestone_payload m) w1
       (create_milestone (milestone_payload m) w1)) ∧
  (∀ e milestone_id w1,
     find_epic_by_external_id (e_external_id e) w = (Ok None, w1) →
     upsert_epic e milestone_id w = create_epic (epic_payload e milestone_id) w1 ∧
     created "/epics" (epic_payload e milestone_id) w1
       (create_epic (epic_payload e milestone_id) w1)) ∧
  (∀ i w1,
     find_iteration_by_external_id (i_external_id i) w = (Ok None, w1) →
     upsert_iteration i w = create_iteration (iteration_json i) w1 ∧
     created "/iterations" (iteration_json i) w1
       (create_iteration (iteration_json i) w1)) ∧
  (∀ s w1,
     find_story_by_external_id (sp_external_id s) w = (Ok None, w1) →
     upsert_story s w = create_story (story_json s) w1 ∧
     created "/stories" (story_json s) w1 (create_story (story_json s) w1)) ∧
  (∀ p, ("external_id", JStr (p_external_id p)) ∈ project_payload p) ∧
  (∀ m, ("external_id", JStr (m_external_id m)) ∈ milestone_payload m) ∧
  (∀ e mid, ("external_id", JStr (e_external_id e)) ∈ epic_payload e mid) ∧
  (∀ s, ("external_id", JStr (sp_external_id s)) ∈ story_json s).
Proof.
  split; [intros p w1; upsert_missing find_project_ok|].
  split; [intros m w1; upsert_missing find_milestone_ok|].
  split; [intros e mid w1; upsert_missing find_epic_ok|].
  split; [intros i w1; upsert_missing find_iteration_ok|].
  split; [intros s w1; upsert_missing find_story_ok|].
  unfold project_payload, milestone_payload, epic_payload, story_json.
  repeat split; intros; set_solver.
Qed.

Lemma upsert_creates_missing_witness :
  let w1 := (find_project_by_external_id "beeai:project:platform" Fake.w0).2 in
  find_project_by_external_id (p_external_id Fake.project1) Fake.w0 = (Ok None, w1) ∧
  upsert_project Fake.project1 Fake.w0 =
    create_project (project_payload Fake.project1) w1 ∧
  (upsert_project Fake.project1 Fake.w0).1 =
    Ok {| r_id := 2; r_name := Some "Platform";
          r_external_id := Some "beeai:project:platform" |}.
Proof.
  intros w1.
  assert (Hfind : find_project_by_external_id (p_external_id Fake.project1) Fake.w0
                  = (Ok None, w1)) by (vm_compute; reflexivity).
  split; [exact Hfind|].
  destruct (upsert_creates_missing Fake.w0) as (H & _).
  destruct (H Fake.project1 w1 Hfind) as (Hup & _).
  split; [exact Hup|]. vm_compute. reflexivity.
Defined.

(** X5: [upsert_project] never updates.  Whatever the service answers, it
    sends only the listing of [/projects] and, at most, the creation with
    the payload of the project, never a [PUT]; it prints nothing; and a
    project that is found comes back as it is in the listing. *)
Theorem upsert_project_never_updates p w :
  let res := upsert_project p w in
  frame w res.2 ∧ stdout res.2 = stdout w ∧
  (∃ new, exchanges res.2 = exchanges w ++ new ∧
     Forall (λ x, x.1 = request_of w "GET" "/projects" None ∨
                  x.1 = request_of w "POST" "/projects" (Some (project_payload p)))
       new ∧
     Forall (λ x, rq_method x.1 ≠ "PUT") new) ∧
  (∀ found w1,
     find_project_by_external_id (p_external_id p) w = (Ok (Some found), w1) →
     res = (Ok found, w1) ∧
     calls (lists "/projects") w w1) ∧
  (∀ c, res.1 = Exit c → c = 2%Z).
Proof.
  intros res. subst res.
  destruct (calls_upsert_project p w) as [(Hf & Hout & new & Hex & Hsent) Hc].
  split; [exact Hf|]. split; [exact Hout|]. split; [|split; [|exact Hc]].
  - exists new. split; [exact Hex|]. split.
    + eapply Forall_impl; [exact Hsent|]. cbv beta.
      intros x (m & pa & js & -> & [(-> & -> & ->)|(-> & -> & ->)]); auto.
    + eapply Forall_impl; [exact Hsent|]. cbv beta.
      intros x (m & pa & js & -> & [(-> & -> & ->)|(-> & -> & ->)]); done.
  - intros found w1 Hfind. split.
    + unfold upsert_project. by rewrite bind_run, Hfind.
    + eapply run_preserved; [apply calls_find_project|exact Hfind].
Qed.

Lemma upsert_project_never_updates_witness :
  let found := {| r_id := 2; r_name := Some "Platform";
                  r_external_id := Some "beeai:project:platform" |} in
  let w1 := (find_project_by_external_id
               (p_external_id Fake.project1_renamed) Fake.w1).2 in
  find_project_by_external_id (p_external_id Fake.project1_renamed) Fake.w1 =
    (Ok (Some found), w1) ∧
  upsert_project Fake.project1_renamed Fake.w1 = (Ok found, w1) ∧
  calls (lists "/projects") Fake.w1 w1.
Proof.
  intros found w1.
  assert (Hfind : find_project_by_external_id
                    (p_external_id Fake.project1_renamed) Fake.w1 =
                  (Ok (Some found), w1)) by (vm_compute; reflexivity).
  split; [exact Hfind|].
  destruct (upsert_project_never_updates Fake.project1_renamed Fake.w1)
    as (_ & _ & _ & H & _).
  by apply H.
Defined.

(** X6: each of the other helpers keeps to its own collection and its own
    payload.  Whatever the service answers, [upsert_milestone],
    [upsert_epic], [upsert_iteration] and [upsert_story] send only the
    listing of their collection, the creation in it and the update of one
    of its records by numeric id, the last two with the payload of the
    desired record, and [create_task] sends only the creation of the
    task; none of them prints, and each exits, if it does, with code 2. *)
Theorem upserts_keep_to_their_collection :
  (∀ m, preserves (calls (upserts "/milestones" (milestone_payload m)))
          (upsert_milestone m)) ∧
  (∀ e milestone_id,
     preserves (calls (upserts "/epics" (epic_payload e milestone_id)))
       (upsert_epic e milestone_id)) ∧
  (∀ i, preserves (calls (upserts "/iterations" (iteration_json i)))
          (upsert_iteration i)) ∧
  (∀ s, preserves (calls (upserts "/stories" (story_json s))) (upsert_story s)) ∧
  (∀ js, preserves (calls (creates "/tasks" js)) (create_task js)).
Proof.
  split; [exact calls_upsert_milestone|].
  split; [exact calls_upsert_epic|].
  split; [exact calls_upsert_iteration|].
  split; [exact calls_upsert_story|exact calls_create_task].
Qed.

(** ** The stages of a real run *)

#[local] Instance talks_preorder allowed : PreOrder (talks allowed).
Proof.
  split.
  - intros w. split; [reflexivity|]. exists []. rewrite app_nil_r.
    split; [done|constructor].
  - intros w1 w2 w3 (Hf1 & new1 & Hex1 & Hs1) (Hf2 & new2 & Hex2 & Hs2).
    split; [by etrans|].
    exists (new1 ++ new2). split; [by rewrite Hex2, Hex1, app_assoc|].
    apply Forall_app. split; [done|]. by eapply sent_frame.
Qed.

Lemma calls_talks (A B : string → string → option payload → Prop) w w' :
  (∀ m p js, A m p js → B m p js) → calls A w w' → talks B w w'.
Proof.
  intros HAB (Hf & _ & new & Hex & Hs). split; [done|].
  exists new. split; [done|]. by eapply sent_mono.
Qed.

Lemma silent_talks allowed w w' : silent w w' → talks allowed w w'.
Proof.
  intros (Hf & Hex & _). split; [done|]. exists []. rewrite app_nil_r.
  split; [done|constructor].
Qed.

Lemma preserves_calls_talks {T} (A B : string → string → option payload → Prop)
    (m : M T) :
  (∀ me p js, A me p js → B me p js) →
  preserves (calls A) m → preserves (talks B) m.
Proof. intros HAB. apply preserves_weaken. intros w w'. by apply calls_talks. Qed.

Lemma preserves_silent_talks {T} allowed (m : M T) :
  preserves silent m → preserves (talks allowed) m.
Proof. apply preserves_weaken. intros w w'. apply silent_talks. Qed.

Lemma preserves_for_fold_in {A S} R `{!PreOrder R} (l : list A)
    (body : A → S → M S) s :
  (∀ x s, x ∈ l → preserves R (body x s)) → preserves R (for_fold l body s).
Proof.
  revert s. induction l as [|x l IH]; intros s Hb; simpl.
  - apply preserves_ret, _.
  - apply preserves_bind; [apply _|apply Hb; left|].
    intros s'. apply IH. intros y s'' Hy. apply Hb. by right.
Qed.

Ltac talk_step :=
  lazymatch goal with
  | |- preserves (talks _) (print _) => apply preserves_silent_talks, silent_print
  | |- preserves (talks _) (eprint _) => apply preserves_silent_talks, silent_eprint
  | |- preserves (talks _) (getitem_name _) =>
      apply preserves_silent_talks, silent_getitem_name
  | |- _ => keep_step
  end.

Lemma talks_project_body cfg p m :
  p ∈ projects cfg →
  preserves (talks (projects_calls cfg)) (project_body false p m).
Proof.
  intros Hp. unfold project_body. apply preserves_bind; [apply _| |].
  - eapply preserves_calls_talks; [|apply calls_upsert_project].
    intros me pa js [H|H]; [by left|right; by exists p].
  - intros proj. repeat talk_step.
Qed.

Lemma talks_projects_stage cfg :
  preserves (talks (projects_calls cfg))
    (for_fold (projects cfg) (project_body false) ∅).
Proof.
  apply preserves_for_fold_in; [apply _|]. intros p m Hp.
  by apply talks_project_body.
Qed.

Lemma talks_milestone_stage cfg ms :
  milestone cfg = Some ms →
  preserves (talks (milestone_calls cfg)) (milestone_stage false ms).
Proof.
  intros Hms. unfold milestone_stage. apply preserves_bind; [apply _| |].
  - eapply preserves_calls_talks; [|apply calls_upsert_milestone].
    intros me pa js H. by exists ms.
  - intros r. repeat talk_step.
Qed.

Lemma talks_epics_stage cfg ms :
  preserves (talks (epics_calls cfg (r_id ms)))
    (for_fold (epics cfg) (epic_body false ms) ∅).
Proof.
  apply preserves_for_fold_in; [apply _|]. intros e m He.
  unfold epic_body. apply preserves_bind; [apply _| |intros ?; repeat talk_step].
  apply preserves_bind; [apply _| |intros ?; repeat talk_step].
  eapply preserves_calls_talks; [|apply calls_upsert_epic].
  intros me pa js H. by exists e.
Qed.

Lemma talks_iteration_stage cfg w :
  talks (iteration_calls w cfg) w (iteration_stage cfg false w).2 ∧
  (∀ c, (iteration_stage cfg false w).1 = Exit c → c = 2%Z) ∧
  (iteration cfg = None → iteration_stage cfg false w = (Ok None, w)).
Proof.
  unfold iteration_stage. destruct (iteration cfg) as [it_cfg|] eqn:Hit.
  - rewrite bind_run, iteration_payload_run.
    assert (Hp : preserves (talks (iteration_calls w cfg))
      (iteration ← upsert_iteration (settled_iteration w cfg it_cfg);
       nm ← getitem_name iteration;
       print ("[ok] iteration: " +:+ nm +:+ " id=" +:+ pretty (r_id iteration));;
       mret (Some iteration))).
    { apply preserves_bind; [apply _| |intros ?; repeat talk_step].
      eapply preserves_calls_talks; [|apply calls_upsert_iteration].
      intros me pa js H. exists it_cfg. by rewrite Hit. }
    destruct (Hp w) as [Ht Hc]. split; [exact Ht|]. split; [exact Hc|]. done.
  - split; [reflexivity|]. split; [|done]. cbn. congruence.
Qed.

Lemma talks_task_body cfg it s story x :
  s ∈ stories cfg → x ∈ enumerate 1 (s_tasks s) →
  preserves (talks (stories_calls cfg it)) (task_body false s story x).
Proof.
  intros Hs Hx. unfold task_body.
  apply preserves_bind; [apply _| |intros ?; repeat talk_step].
  eapply preserves_calls_talks; [|apply calls_create_task].
  intros me pa js H. exists s. split; [done|]. right.
  exists story, x.1, x.2. split; [by destruct x|done].
Qed.

Lemma preserves_for_each_in {A} R `{!PreOrder R} (l : list A) (body : A → M unit) :
  (∀ x, x ∈ l → preserves R (body x)) → preserves R (for_each l body).
Proof. intros Hb. apply preserves_for_fold_in; [apply _|]. intros x _. apply Hb. Qed.

Lemma talks_story_body cfg n2p n2e it s :
  s ∈ stories cfg →
  preserves (talks (stories_calls cfg it)) (story_body false n2p n2e it s).
Proof.
  intros Hs. unfold story_body.
  destruct (n2p !! s_project s) as [proj|]; [|repeat talk_step].
  destruct (n2e !! s_epic s) as [epic|]; [|repeat talk_step].
  apply preserves_bind; [apply _| |].
  - apply preserves_bind; [apply _| |intros ?; repeat talk_step].
    eapply preserves_calls_talks; [|apply calls_upsert_story].
    intros me pa js H. exists s. split; [done|]. left. by exists proj, epic.
  - intros story. apply preserves_for_each_in; [apply _|]. intros x Hx.
    by apply talks_task_body.
Qed.

Lemma talks_stories_stage cfg n2p n2e it :
  preserves (talks (stories_calls cfg it))
    (for_each (stories cfg) (story_body false n2p n2e it)).
Proof.
  apply preserves_for_each_in; [apply _|]. intros s Hs. by apply talks_story_body.
Qed.

Lemma iteration_calls_frame w w' cfg method path js :
  frame w w' → iteration_calls w' cfg method path js → iteration_calls w cfg method path js.
Proof.
  intros Hf (it_cfg & Hit & H). exists it_cfg. split; [done|].
  by rewrite <- (settled_iteration_frame w w' cfg it_cfg Hf).
Qed.

Ltac stop_here l1 l2 l3 l4 l5 ms it :=
  split; [by repeat (etrans; [eassumption|]) || done|];
  split; [by (intros ? [= <-]; eauto) || done|];
  exists l1, l2, l3, l4, l5, ms, it;
  rewrite ?app_nil_r;
  repeat match goal with
         | H : exchanges _ = _ |- _ => rewrite H; clear H
         end;
  rewrite <- ?app_assoc;
  repeat split; (done || constructor || idtac).

(** The exchanges of a real run, stage after stage. *)
Lemma bootstrap_stages cfg w :
  let res := bootstrap cfg false w in
  frame w res.2 ∧ (∀ c, res.1 = Exit c → c = 2%Z) ∧
  ∃ l1 l2 l3 l4 l5 milestone_id it,
    exchanges res.2 = exchanges w ++ l1 ++ l2 ++ l3 ++ l4 ++ l5 ∧
    sent w (projects_calls cfg) l1 ∧
    sent w (milestone_calls cfg) l2 ∧
    sent w (epics_calls cfg milestone_id) l3 ∧
    sent w (iteration_calls w cfg) l4 ∧
    sent w (stories_calls cfg it) l5 ∧
    (iteration cfg = None → it = None).
Proof.
  intros res. subst res. unfold bootstrap.
  destruct (talks_projects_stage cfg w) as [(Hf1 & l1 & Hex1 & Hs1) Hc1].
  rewrite bind_run.
  destruct (for_fold (projects cfg) (project_body false) ∅ w) as [[n2p|c|e] w1];
    cbn [fst snd] in *;
    [|stop_here l1 (@nil (Request * Response)) (@nil (Request * Response))
        (@nil (Request * Response)) (@nil (Request * Response)) 0%Z (@None Remote)..].
  rewrite bind_run. unfold getitem_milestone.
  destruct (milestone cfg) as [ms_cfg|] eqn:Hms; cbn [mret M_ret raise];
    [|stop_here l1 (@nil (Request * Response)) (@nil (Request * Response))
        (@nil (Request * Response)) (@nil (Request * Response)) 0%Z (@None Remote)].
  destruct (talks_milestone_stage cfg ms_cfg Hms w1) as [(Hf2 & l2 & Hex2 & Hs2) Hc2].
  apply (sent_frame w w1 _ _ Hf1) in Hs2.
  assert (Hf12 : frame w (milestone_stage false ms_cfg w1).2) by (by etrans).
  rewrite bind_run.
  destruct (milestone_stage false ms_cfg w1) as [[ms|c|e] w2]; cbn [fst snd] in *;
    [|stop_here l1 l2 (@nil (Request * Response))
        (@nil (Request * Response)) (@nil (Request * Response)) 0%Z (@None Remote)..].
  destruct (talks_epics_stage cfg ms w2) as [(Hf3 & l3 & Hex3 & Hs3) Hc3].
  apply (sent_frame w w2 _ _ Hf12) in Hs3.
  assert (Hf13 : frame w (for_fold (epics cfg) (epic_body false ms) ∅ w2).2)
    by (by etrans).
  rewrite bind_run.
  destruct (for_fold (epics cfg) (epic_body false ms) ∅ w2) as [[n2e|c|e] w3];
    cbn [fst snd] in *;
    [|stop_here l1 l2 l3
        (@nil (Request * Response)) (@nil (Request * Response)) (r_id ms) (@None Remote)..].
  destruct (talks_iteration_stage cfg w3) as ((Hf4 & l4 & Hex4 & Hs4) & Hc4 & Hnone).
  apply (sent_mono w3 _ (iteration_calls w cfg)) in Hs4;
    [|intros ? ? ?; by apply iteration_calls_frame].
  apply (sent_frame w w3 _ _ Hf13) in Hs4.
  assert (Hf14 : frame w (iteration_stage cfg false w3).2) by (by etrans).
  rewrite bind_run.
  destruct (iteration_stage cfg false w3) as [[it|c|e] w4] eqn:Hit;
    cbn [fst snd] in *;
    [|stop_here l1 l2 l3 l4 (@nil (Request * Response)) (r_id ms) (@None Remote)..].
  destruct (talks_stories_stage cfg n2p n2e it w4) as [(Hf5 & l5 & Hex5 & Hs5) Hc5].
  apply (sent_frame w w4 _ _ Hf14) in Hs5.
  split; [by etrans|]. split; [exact Hc5|].
  exists l1, l2, l3, l4, l5, (r_id ms), it.
  rewrite Hex5, Hex4, Hex3, Hex2, Hex1, <- !app_assoc.
  repeat (split; [done|]).
  intros Hcfg. specialize (Hnone Hcfg). congruence.
Qed.

(** X7: in a real run the parents come before the children.  Whatever the
    service answers and however the run ends, what it sends is, in this
    order: the calls of the project stage (listings of [/projects] and
    creations of configured projects), the calls of the milestone stage,
    those of the epic stage (all with one and the same milestone id), those
    of the iteration stage, and those of the story stage (upserts of
    configured stories and creations of their tasks, all with one and the
    same iteration); the read-only part of the world is left as it was. *)
Theorem real_run_stage_order cfg w :
  let res := bootstrap cfg false w in
  frame w res.2 ∧
  ∃ l1 l2 l3 l4 l5 milestone_id it,
    exchanges res.2 = exchanges w ++ l1 ++ l2 ++ l3 ++ l4 ++ l5 ∧
    sent w (projects_calls cfg) l1 ∧
    sent w (milestone_calls cfg) l2 ∧
    sent w (epics_calls cfg milestone_id) l3 ∧
    sent w (iteration_calls w cfg) l4 ∧
    sent w (stories_calls cfg it) l5.
Proof.
  intros res.
  destruct (bootstrap_stages cfg w)
    as (Hf & _ & l1 & l2 & l3 & l4 & l5 & mid & it & Hex & H1 & H2 & H3 & H4 & H5 & _).
  split; [exact Hf|]. exists l1, l2, l3, l4, l5, mid, it. by repeat split.
Qed.

Lemma sent_request_of w allowed new :
  sent w allowed new → Forall (λ x, ∃ method path js, x.1 = request_of w method path js) new.
Proof.
  intros H. eapply Forall_impl; [exact H|]. intros x (m & p & js & Hx & _). eauto.
Qed.

(** X8: every request of a real run is built the same way: the URL is the
    API base followed by the path, the headers are the token read from
    the environment and the JSON content type, and the timeout is 30
    seconds. *)
Theorem real_run_requests_well_formed cfg w :
  let res := bootstrap cfg false w in
  ∃ new, exchanges res.2 = exchanges w ++ new ∧
    Forall (λ x,
              rq_headers x.1 =
                [("Shortcut-Token", default "" (environ w !! "SHORTCUT_TOKEN"));
                 ("Content-Type", "application/json")] ∧
              rq_timeout x.1 = 30%Z ∧
              (∃ path, rq_url x.1 = API_BASE w +:+ path) ∧
              rq_method x.1 ∈ ["GET"; "POST"; "PUT"]) new.
Proof.
  intros res.
  destruct (bootstrap_stages cfg w)
    as (_ & _ & l1 & l2 & l3 & l4 & l5 & mid & it & Hex & H1 & H2 & H3 & H4 & H5 & _).
  exists (l1 ++ l2 ++ l3 ++ l4 ++ l5). split; [exact Hex|].
  assert (Hany : ∀ (A : string → string → option payload → Prop) l,
    (∀ m p js, A m p js → m ∈ ["GET"; "POST"; "PUT"]) →
    sent w A l →
    Forall (λ x,
              rq_headers x.1 =
                [("Shortcut-Token", default "" (environ w !! "SHORTCUT_TOKEN"));
                 ("Content-Type", "application/json")] ∧
              rq_timeout x.1 = 30%Z ∧
              (∃ path, rq_url x.1 = API_BASE w +:+ path) ∧
              rq_method x.1 ∈ ["GET"; "POST"; "PUT"]) l).
  { intros A l HA Hs. eapply Forall_impl; [exact Hs|]. cbv beta.
    intros x (m & p & js & -> & Ha). repeat split; [by exists p|by eapply HA]. }
  assert (Hup : ∀ coll b m p js, upserts coll b m p js → m ∈ ["GET"; "POST"; "PUT"]).
  { intros coll b m p js [(-> & _)|[(-> & _)|(-> & _)]]; set_solver. }
  repeat (apply Forall_app; split).
  - eapply Hany; [|exact H1].
    intros m p js [(-> & _)|(pr & _ & -> & _)]; set_solver.
  - eapply Hany; [|exact H2]. intros m p js (ms & _ & H). by eapply Hup.
  - eapply Hany; [|exact H3]. intros m p js (e & _ & H). by eapply Hup.
  - eapply Hany; [|exact H4]. intros m p js (i & _ & H). by eapply Hup.
  - eapply Hany; [|exact H5].
    intros m p js (s & _ & [(pr & ep & H)|(st & idx & t & _ & -> & _)]);
      [by eapply Hup|set_solver].
Qed.

(** X9: whenever a run ends the process itself, in either mode, it does
    so with exit code 2; the status of the process is 0 exactly when the
    run completes, 1 after an uncaught exception and 2 otherwise. *)
Theorem every_exit_is_two command cfg w :
  let o := (main command cfg w).1 in
  (∀ c, o = Exit c → c = 2%Z) ∧
  exit_code o ∈ [0; 1; 2]%Z ∧
  (exit_code o = 0%Z ↔ o = Ok tt) ∧
  (exit_code o = 1%Z ↔ ∃ e, o = Raise e).
Proof.
  intros o.
  assert (Hc : ∀ c, o = Exit c → c = 2%Z).
  { subst o. destruct command; cbn [main].
    - by destruct (bootstrap_stages cfg w) as (_ & Hc & _).
    - by destruct (silent_bootstrap cfg w) as [_ Hc]. }
  split; [exact Hc|].
  destruct o as [[]|c|e]; cbn [exit_code].
  - split; [set_solver|]. split; [done|]. split; [done|]. by intros [? ?].
  - rewrite (Hc c eq_refl). split; [set_solver|]. split; [done|].
    split; [done|]. by intros [? ?].
  - split; [set_solver|]. split; [done|]. split; [eauto|done].
Qed.

Lemma every_exit_is_two_witness :
  (main CmdBootstrap Fake.cfg1 Fake.w_no_token).1 = Exit 2%Z ∧
  exit_code (main CmdBootstrap Fake.cfg1 Fake.w_no_token).1 = 2%Z.
Proof.
  assert (He : ∃ c, (main CmdBootstrap Fake.cfg1 Fake.w_no_token).1 = Exit c)
    by (eexists; vm_compute; reflexivity).
  destruct He as [c He].
  destruct (every_exit_is_two CmdBootstrap Fake.cfg1 Fake.w_no_token) as (H & _).
  rewrite He. by rewrite (H c He).
Defined.

Lemma not_iteration_path (coll rest suffix : string) :
  coll ∈ ["/projects"; "/milestones"; "/epics"; "/stories"; "/tasks"] →
  coll +:+ rest ≠ "/iterations" +:+ suffix.
Proof.
  intros Hc.
  repeat (apply elem_of_cons in Hc as [->|Hc]); [..|by apply elem_of_nil in Hc];
    simpl; discriminate.
Qed.

Lemma not_iteration_coll (coll suffix : string) :
  coll ∈ ["/projects"; "/milestones"; "/epics"; "/stories"; "/tasks"] →
  coll ≠ "/iterations" +:+ suffix.
Proof.
  intros Hc.
  repeat (apply elem_of_cons in Hc as [->|Hc]); [..|by apply elem_of_nil in Hc];
    simpl; discriminate.
Qed.

Lemma upserts_not_iteration coll body method path js suffix b v :
  coll ∈ ["/projects"; "/milestones"; "/epics"; "/stories"; "/tasks"] →
  (∀ v, ("iteration_id", v) ∉ body) →
  upserts coll body method path js →
  path ≠ "/iterations" +:+ suffix ∧ (js = Some b → ("iteration_id", v) ∉ b).
Proof.
  intros Hc Hb [(_ & -> & ->)|[(_ & -> & ->)|(_ & -> & n & ->)]].
  - split; [by apply not_iteration_coll|done].
  - split; [by apply not_iteration_coll|]. intros [= <-]. apply Hb.
  - split; [by apply not_iteration_path|]. intros [= <-]. apply Hb.
Qed.

Ltac no_iteration_key :=
  intros ?; rewrite ?elem_of_cons, elem_of_nil;
  intros Hin; repeat destruct Hin as [Hin|Hin]; (discriminate || done).

(** X10: without an [iteration] block the run leaves iterations alone:
    the iteration stage does nothing (in either mode), nothing is sent to
    a URL under [/iterations], and no body carries an ["iteration_id"],
    so the stories are upserted without one. *)
Theorem no_iteration_configured cfg w :
  iteration cfg = None →
  (∀ dry_run w0, iteration_stage cfg dry_run w0 = (Ok None, w0)) ∧
  ∃ new, exchanges (bootstrap cfg false w).2 = exchanges w ++ new ∧
    Forall (λ x,
              (∀ suffix, rq_url x.1 ≠ API_BASE w +:+ ("/iterations" +:+ suffix)) ∧
              (∀ b v, rq_json x.1 = Some b → ("iteration_id", v) ∉ b)) new.
Proof.
  intros Hnone. split.
  { intros dry_run w0. unfold iteration_stage. by rewrite Hnone. }
  destruct (bootstrap_stages cfg w)
    as (_ & _ & l1 & l2 & l3 & l4 & l5 & mid & it & Hex & H1 & H2 & H3 & H4 & H5 & Hit).
  specialize (Hit Hnone). subst it.
  exists (l1 ++ l2 ++ l3 ++ l4 ++ l5). split; [exact Hex|].
  assert (Hany : ∀ (A : string → string → option payload → Prop) l,
    (∀ m p js, A m p js →
       ∀ suffix b v, p ≠ "/iterations" +:+ suffix ∧
                     (js = Some b → ("iteration_id", v) ∉ b)) →
    sent w A l →
    Forall (λ x,
              (∀ suffix, rq_url x.1 ≠ API_BASE w +:+ ("/iterations" +:+ suffix)) ∧
              (∀ b v, rq_json x.1 = Some b → ("iteration_id", v) ∉ b)) l).
  { intros A l HA Hs. eapply Forall_impl; [exact Hs|]. cbv beta.
    intros x (m & p & js & -> & Ha). split.
    - intros suffix Heq. apply (inj (String.app (API_BASE w))) in Heq.
      by destruct (HA m p js Ha suffix [] JNull) as [Hp _].
    - intros b v Hjs. by destruct (HA m p js Ha "" b v) as [_ Hb]; apply Hb. }
  repeat (apply Forall_app; split).
  - eapply Hany; [|exact H1]. intros m p js [Ha|(pr & _ & Ha)] suffix b v.
    + eapply (upserts_not_iteration "/projects" []); [set_solver| |by left].
      no_iteration_key.
    + eapply (upserts_not_iteration "/projects" (project_payload pr));
        [set_solver| |by right; left].
      unfold project_payload. no_iteration_key.
  - eapply Hany; [|exact H2]. intros m p js (ms & _ & Ha) suffix b v.
    eapply (upserts_not_iteration "/milestones" (milestone_payload ms));
      [set_solver| |done].
    unfold milestone_payload. no_iteration_key.
  - eapply Hany; [|exact H3]. intros m p js (e & _ & Ha) suffix b v.
    eapply (upserts_not_iteration "/epics" (epic_payload e mid)); [set_solver| |done].
    unfold epic_payload. no_iteration_key.
  - eapply Hany; [|exact H4]. intros m p js (i & Hi & _). congruence.
  - eapply Hany; [|exact H5].
    intros m p js (s & _ & [(pr & ep & Ha)|(st & idx & t & _ & Ha)]) suffix b v.
    + eapply (upserts_not_iteration "/stories"
               (story_json (story_payload s pr ep None))); [set_solver| |done].
      unfold story_json, story_payload. cbn. no_iteration_key.
    + eapply (upserts_not_iteration "/tasks" (task_payload s st idx t));
        [set_solver| |by right; left].
      unfold task_payload. no_iteration_key.
Qed.

(** ** The lines of a real run *)

Lemma printed_ok_same w w' : stdout w' = stdout w → printed_ok 0 w w'.
Proof. intros H. exists []. rewrite app_nil_r. by repeat split. Qed.

Lemma printed_ok_app n m w w1 w2 :
  printed_ok n w w1 → printed_ok m w1 w2 → printed_ok (n + m) w w2.
Proof.
  intros (l1 & Ho1 & Hl1 & Hf1) (l2 & Ho2 & Hl2 & Hf2).
  exists (l1 ++ l2). split; [by rewrite Ho2, Ho1, app_assoc|].
  split; [rewrite length_app; lia|by apply Forall_app].
Qed.

Lemma printed_ok_print rest w o w' :
  print ("[ok] " +:+ rest) w = (o, w') → printed_ok 1 w w'.
Proof.
  intros [= <- <-]. exists ["[ok] " +:+ rest]. repeat split.
  repeat constructor. by exists rest.
Qed.

Lemma getitem_name_ok r w nm w' : getitem_name r w = (Ok nm, w') → w' = w.
Proof. unfold getitem_name. destruct (r_name r); by inversion 1. Qed.

Lemma calls_stdout {A} allowed (m : M A) w o w' :
  preserves (calls allowed) m → m w = (o, w') → printed_ok 0 w w'.
Proof.
  intros Hm Hrun. apply printed_ok_same.
  by destruct (run_preserved _ m w o w' Hm Hrun) as (_ & ? & _).
Qed.

(** An upsert that returns, the name of its record, and one line. *)
Lemma upsert_then_line {A} allowed (up : M Remote) (line : string → Remote → string)
    (k : Remote → A) w a w' :
  preserves (calls allowed) up →
  (∀ nm r, ∃ rest, line nm r = "[ok] " +:+ rest) →
  (r ← up; nm ← getitem_name r; print (line nm r);; mret (k r)) w = (Ok a, w') →
  printed_ok 1 w w'.
Proof.
  intros Hup Hline H.
  apply bind_ok_inv in H as (r & w1 & Hrun & H).
  apply bind_ok_inv in H as (nm & w2 & Hnm & H).
  apply bind_ok_inv in H as ([] & w3 & Hpr & Hret).
  injection Hret as _ <-. apply getitem_name_ok in Hnm as ->.
  destruct (Hline nm r) as [rest Hrest]. rewrite Hrest in Hpr.
  apply (printed_ok_app 0 1 w w1 w3).
  - by eapply calls_stdout.
  - by eapply printed_ok_print.
Qed.

Lemma project_body_lines p m w m' w' :
  project_body false p m w = (Ok m', w') → printed_ok 1 w w'.
Proof.
  unfold project_body.
  eapply (upsert_then_line _ (upsert_project p)
           (λ nm r, "[ok] project: " +:+ nm +:+ " id=" +:+ pretty (r_id r))
           (λ r, <[p_name p := r]> m)).
  - apply calls_upsert_project.
  - intros nm r. eexists. reflexivity.
Qed.

Lemma projects_stage_lines ps :
  ∀ m w m' w',
    for_fold ps (project_body false) m w = (Ok m', w') →
    printed_ok (length ps) w w'.
Proof.
  induction ps as [|p ps IH]; intros m w m' w' H.
  - inversion H. by apply printed_ok_same.
  - cbn [for_fold] in H. apply bind_ok_inv in H as (m1 & w1 & Hbody & H).
    apply (printed_ok_app 1 (length ps) w w1 w').
    + by eapply project_body_lines.
    + by eapply IH.
Qed.

Lemma milestone_stage_lines ms w r w' :
  milestone_stage false ms w = (Ok r, w') → printed_ok 1 w w'.
Proof.
  unfold milestone_stage.
  eapply (upsert_then_line _ (upsert_milestone ms)
           (λ nm r, "[ok] milestone: " +:+ nm +:+ " id=" +:+ pretty (r_id r))
           (λ r, r)).
  - apply calls_upsert_milestone.
  - intros nm r'. eexists. reflexivity.
Qed.

Lemma epics_stage_lines ms es :
  ∀ m w m' w',
    for_fold es (epic_body false ms) m w = (Ok m', w') →
    printed_ok (length es) w w'.
Proof.
  induction es as [|e es IH]; intros m w m' w' H.
  - inversion H. by apply printed_ok_same.
  - cbn [for_fold] in H. apply bind_ok_inv in H as (m1 & w1 & Hbody & H).
    apply (printed_ok_app 1 (length es) w w1 w'); [|by eapply IH].
    unfold epic_body in Hbody.
    apply bind_ok_inv in Hbody as (ep & w2 & Hep & Hret).
    injection Hret as _ <-.
    eapply (upsert_then_line _ (upsert_epic e (r_id ms))
              (λ nm r, "[ok] epic: " +:+ nm +:+ " id=" +:+ pretty (r_id r))
              (λ r, r)); [apply calls_upsert_epic| |exact Hep].
    intros nm r'. eexists. reflexivity.
Qed.

Lemma iteration_stage_lines cfg w it w' :
  iteration_stage cfg false w = (Ok it, w') →
  printed_ok (match iteration cfg with Some _ => 1 | None => 0 end) w w'.
Proof.
  unfold iteration_stage. destruct (iteration cfg) as [it_cfg|].
  - rewrite bind_run, iteration_payload_run.
    eapply (upsert_then_line _ (upsert_iteration (settled_iteration w cfg it_cfg))
             (λ nm r, "[ok] iteration: " +:+ nm +:+ " id=" +:+ pretty (r_id r))
             Some).
    + apply calls_upsert_iteration.
    + intros nm r'. eexists. reflexivity.
  - intros [= _ <-]. by apply printed_ok_same.
Qed.

Lemma tasks_loop_lines s story ts :
  ∀ k w w',
    for_each (enumerate k ts) (task_body false s story) w = (Ok tt, w') →
    printed_ok (length ts) w w'.
Proof.
  induction ts as [|t ts IH]; intros k w w' H.
  - inversion H. by apply printed_ok_same.
  - unfold for_each in H. cbn [enumerate for_fold] in H.
    apply bind_ok_inv in H as ([] & w1 & Hbody & Hrest).
    apply (printed_ok_app 1 (length ts) w w1 w'); [|by eapply IH].
    unfold task_body in Hbody. cbn [fst snd] in Hbody.
    apply bind_ok_inv in Hbody as (task & w0 & Hcreate & Hprint).
    apply (printed_ok_app 0 1 w w0 w1).
    + eapply calls_stdout; [apply calls_create_task|exact Hcreate].
    + eapply (printed_ok_print ("  task id=" +:+ pretty (r_id task) +:+ " - " +:+ t)).
      exact Hprint.
Qed.

Lemma story_body_lines n2p n2e it s w w' :
  story_body false n2p n2e it s w = (Ok tt, w') →
  printed_ok (1 + length (s_tasks s)) w w'.
Proof.
  unfold story_body. intros H.
  destruct (n2p !! s_project s) as [proj|]; [|discriminate].
  destruct (n2e !! s_epic s) as [epic|]; [|discriminate].
  apply bind_ok_inv in H as (story & w1 & Hup & Htasks).
  apply (printed_ok_app 1 _ w w1 w'); [|by eapply tasks_loop_lines].
  eapply (upsert_then_line _ (upsert_story (story_payload s proj epic it))
            (λ nm r, "[ok] story: " +:+ nm +:+ " id=" +:+ pretty (r_id r))
            (λ r, r)); [apply calls_upsert_story| |exact Hup].
  intros nm r'. eexists. reflexivity.
Qed.

Lemma stories_stage_lines n2p n2e it ss :
  ∀ w w',
    for_each ss (story_body false n2p n2e it) w = (Ok tt, w') →
    printed_ok (length ss + sum_list (length ∘ s_tasks <$> ss)) w w'.
Proof.
  induction ss as [|s ss IH]; intros w w' H.
  - inversion H. by apply printed_ok_same.
  - unfold for_each in H. cbn [for_fold] in H.
    apply bind_ok_inv in H as ([] & w1 & Hbody & Hrest).
    apply story_body_lines in Hbody. apply IH in Hrest.
    pose proof (printed_ok_app _ _ _ _ _ Hbody Hrest) as Hall.
    rewrite fmap_cons. cbn [sum_list sum_list_with length compose].
    replace (S (length ss) + (length (s_tasks s) + sum_list (length ∘ s_tasks <$> ss)))%nat
      with (1 + length (s_tasks s) +
            (length ss + sum_list (length ∘ s_tasks <$> ss)))%nat by lia.
    exact Hall.
Qed.

(** X11: a real run that completes has printed exactly one [[ok]] line
    for every configured project, for the milestone, for every epic, for
    the iteration if there is one, for every story and for every task: as
    many lines as the dry run of the same configuration prints. *)
Theorem real_run_prints_ok_lines cfg w w' :
  bootstrap cfg false w = (Ok tt, w') →
  printed_ok (entity_count cfg) w w' ∧
  (∀ ms, length (dry_lines w cfg ms) = entity_count cfg).
Proof.
  intros H. split; [|intros ms; apply dry_lines_length].
  unfold bootstrap in H.
  apply bind_ok_inv in H as (n2p & w1 & H1 & H).
  apply bind_ok_inv in H as (ms_cfg & w2 & H2 & H).
  apply bind_ok_inv in H as (ms & w3 & H3 & H).
  apply bind_ok_inv in H as (n2e & w4 & H4 & H).
  apply bind_ok_inv in H as (it & w5 & H5 & H).
  assert (w2 = w1) as ->.
  { unfold getitem_milestone in H2. destruct (milestone cfg); by inversion H2. }
  apply projects_stage_lines in H1. apply milestone_stage_lines in H3.
  apply epics_stage_lines in H4. apply iteration_stage_lines in H5.
  apply stories_stage_lines in H.
  pose proof (printed_ok_app _ _ _ _ _ H1
    (printed_ok_app _ _ _ _ _ H3
      (printed_ok_app _ _ _ _ _ H4 (printed_ok_app _ _ _ _ _ H5 H)))) as Hall.
  unfold entity_count.
  match type of Hall with printed_ok ?n _ _ =>
    match goal with |- printed_ok ?m _ _ => replace m with n by lia end end.
  exact Hall.
Qed.

Lemma real_run_prints_ok_lines_witness :
  bootstrap Fake.cfg1 false Fake.w0 = (Ok tt, Fake.w1) ∧
  printed_ok 9 Fake.w0 Fake.w1.
Proof.
  assert (H : bootstrap Fake.cfg1 false Fake.w0 = (Ok tt, Fake.w1))
    by (vm_compute; reflexivity).
  split; [exact H|].
  exact (proj1 (real_run_prints_ok_lines Fake.cfg1 Fake.w0 Fake.w1 H)).
Defined.

Lemma no_iteration_configured_witness :
  iteration Sample.cfg_plain = None ∧
  (rq_url ∘ fst <$> exchanges (bootstrap Sample.cfg_plain false Fake.w0).2) =
    ["https://api.app.shortcut.com/api/v3/projects";
     "https://api.app.shortcut.com/api/v3/projects";
     "https://api.app.shortcut.com/api/v3/milestones";
     "https://api.app.shortcut.com/api/v3/milestones";
     "https://api.app.shortcut.com/api/v3/epics";
     "https://api.app.shortcut.com/api/v3/epics";
     "https://api.app.shortcut.com/api/v3/stories";
     "https://api.app.shortcut.com/api/v3/stories";
     "https://api.app.shortcut.com/api/v3/tasks";
     "https://api.app.shortcut.com/api/v3/tasks"] ∧
  iteration_stage Sample.cfg_plain false Fake.w0 = (Ok None, Fake.w0).
Proof.
  split; [reflexivity|]. split; [vm_compute; reflexivity|].
  destruct (no_iteration_configured Sample.cfg_plain Fake.w0 eq_refl) as [H _].
  apply H.
Defined.

(** ** A dry run depends on the document and the date only *)

Lemma settled_iteration_clock w w' cfg it_cfg :
  clock w' = clock w → settled_iteration w' cfg it_cfg = settled_iteration w cfg it_cfg.
Proof.
  intros Hc. unfold settled_iteration, week_end, week_monday. by rewrite Hc.
Qed.

Lemma dry_lines_clock w w' cfg ms :
  clock w' = clock w → dry_lines w' cfg ms = dry_lines w cfg ms.
Proof.
  intros Hc. unfold dry_lines. destruct (iteration cfg); [|done].
  by rewrite (settled_iteration_clock w w').
Qed.

#[local] Instance story_resolves_dec cfg s : Decision (story_resolves cfg s).
Proof. unfold story_resolves. apply _. Defined.

(** Either every story resolves, or there is a first one that does not. *)
Lemma first_unresolved cfg (ss : list Story) :
  (∀ s, s ∈ ss → story_resolves cfg s) ∨
  ∃ pre s post, ss = pre ++ s :: post ∧
    (∀ s', s' ∈ pre → story_resolves cfg s') ∧ ¬ story_resolves cfg s.
Proof.
  induction ss as [|s ss IH].
  - left. intros s Hs. by apply elem_of_nil in Hs.
  - destruct (decide (story_resolves cfg s)) as [Hs|Hs].
    + destruct IH as [Hall|(pre & s' & post & -> & Hpre & Hs')].
      * left. intros s' [->|Hin]%elem_of_cons; auto.
      * right. exists (s :: pre), s', post. split; [done|]. split; [|done].
        intros s'' [->|Hin]%elem_of_cons; auto.
    + right. exists [], s, ss. split; [done|]. split; [|done].
      intros s' Hs'. by apply elem_of_nil in Hs'.
Qed.

Lemma not_story_resolves cfg s :
  ¬ story_resolves cfg s →
  s_project s ∉ (p_name <$> projects cfg) ∨ s_epic s ∉ (e_name <$> epics cfg).
Proof.
  unfold story_resolves. intros H.
  destruct (decide (s_project s ∈ p_name <$> projects cfg)); [|by left].
  right. intros He. by apply H.
Qed.

(** X12: a dry run is offline.  Its outcome and the lines it writes to
    the two streams are the same in any two worlds with the same clock:
    they do not depend on the remote service, on the environment (the
    token, the API base) or on anything sent before. *)
Theorem dry_run_is_offline cfg w w' :
  clock w' = clock w →
  (bootstrap cfg true w').1 = (bootstrap cfg true w).1 ∧
  ∃ lines errs,
    stdout (bootstrap cfg true w).2 = stdout w ++ lines ∧
    stdout (bootstrap cfg true w').2 = stdout w' ++ lines ∧
    stderr (bootstrap cfg true w).2 = stderr w ++ errs ∧
    stderr (bootstrap cfg true w').2 = stderr w' ++ errs.
Proof.
  intros Hc. destruct (milestone cfg) as [ms|] eqn:Hms.
  - destruct (first_unresolved cfg (stories cfg))
      as [Hall|(pre & s & post & Hst & Hpre & Hs)].
    + destruct (dry_bootstrap_run cfg ms w Hms Hall) as (v & -> & _ & Herr & Hout).
      destruct (dry_bootstrap_run cfg ms w' Hms Hall) as (v' & -> & _ & Herr' & Hout').
      split; [done|]. exists (dry_lines w cfg ms), []. cbn [fst snd].
      rewrite (dry_lines_clock w w' cfg ms Hc) in Hout'.
      by rewrite !app_nil_r.
    + apply not_story_resolves in Hs.
      destruct (dry_bootstrap_abort cfg ms w pre s post Hms Hst Hpre Hs)
        as (v & -> & _ & Herr & Hout).
      destruct (dry_bootstrap_abort cfg ms w' pre s post Hms Hst Hpre Hs)
        as (v' & -> & _ & Herr' & Hout').
      split; [done|].
      exists (dry_lines w (with_stories pre cfg) ms), [ErrMissing (s_name s)].
      rewrite (dry_lines_clock w w' (with_stories pre cfg) ms Hc) in Hout'.
      cbn. by rewrite Herr, Herr', Hout, Hout'.
  - destruct (dry_bootstrap_no_milestone cfg w Hms) as (v & -> & _ & Herr & Hout).
    destruct (dry_bootstrap_no_milestone cfg w' Hms) as (v' & -> & _ & Herr' & Hout').
    split; [done|]. exists (dry_project_line <$> projects cfg), []. cbn [fst snd].
    by rewrite !app_nil_r.
Qed.

Lemma dry_run_is_offline_witness :
  clock Fake.w_no_token = clock Fake.w1 ∧
  (bootstrap Fake.cfg_stray true Fake.w_no_token).1 =
    (bootstrap Fake.cfg_stray true Fake.w1).1.
Proof.
  split; [reflexivity|].
  exact (proj1 (dry_run_is_offline Fake.cfg_stray Fake.w1 Fake.w_no_token eq_refl)).
Defined.

(** ** The records in the name maps *)

Lemma project_body_value p m w m' w' :
  project_body false p m w = (Ok m', w') →
  ∃ r w1, upsert_project p w = (Ok r, w1) ∧ m' = <[p_name p := r]> m.
Proof.
  unfold project_body. intros H.
  apply bind_ok_inv in H as (proj & w1 & Hup & H).
  apply bind_ok_inv in H as (nm & w2 & _ & H).
  apply bind_ok_inv in H as ([] & w3 & _ & H).
  inversion H. eauto.
Qed.

Lemma epic_body_value ms e m w m' w' :
  epic_body false ms e m w = (Ok m', w') →
  ∃ r w1, upsert_epic e (r_id ms) w = (Ok r, w1) ∧ m' = <[e_name e := r]> m.
Proof.
  unfold epic_body. intros H.
  apply bind_ok_inv in H as (ep & w1 & Hep & H). inversion H; subst.
  apply bind_ok_inv in Hep as (ep' & w2 & Hup & H').
  apply bind_ok_inv in H' as (nm & w3 & _ & H').
  apply bind_ok_inv in H' as ([] & w4 & _ & H').
  inversion H'; subst. eauto.
Qed.

(** ** The ids of the parents in the calls for the children *)

Lemma talks_linked_story_body cfg n2p n2e it s :
  s ∈ stories cfg →
  preserves (talks (linked_story_calls cfg n2p n2e it))
    (story_body false n2p n2e it s).
Proof.
  intros Hs. unfold story_body.
  destruct (n2p !! s_project s) as [proj|] eqn:Hp; [|repeat talk_step].
  destruct (n2e !! s_epic s) as [epic|] eqn:He; [|repeat talk_step].
  apply preserves_bind; [apply _| |].
  - apply preserves_bind; [apply _| |intros ?; repeat talk_step].
    eapply preserves_calls_talks; [|apply calls_upsert_story].
    intros me pa js H. exists s. split; [done|]. left. by exists proj, epic.
  - intros story. apply preserves_for_each_in; [apply _|]. intros x Hx.
    unfold task_body.
    apply preserves_bind; [apply _| |intros ?; repeat talk_step].
    eapply preserves_calls_talks; [|apply calls_create_task].
    intros me pa js H. exists s. split; [done|]. right. by exists story, x.1, x.2.
Qed.

Lemma talks_linked_stories_stage cfg n2p n2e it :
  preserves (talks (linked_story_calls cfg n2p n2e it))
    (for_each (stories cfg) (story_body false n2p n2e it)).
Proof.
  apply preserves_for_each_in; [apply _|]. intros s Hs.
  by apply talks_linked_story_body.
Qed.

(** X14: the ids of the parents reach the calls for the children.  Take
    a real run whose first four stages complete: the project stage with
    the name map [n2p], the milestone stage with the record [ms], the
    epic stage (run with [ms]) with the name map [n2e], and the iteration
    stage with [it].  Then [ms] is the record that [upsert_milestone]
    returned in this run, and every call of the epic stage is an upsert
    of a configured epic with the id of [ms] as ["milestone_id"]; [it] is
    the record that [upsert_iteration] returned in this run, or nothing
    without an iteration block; the rest of the run is the story loop
    over these maps; and every call of the story loop is the creation of
    a task or the upsert of a configured story that carries, as
    ["project_id"] and ["epic_id"], the ids of the records that the maps
    hold under the names of its project and its epic and, as
    ["iteration_id"], the id of [it] if there is one. *)
Theorem parent_ids_reach_children cfg w n2p w1 ms_cfg ms w2 n2e w3 it w4 :
  for_fold (projects cfg) (project_body false) ∅ w = (Ok n2p, w1) →
  milestone cfg = Some ms_cfg →
  milestone_stage false ms_cfg w1 = (Ok ms, w2) →
  for_fold (epics cfg) (epic_body false ms) ∅ w2 = (Ok n2e, w3) →
  iteration_stage cfg false w3 = (Ok it, w4) →
  let res := for_each (stories cfg) (story_body false n2p n2e it) w4 in
  bootstrap cfg false w = res ∧
  (∃ wa, upsert_milestone ms_cfg w1 = (Ok ms, wa)) ∧
  (∃ l3, exchanges w3 = exchanges w2 ++ l3 ∧
         sent w2 (epics_calls cfg (r_id ms)) l3) ∧
  (∀ e, ("milestone_id", JInt (r_id ms)) ∈ epic_payload e (r_id ms)) ∧
  match iteration cfg with
  | Some it_cfg =>
      ∃ r wb, it = Some r ∧
        upsert_iteration (settled_iteration w3 cfg it_cfg) w3 = (Ok r, wb)
  | None => it = None
  end ∧
  (∃ l5, exchanges res.2 = exchanges w4 ++ l5 ∧
         sent w4 (linked_story_calls cfg n2p n2e it) l5) ∧
  (∀ s proj epic,
     let js := story_json (story_payload s proj epic it) in
     ("project_id", JInt (r_id proj)) ∈ js ∧
     ("epic_id", JInt (r_id epic)) ∈ js ∧
     (∀ r, it = Some r → ("iteration_id", JInt (r_id r)) ∈ js) ∧
     (it = None → ∀ v, ("iteration_id", v) ∉ js)).
Proof.
  intros H1 Hms H2 H3 H4 res. subst res.
  split.
  { unfold bootstrap. rewrite bind_run, H1, bind_run.
    unfold getitem_milestone. rewrite Hms. cbn [mret M_ret].
    by rewrite bind_run, H2, bind_run, H3, bind_run, H4. }
  split.
  { unfold milestone_stage in H2.
    apply bind_ok_inv in H2 as (ms' & wa & Hup & H2).
    apply bind_ok_inv in H2 as (nm & wb & _ & H2).
    apply bind_ok_inv in H2 as ([] & wc & _ & H2).
    inversion H2; subst. by exists wa. }
  split.
  { destruct (talks_epics_stage cfg ms w2) as [(_ & l3 & Hex & Hs) _].
    rewrite H3 in Hex. by exists l3. }
  split.
  { intros e. unfold epic_payload. set_solver. }
  split.
  { destruct (iteration cfg) as [it_cfg|] eqn:Hit.
    - rewrite (iteration_stage_real cfg it_cfg w3 Hit) in H4.
      apply bind_ok_inv in H4 as (r & wb & Hup & H4).
      apply bind_ok_inv in H4 as (nm & wc & _ & H4).
      apply bind_ok_inv in H4 as ([] & wd & _ & H4).
      inversion H4; subst. by exists r, wb.
    - unfold iteration_stage in H4. rewrite Hit in H4. by inversion H4. }
  split.
  { destruct (talks_linked_stories_stage cfg n2p n2e it w4) as [(_ & l5 & Hex & Hs) _].
    by exists l5. }
  intros s proj epic js. subst js. unfold story_json, story_payload. cbn.
  split; [set_solver|]. split; [set_solver|]. split.
  - intros r ->. cbn. set_solver.
  - intros -> v. cbn. set_solver.
Qed.

Lemma parent_ids_reach_children_witness :
  let ms := {| r_id := 4; r_name := Some "MVP";
               r_external_id := Some "beeai:milestone:mvp" |} in
  let it := Some {| r_id := 8; r_name := Some "Sprint 1";
                    r_external_id := Some "beeai:iteration:1" |} in
  let r1 := for_fold (projects Fake.cfg1) (project_body false) ∅ Fake.w0 in
  let n2p := match r1.1 with Ok m => m | _ => ∅ end in
  let r2 := milestone_stage false Fake.milestone1 r1.2 in
  let r3 := for_fold (epics Fake.cfg1) (epic_body false ms) ∅ r2.2 in
  let n2e := match r3.1 with Ok m => m | _ => ∅ end in
  let r4 := iteration_stage Fake.cfg1 false r3.2 in
  r1 = (Ok n2p, r1.2) ∧ r2 = (Ok ms, r2.2) ∧ r3 = (Ok n2e, r3.2) ∧
  r4 = (Ok it, r4.2) ∧
  bootstrap Fake.cfg1 false Fake.w0 =
    for_each (stories Fake.cfg1) (story_body false n2p n2e it) r4.2 ∧
  ∃ l3, exchanges r3.2 = exchanges r2.2 ++ l3 ∧
        sent r2.2 (epics_calls Fake.cfg1 4) l3.
Proof.
  intros ms it r1 n2p r2 r3 n2e r4.
  assert (H1 : r1 = (Ok n2p, r1.2)) by (vm_compute; reflexivity).
  assert (H2 : r2 = (Ok ms, r2.2)) by (vm_compute; reflexivity).
  assert (H3 : r3 = (Ok n2e, r3.2)) by (vm_compute; reflexivity).
  assert (H4 : r4 = (Ok it, r4.2)) by (vm_compute; reflexivity).
  split; [exact H1|]. split; [exact H2|]. split; [exact H3|]. split; [exact H4|].
  destruct (parent_ids_reach_children Fake.cfg1 Fake.w0 n2p r1.2 Fake.milestone1
              ms r2.2 n2e r3.2 it r4.2 H1 eq_refl H2 H3 H4)
    as (Hrun & _ & Hepics & _).
  split; [exact Hrun|exact Hepics].
Defined.

(** ** Retryable responses and the caller *)

Lemma req_loop_exhausted method path js attempts :
  ∀ resp w r,
    let res := _req_loop method (API_BASE w +:+ path) js attempts resp w in
    attempts ≠ [] →
    res.1 = Ok r → retryable (status_code r) = true →
    length (exchanges res.2) = (length (exchanges w) + length attempts)%nat.
Proof.
  induction attempts as [|a rest IH]; intros resp w r res Hne Hok Hr; [done|].
  subst res. destruct (token_set_dec w) as [Htok|Hno].
  - rewrite (req_loop_step _ _ _ _ _ _ _ Htok) in *. cbv zeta in *.
    set (rq := request_of w method path js) in *.
    set (r0 := service w (exchanges w) rq) in *.
    destruct (retryable (status_code r0)) eqn:Hr0.
    + set (w2 := with_sleep _ _) in *.
      destruct rest as [|a' rest'].
      * cbn [_req_loop] in *. simpl. rewrite length_app. simpl. lia.
      * specialize (IH (Some r0) w2 r).
        change (API_BASE w2) with (API_BASE w) in IH. cbv zeta in IH.
        rewrite IH; [|done|exact Hok|exact Hr].
        simpl. rewrite length_app. simpl. lia.
    + simpl in Hok. injection Hok as <-. congruence.
  - rewrite (req_loop_no_token _ _ _ _ _ _ _ Hno) in Hok. discriminate.
Qed.

(** X15: what [_req] returns is the response of the last request it sent,
    and every response before that one was retryable.  A retryable status
    (429, 500, 502, 503, 504) reaches the caller only when all five
    attempts were used. *)
Theorem req_returns_last_response method path js w r :
  (_req method path js 5 w).1 = Ok r →
  let rq := request_of w method path js in
  let res := _req method path js 5 w in
  (∃ pre, exchanges res.2 = exchanges w ++ (pair rq <$> pre) ++ [(rq, r)] ∧
          Forall (λ x, retryable (status_code x) = true) pre ∧
          (length pre ≤ 4)%nat ∧
          (retryable (status_code r) = true → length pre = 4%nat)) ∧
  last (exchanges res.2) = Some (rq, r).
Proof.
  intros Hok rq res. subst res.
  pose proof (req_spec method path js w) as Hs. cbv zeta in Hs. fold rq in Hs.
  pose proof (req_loop_bounds method path js [1; 2; 3; 4; 5]%Z None w) as Hb.
  pose proof (req_loop_exhausted method path js [1; 2; 3; 4; 5]%Z None w r) as He.
  cbv zeta in Hb, He. rewrite <- req_unfold in Hb, He.
  destruct (_req method path js 5 w) as [o w'] eqn:Hrun. cbn [fst snd] in *.
  subst o. destruct Hs as (_ & _ & rs & Hex & _ & _ & pre & -> & Hpre).
  destruct Hb as (n & k & Hn & _ & _ & Hlen & _).
  rewrite Hex, length_app, length_fmap, length_app in Hlen. simpl in Hlen, Hn.
  assert (Hex' : exchanges w' = exchanges w ++ (pair rq <$> pre) ++ [(rq, r)]).
  { by rewrite Hex, fmap_app. }
  split.
  - exists pre. split; [exact Hex'|]. split; [exact Hpre|]. split; [lia|].
    intros Hr. specialize (He ltac:(done) eq_refl Hr).
    rewrite Hex, length_app, length_fmap, length_app in He. simpl in He. lia.
  - by rewrite Hex', !app_assoc, last_snoc.
Qed.

Lemma req_returns_last_response_witness :
  (_req "GET" "/projects" None 5 Fake.w_flaky).1 = Ok Fake.listing ∧
  last (exchanges (_req "GET" "/projects" None 5 Fake.w_flaky).2) =
    Some (request_of Fake.w_flaky "GET" "/projects" None, Fake.listing).
Proof.
  assert (H : (_req "GET" "/projects" None 5 Fake.w_flaky).1 = Ok Fake.listing)
    by (vm_compute; reflexivity).
  split; [exact H|].
  exact (proj2 (req_returns_last_response "GET" "/projects" None Fake.w_flaky
                  Fake.listing H)).
Defined.

(** ** The error stream *)

Lemma explains_ret {A} (a : A) : explains (mret a).
Proof. by intros w. Qed.

Lemma explains_raise {A} e : explains (@raise A e).
Proof. by intros w. Qed.

Lemma explains_bind {A B} (m : M A) (f : A → M B) :
  explains m → (∀ a, explains (f a)) → explains (m ≫= f).
Proof.
  intros Hm Hf w. rewrite bind_run. specialize (Hm w).
  destruct (m w) as [[a|c|e] w1]; cbn [fst snd] in *; [|done..].
  specialize (Hf a w1). destruct ((f a w1).1); by rewrite <- Hm.
Qed.

Lemma explains_for_fold {A S} (l : list A) (body : A → S → M S) s :
  (∀ x s, explains (body x s)) → explains (for_fold l body s).
Proof.
  intros Hb. revert s. induction l as [|x l IH]; intros s; simpl.
  - apply explains_ret.
  - apply explains_bind; [apply Hb|]. intros s'. apply IH.
Qed.

Lemma explains_for_each {A} (l : list A) (body : A → M unit) :
  (∀ x, explains (body x)) → explains (for_each l body).
Proof. intros Hb. apply explains_for_fold. intros x _. apply Hb. Qed.

Lemma explains_fail {A} line : explains (eprint line;; @sys_exit A 2).
Proof. intros w. cbn. by exists line. Qed.

Lemma explains_die {A} r context : explains (@_die A r context).
Proof. apply explains_fail. Qed.

Lemma explains_print line : explains (print line).
Proof. by intros w. Qed.

Lemma explains_getitem_name r : explains (getitem_name r).
Proof. unfold getitem_name. by destruct (r_name r); intros w. Qed.

Lemma explains_getitem_milestone cfg : explains (getitem_milestone cfg).
Proof. unfold getitem_milestone. by destruct (milestone cfg); intros w. Qed.

Lemma explains_json_list r : explains (json_list r).
Proof. unfold json_list. by destruct (body r); intros w. Qed.

Lemma explains_json_obj r : explains (json_obj r).
Proof. unfold json_obj. by destruct (body r); intros w. Qed.

Lemma explains_iteration_payload cfg it_cfg : explains (iteration_payload cfg it_cfg).
Proof. intros w. by rewrite iteration_payload_run. Qed.

Lemma explains_req method path js : explains (_req method path js 5).
Proof.
  intros w. destruct (req_spec method path js w) as (_ & _ & rs & _ & Ho).
  destruct (_req method path js 5 w) as [[r|c|e] w']; cbn [fst snd] in *.
  - by destruct Ho.
  - destruct Ho as (_ & _ & _ & Herr). by exists ErrTokenRequired.
  - done.
Qed.

Ltac explain_step :=
  lazymatch goal with
  | |- explains (mbind (λ _, sys_exit 2) (eprint _)) => apply explains_fail
  | |- explains (_die _ _) => apply explains_die
  | |- explains (_req _ _ _ _) => apply explains_req
  | |- explains (mbind _ _) => apply explains_bind; [|intros ?]
  | |- explains (mret _) => apply explains_ret
  | |- explains (raise _) => apply explains_raise
  | |- explains (for_fold _ _ _) => apply explains_for_fold; intros ? ?
  | |- explains (for_each _ _) => apply explains_for_each; intros ?
  | |- explains (print _) => apply explains_print
  | |- explains (getitem_name _) => apply explains_getitem_name
  | |- explains (getitem_milestone _) => apply explains_getitem_milestone
  | |- explains (json_list _) => apply explains_json_list
  | |- explains (json_obj _) => apply explains_json_obj
  | |- explains (iteration_payload _ _) => apply explains_iteration_payload
  | |- explains (match ?x with _ => _ end) => destruct x
  end.

Lemma explains_upsert_project p : explains (upsert_project p).
Proof.
  unfold upsert_project, find_project_by_external_id, create_project,
    die_unless_200, die_unless_created.
  repeat explain_step.
Qed.

Lemma explains_upsert_milestone m : explains (upsert_milestone m).
Proof.
  unfold upsert_milestone, find_milestone_by_external_id, get_milestones,
    update_milestone, create_milestone, die_unless_200, die_unless_created.
  repeat explain_step.
Qed.

Lemma explains_upsert_epic e mid : explains (upsert_epic e mid).
Proof.
  unfold upsert_epic, find_epic_by_external_id, list_epics, update_epic,
    create_epic, die_unless_200, die_unless_created.
  repeat explain_step.
Qed.

Lemma explains_upsert_iteration i : explains (upsert_iteration i).
Proof.
  unfold upsert_iteration, find_iteration_by_external_id, list_iterations,
    update_iteration, create_iteration, die_unless_200, die_unless_created.
  repeat explain_step.
Qed.

Lemma explains_upsert_story s : explains (upsert_story s).
Proof.
  unfold upsert_story, find_story_by_external_id, list_stories, update_story,
    create_story, die_unless_200, die_unless_created.
  repeat explain_step.
Qed.

Lemma explains_create_task js : explains (create_task js).
Proof. unfold create_task, die_unless_created. repeat explain_step. Qed.

Lemma explains_bootstrap cfg dry_run : explains (bootstrap cfg dry_run).
Proof.
  unfold bootstrap, project_body, milestone_stage, epic_body, iteration_stage,
    story_body, task_body.
  repeat explain_step;
    first [ apply explains_upsert_project | apply explains_upsert_milestone
          | apply explains_upsert_epic | apply explains_upsert_iteration
          | apply explains_upsert_story | apply explains_create_task ].
Qed.

(** X16: the process writes to its standard error only when the run
    does not complete.  A run that completes leaves it as it was; a run
    that exits has printed exactly one line, the reason, and exits with
    code 2; a run that ends in an uncaught exception has printed nothing
    itself, and the one addition is the traceback of that exception, which
    the interpreter writes.  This holds in both modes, for every
    configuration and service. *)
Theorem stderr_only_on_failure command cfg w :
  let res := main command cfg w in
  match res.1 with
  | Ok _ => process_stderr res = Printed <$> stderr w
  | Exit c =>
      c = 2%Z ∧
      ∃ line, process_stderr res = (Printed <$> stderr w) ++ [Printed line]
  | Raise e => process_stderr res = (Printed <$> stderr w) ++ [Traceback e]
  end.
Proof.
  intros res.
  assert (He : explains (main command cfg))
    by (destruct command; apply explains_bootstrap).
  assert (Hc : ∀ c, res.1 = Exit c → c = 2%Z).
  { subst res. destruct command; cbn [main].
    - by destruct (bootstrap_stages cfg w) as (_ & Hc & _).
    - by destruct (silent_bootstrap cfg w) as [_ Hc]. }
  specialize (He w). fold res in He. unfold process_stderr.
  destruct (res.1) as [[]|c|e] eqn:Ho.
  - by rewrite He, app_nil_r.
  - destruct He as [line He]. split; [by apply Hc|].
    exists line. by rewrite He, fmap_app, app_nil_r.
  - by rewrite He.
Qed.

(** ** A dry run that stops *)




(** ** How much a real run can send *)

Lemma total_app l1 l2 : total (l1 ++ l2) = (total l1 + total l2)%Z.
Proof.
  unfold total. induction l1 as [|x l1 IH]; simpl; [done|]. rewrite IH. lia.
Qed.

Lemma costs_req method path js : costs 1 (_req method path js 5).
Proof.
  intros w. rewrite req_unfold.
  pose proof (req_loop_bounds method path js [1; 2; 3; 4; 5]%Z None w) as Hb.
  cbv zeta in Hb.
  destruct (_req_loop method (API_BASE w +:+ path) js [1; 2; 3; 4; 5]%Z None w)
    as [o w'].
  destruct Hb as (n & k & Hn & Hk & _ & Hlen & Hsl & _). cbn [fst snd] in *.
  rewrite Hlen, Hsl, total_app. split; [simpl in Hn; lia|].
  assert (total (backoff <$> take k [1; 2; 3; 4; 5]%Z) ≤ 15500)%Z
    by (destruct k as [|[|[|[|[|[|k]]]]]]; vm_compute; discriminate).
  lia.
Qed.

Lemma costs_weaken {A} n n' (m : M A) : (n ≤ n')%nat → costs n m → costs n' m.
Proof. intros Hn Hm w. destruct (Hm w). split; lia. Qed.

Lemma costs_silent {A} n (m : M A) : preserves silent m → costs n m.
Proof.
  intros Hm w. destruct (Hm w) as [(_ & Hex & Hsl & _) _].
  rewrite Hex, Hsl. split; lia.
Qed.

Lemma costs_bind {A B} n k (m : M A) (f : A → M B) :
  costs n m → (∀ a, costs k (f a)) → costs (n + k) (m ≫= f).
Proof.
  intros Hm Hf w. rewrite bind_run. destruct (Hm w) as [H1 H2].
  destruct (m w) as [[a|c|e] w1]; cbn [fst snd] in *; [|split; lia..].
  destruct (Hf a w1). split; lia.
Qed.

Lemma costs_for_fold {A S} (c : A → nat) (l : list A) (body : A → S → M S) s :
  (∀ x s, costs (c x) (body x s)) →
  costs (sum_list (c <$> l)) (for_fold l body s).
Proof.
  intros Hb. revert s. induction l as [|x l IH]; intros s.
  - apply costs_silent, preserves_ret, _.
  - rewrite fmap_cons. cbn [sum_list sum_list_with for_fold].
    apply costs_bind; [apply Hb|]. intros s'. apply IH.
Qed.

Lemma sum_list_const {A} (c : nat) (l : list A) :
  sum_list ((λ _, c) <$> l) = (length l * c)%nat.
Proof.
  induction l as [|x l IH]; [done|].
  rewrite fmap_cons. cbn [sum_list_with length id]. rewrite IH. lia.
Qed.

(** One call and what the helper does with the response. *)
Lemma costs_call {A} method path js (k : Response → M A) :
  (∀ r, preserves silent (k r)) → costs 1 (r ← _req method path js 5; k r).
Proof.
  intros Hk. apply (costs_bind 1 0); [apply costs_req|].
  intros r. apply costs_silent, Hk.
Qed.

Ltac one_call :=
  apply costs_call; intros ?; repeat keep_step.

Lemma costs_upsert_project p : costs 2 (upsert_project p).
Proof.
  unfold upsert_project. apply (costs_bind 1 1).
  - unfold find_project_by_external_id. one_call.
  - intros [found|].
    + apply costs_silent, preserves_ret, _.
    + unfold create_project. one_call.
Qed.

Lemma costs_upsert_milestone m : costs 2 (upsert_milestone m).
Proof.
  unfold upsert_milestone. apply (costs_bind 1 1).
  - unfold find_milestone_by_external_id, get_milestones.
    apply (costs_bind 1 0); [one_call|].
    intros l. apply costs_silent, preserves_ret, _.
  - intros [found|]; [unfold update_milestone|unfold create_milestone]; one_call.
Qed.

Lemma costs_upsert_epic e mid : costs 2 (upsert_epic e mid).
Proof.
  unfold upsert_epic. apply (costs_bind 1 1).
  - unfold find_epic_by_external_id, list_epics.
    apply (costs_bind 1 0); [one_call|].
    intros l. apply costs_silent, preserves_ret, _.
  - intros [found|]; [unfold update_epic|unfold create_epic]; one_call.
Qed.

Lemma costs_upsert_iteration i : costs 2 (upsert_iteration i).
Proof.
  unfold upsert_iteration. apply (costs_bind 1 1).
  - unfold find_iteration_by_external_id, list_iterations.
    apply (costs_bind 1 0); [one_call|].
    intros l. apply costs_silent, preserves_ret, _.
  - intros [found|]; [unfold update_iteration|unfold create_iteration]; one_call.
Qed.

Lemma costs_upsert_story s : costs 2 (upsert_story s).
Proof.
  unfold upsert_story. apply (costs_bind 1 1).
  - unfold find_story_by_external_id, list_stories.
    apply (costs_bind 1 0); [one_call|].
    intros l. apply costs_silent, preserves_ret, _.
  - intros [found|]; [unfold update_story|unfold create_story]; one_call.
Qed.

Lemma costs_create_task js : costs 1 (create_task js).
Proof. unfold create_task. one_call. Qed.

(** An upsert, then the [[ok]] line. *)
Lemma costs_then_line {A B} n (m : M A) (k : A → M B) :
  costs n m → (∀ a, preserves silent (k a)) → costs n (a ← m; k a).
Proof.
  intros Hm Hk. apply (costs_weaken (n + 0)); [lia|].
  apply costs_bind; [exact Hm|]. intros a. apply costs_silent, Hk.
Qed.

Lemma costs_project_body p m : costs 2 (project_body false p m).
Proof.
  unfold project_body. apply costs_then_line; [apply costs_upsert_project|].
  intros proj. repeat keep_step.
Qed.

Lemma costs_milestone_stage ms_cfg : costs 2 (milestone_stage false ms_cfg).
Proof.
  unfold milestone_stage. apply costs_then_line; [apply costs_upsert_milestone|].
  intros ms. repeat keep_step.
Qed.

Lemma costs_epic_body ms e m : costs 2 (epic_body false ms e m).
Proof.
  unfold epic_body. apply costs_then_line.
  - apply costs_then_line; [apply costs_upsert_epic|]. intros ep. repeat keep_step.
  - intros ep. repeat keep_step.
Qed.

Lemma costs_iteration_stage cfg :
  costs (2 * match iteration cfg with Some _ => 1 | None => 0 end)
    (iteration_stage cfg false).
Proof.
  unfold iteration_stage. destruct (iteration cfg) as [it_cfg|].
  - apply (costs_bind 0 2); [apply costs_silent, silent_iteration_payload|].
    intros it_payload. apply costs_then_line; [apply costs_upsert_iteration|].
    intros it. repeat keep_step.
  - apply costs_silent, preserves_ret, _.
Qed.

Lemma costs_task_body s story it : costs 1 (task_body false s story it).
Proof.
  unfold task_body. apply costs_then_line; [apply costs_create_task|].
  intros task. repeat keep_step.
Qed.

Lemma costs_story_body n2p n2e it s :
  costs (2 + length (s_tasks s)) (story_body false n2p n2e it s).
Proof.
  assert (Hstop : ∀ n, costs n (eprint (ErrMissing (s_name s));; @sys_exit unit 2)).
  { intros n. apply costs_silent. repeat keep_step. }
  unfold story_body.
  destruct (n2p !! s_project s) as [proj|]; [|apply Hstop].
  destruct (n2e !! s_epic s) as [epic|]; [|apply Hstop].
  apply costs_bind.
  - apply costs_then_line; [apply costs_upsert_story|]. intros st. repeat keep_step.
  - intros story. unfold for_each.
    apply (costs_weaken (sum_list ((λ _, 1%nat) <$> enumerate 1 (s_tasks s)))).
    + rewrite sum_list_const, enumerate_length. lia.
    + apply costs_for_fold. intros x _. apply costs_task_body.
Qed.

Lemma costs_bootstrap cfg : costs (call_budget cfg) (bootstrap cfg false).
Proof.
  unfold bootstrap.
  apply (costs_weaken
           (sum_list ((λ _, 2%nat) <$> projects cfg) +
            (0 + (2 + (sum_list ((λ _, 2%nat) <$> epics cfg) +
                       (2 * match iteration cfg with Some _ => 1 | None => 0 end +
                        sum_list ((λ s, (2 + length (s_tasks s))%nat) <$> stories cfg))))))).
  { unfold call_budget. rewrite !sum_list_const.
    assert (sum_list ((λ s, (2 + length (s_tasks s))%nat) <$> stories cfg) =
            (2 * length (stories cfg) +
             sum_list (length ∘ s_tasks <$> stories cfg))%nat) as ->.
    { induction (stories cfg) as [|s ss IH]; [done|].
      rewrite !fmap_cons. cbn [sum_list sum_list_with length].
      change (list_fmap Story nat (length ∘ s_tasks) ss)
        with ((length ∘ s_tasks) <$> ss) in *.
      change (sum_list_with id ?l) with (sum_list l) in *.
      rewrite IH. simpl. lia. }
    lia. }
  apply costs_bind.
  { apply costs_for_fold. intros p m. apply costs_project_body. }
  intros n2p. apply costs_bind; [apply costs_silent, silent_getitem_milestone|].
  intros ms_cfg. apply costs_bind; [apply costs_milestone_stage|].
  intros ms. apply costs_bind.
  { apply costs_for_fold. intros e m. apply costs_epic_body. }
  intros n2e. apply costs_bind; [apply costs_iteration_stage|].
  intros it. unfold for_each. apply costs_for_fold.
  intros s _. apply costs_story_body.
Qed.

(** X18: a real run is bounded by its configuration, whatever the
    service answers.  It makes at most two API calls for every project,
    for the milestone, for every epic, for the iteration and for every
    story, and one for every task; every call is at most five requests
    and 15.5 seconds of sleep.  So the number of requests and the time
    slept have a bound that depends on the configuration only. *)
Theorem real_run_request_budget cfg w :
  let res := bootstrap cfg false w in
  (length (exchanges res.2) ≤ length (exchanges w) + 5 * call_budget cfg)%nat ∧
  (total (slept res.2) ≤ total (slept w) + 15500 * Z.of_nat (call_budget cfg))%Z ∧
  (∀ p, costs 2 (upsert_project p)) ∧
  (∀ m, costs 2 (upsert_milestone m)) ∧
  (∀ e milestone_id, costs 2 (upsert_epic e milestone_id)) ∧
  (∀ i, costs 2 (upsert_iteration i)) ∧
  (∀ s, costs 2 (upsert_story s)) ∧
  (∀ js, costs 1 (create_task js)).
Proof.
  intros res. subst res. destruct (costs_bootstrap cfg w) as [Hex Hsl].
  split; [exact Hex|]. split; [exact Hsl|].
  split; [exact costs_upsert_project|]. split; [exact costs_upsert_milestone|].
  split; [exact costs_upsert_epic|]. split; [exact costs_upsert_iteration|].
  split; [exact costs_upsert_story|exact costs_create_task].
Qed.

(** ** Two configured records of one name *)

Lemma projects_pass ps :
  ∀ m w m' w' k,
    for_fold ps (project_body false) m w = (Ok m', w') →
    k ∉ (p_name <$> ps) → m' !! k = m !! k.
Proof.
  induction ps as [|p ps IH]; intros m w m' w' k H Hk.
  - by inversion H.
  - cbn [for_fold] in H. apply bind_ok_inv in H as (m1 & w1 & Hbody & H).
    apply project_body_value in Hbody as (r0 & w0 & _ & ->).
    rewrite fmap_cons, not_elem_of_cons in Hk. destruct Hk as [Hne Hk].
    rewrite (IH _ _ _ _ k H Hk). by rewrite lookup_insert_ne.
Qed.

Lemma epics_pass ms es :
  ∀ m w m' w' k,
    for_fold es (epic_body false ms) m w = (Ok m', w') →
    k ∉ (e_name <$> es) → m' !! k = m !! k.
Proof.
  induction es as [|e es IH]; intros m w m' w' k H Hk.
  - by inversion H.
  - cbn [for_fold] in H. apply bind_ok_inv in H as (m1 & w1 & Hbody & H).
    apply epic_body_value in Hbody as (r0 & w0 & _ & ->).
    rewrite fmap_cons, not_elem_of_cons in Hk. destruct Hk as [Hne Hk].
    rewrite (IH _ _ _ _ k H Hk). by rewrite lookup_insert_ne.
Qed.

(** X19: of two configured projects with one name the later wins.  When
    the project stage completes, the map holds under a name the record
    that the upsert of the last configured project of that name returned
    (the earlier ones are upserted all the same, and then forgotten); so
    a story that names it is attached to that one.  The same holds for
    epics. *)
Theorem duplicate_names_last_wins cfg :
  (∀ pre p post w n2p w',
     projects cfg = pre ++ p :: post →
     p_name p ∉ (p_name <$> post) →
     for_fold (projects cfg) (project_body false) ∅ w = (Ok n2p, w') →
     ∃ m1 w1 r w2,
       for_fold pre (project_body false) ∅ w = (Ok m1, w1) ∧
       upsert_project p w1 = (Ok r, w2) ∧
       n2p !! p_name p = Some r) ∧
  (∀ ms pre e post w n2e w',
     epics cfg = pre ++ e :: post →
     e_name e ∉ (e_name <$> post) →
     for_fold (epics cfg) (epic_body false ms) ∅ w = (Ok n2e, w') →
     ∃ m1 w1 r w2,
       for_fold pre (epic_body false ms) ∅ w = (Ok m1, w1) ∧
       upsert_epic e (r_id ms) w1 = (Ok r, w2) ∧
       n2e !! e_name e = Some r).
Proof.
  split.
  - intros pre p post w n2p w' -> Hlast H.
    rewrite for_fold_app in H. apply bind_ok_inv in H as (m1 & w1 & Hpre & H).
    cbn [for_fold] in H. apply bind_ok_inv in H as (m2 & w2 & Hbody & H).
    apply project_body_value in Hbody as (r & w3 & Hup & ->).
    exists m1, w1, r, w3. split; [exact Hpre|]. split; [exact Hup|].
    rewrite (projects_pass _ _ _ _ _ _ H Hlast). by rewrite lookup_insert_eq.
  - intros ms pre e post w n2e w' -> Hlast H.
    rewrite for_fold_app in H. apply bind_ok_inv in H as (m1 & w1 & Hpre & H).
    cbn [for_fold] in H. apply bind_ok_inv in H as (m2 & w2 & Hbody & H).
    apply epic_body_value in Hbody as (r & w3 & Hup & ->).
    exists m1, w1, r, w3. split; [exact Hpre|]. split; [exact Hup|].
    rewrite (epics_pass _ _ _ _ _ _ _ H Hlast). by rewrite lookup_insert_eq.
Qed.

Lemma duplicate_names_last_wins_witness :
  let run := for_fold (projects Sample.cfg_twins) (project_body false) ∅ Fake.w0 in
  projects Sample.cfg_twins = [Fake.project1] ++ Sample.project_twin :: [] ∧
  ∃ n2p r,
    run = (Ok n2p, run.2) ∧
    n2p !! "Platform" = Some r ∧
    ∃ w1 w2, upsert_project Sample.project_twin w1 = (Ok r, w2).
Proof.
  intros run. split; [reflexivity|].
  assert (Hok : ∃ n2p, run = (Ok n2p, run.2)).
  { eexists. vm_compute. reflexivity. }
  destruct Hok as [n2p Hok].
  destruct (duplicate_names_last_wins Sample.cfg_twins) as [Hp _].
  destruct (Hp [Fake.project1] Sample.project_twin [] Fake.w0 n2p run.2)
    as (m1 & w1 & r & w2 & _ & Hup & Hk).
  - reflexivity.
  - rewrite fmap_nil. apply not_elem_of_nil.
  - exact Hok.
  - exists n2p, r. split; [exact Hok|]. split; [exact Hk|]. by exists w1, w2.
Defined.
